(** * TalkToDBAgent: the SQL pipeline, embedded and checked against its specification

    The development follows the Python sources under [server/app]:
    - [services/sql/guardrails.py]       (module [Guardrails])
    - [services/sql/sql_chain.py]        (module [SqlChain])
    - [services/sql/executor.py]         (module [Executor])
    - [services/sql/schema_discovery.py] (module [SchemaDiscovery])
    - [api/routes/query.py]              (module [QueryRoutes])

    Text is modelled as a list of ASCII characters (a Python [str] restricted
    to code points below 128); the [str] methods and the three regular
    expressions the sources use are written out in module [Py] and in
    [SqlChain].  Everything outside the process (the language model, the
    target database, the clock) is an explicit input of the function that
    consults it; the readings of the clock are binary64 floats, as in
    Python. *)

From Stdlib Require Import String Ascii List Bool Arith ZArith QArith Lia.
From Stdlib Require Import DecimalString.
From Stdlib Require Import PrimFloat SpecFloat FloatOps.
Import ListNotations.
Local Open Scope nat_scope.
Local Open Scope list_scope.

(* ------------------------------------------------------------------ *)
(** * Python text primitives *)
(* ------------------------------------------------------------------ *)

Module Py.

(** A Python [str] of ASCII characters, the codes below 128.  On that range
    the case mappings, the white space and the character classes below are
    Python's; beyond it Python follows Unicode, which is outside this
    model. *)
Definition str : Set := list ascii.

(** String literals. *)
Definition txt (s : string) : str := list_ascii_of_string s.
#[global] Arguments txt s%_string.

Definition code (c : ascii) : nat := nat_of_ascii c.

(** [str.isspace] on one ASCII character: TAB, LF, VT, FF, CR, the four
    separators FS, GS, RS, US, and the space. *)
Definition isspace (c : ascii) : bool :=
  ((9 <=? code c) && (code c <=? 13)) || ((28 <=? code c) && (code c <=? 32)).

Definition is_upper (c : ascii) : bool := (65 <=? code c) && (code c <=? 90).
Definition is_lower (c : ascii) : bool := (97 <=? code c) && (code c <=? 122).
Definition is_digit (c : ascii) : bool := (48 <=? code c) && (code c <=? 57).
Definition is_alpha (c : ascii) : bool := is_upper c || is_lower c.

(** The class [\w] of [re] on ASCII text. *)
Definition is_word (c : ascii) : bool :=
  is_alpha c || is_digit c || Ascii.eqb c "_".

Definition upper_char (c : ascii) : ascii :=
  if is_lower c then ascii_of_nat (code c - 32) else c.
Definition lower_char (c : ascii) : ascii :=
  if is_upper c then ascii_of_nat (code c + 32) else c.

(** [s.upper()] and [s.lower()], on ASCII text. *)
Definition upper (s : str) : str := map upper_char s.
Definition lower (s : str) : str := map lower_char s.

(** [s.lstrip(chars)] for the character class [p]. *)
Fixpoint lstrip_by (p : ascii -> bool) (s : str) : str :=
  match s with
  | [] => []
  | c :: t => if p c then lstrip_by p t else s
  end.

(** [s.rstrip(chars)] for the character class [p]: a character is kept
    when it is outside the class or when something is kept after it. *)
Fixpoint rstrip_by (p : ascii -> bool) (s : str) : str :=
  match s with
  | [] => []
  | c :: t =>
      match rstrip_by p t with
      | [] => if p c then [] else [c]
      | r => c :: r
      end
  end.

(** [s.strip()]. *)
Definition strip (s : str) : str := rstrip_by isspace (lstrip_by isspace s).

(** [s.rstrip(";")]. *)
Definition is_semi (c : ascii) : bool := Ascii.eqb c ";".
Definition rstrip_semi (s : str) : str := rstrip_by is_semi s.

(** [s.startswith(pat)]. *)
Fixpoint startswith (pat s : str) : bool :=
  match pat, s with
  | [], _ => true
  | p :: pt, c :: t => Ascii.eqb p c && startswith pt t
  | _ :: _, [] => false
  end.

(** [pat in s]. *)
Fixpoint contains (pat s : str) : bool :=
  startswith pat s ||
  match s with
  | [] => false
  | _ :: t => contains pat t
  end.

(** [s.replace(a, b)] for single characters. *)
Definition replace_char (a b : ascii) (s : str) : str :=
  map (fun c => if Ascii.eqb c a then b else c) s.

(** [s.split(sep)[0]] for a single-character separator. *)
Fixpoint split_head (sep : ascii) (s : str) : str :=
  match s with
  | [] => []
  | c :: t => if Ascii.eqb c sep then [] else c :: split_head sep t
  end.

(** The longest prefix in the class [p], and what follows it. *)
Fixpoint span (p : ascii -> bool) (s : str) : str * str :=
  match s with
  | [] => ([], [])
  | c :: t =>
      if p c then let '(a, b) := span p t in (c :: a, b) else ([], s)
  end.

(** [a == b] on texts. *)
Fixpoint str_eqb (a b : str) : bool :=
  match a, b with
  | [], [] => true
  | x :: a', y :: b' => Ascii.eqb x y && str_eqb a' b'
  | _, _ => false
  end.

(** The outcome of a Python call: a value, or a raised exception. *)
Inductive exn : Set :=
| SQLAlchemyError (msg : str)
| MultipleResultsFound
| ConnectionNotFound (connection_id : Z)
    (* ValueError(f"Connection id {connection_id} not found") *)
| AttributeError
| TypeError
| HTTPException (status_code : Z) (detail : str)
| OtherException (msg : str).

Inductive result (A : Type) : Type :=
| Ok (a : A)
| Raise (e : exn).
#[global] Arguments Ok {A} a.
#[global] Arguments Raise {A} e.

Definition bind {A B : Type} (m : result A) (k : A -> result B) : result B :=
  match m with
  | Ok a => k a
  | Raise e => Raise e
  end.

(** A list comprehension whose element expression can raise. *)
Fixpoint mapM {A B : Type} (f : A -> result B) (l : list A) : result (list B) :=
  match l with
  | [] => Ok []
  | a :: t =>
      bind (f a) (fun b => bind (mapM f t) (fun bs => Ok (b :: bs)))
  end.

(** [int(x)] on a float: the integer part, towards zero.  A finite float
    is its mantissa times a power of two.  Python refuses an infinity and a
    NaN; the readings of a clock and their difference in milliseconds are
    finite, and on the other floats the model answers 0. *)
Definition int_of_float (x : float) : Z :=
  match Prim2SF x with
  | S754_finite sign mantissa exponent =>
      let magnitude :=
        match exponent with
        | Z0 => Z.pos mantissa
        | Zpos p => Z.shiftl (Z.pos mantissa) (Z.pos p)
        | Zneg p => Z.shiftr (Z.pos mantissa) (Z.pos p)
        end in
      if sign then Z.opp magnitude else magnitude
  | _ => 0%Z
  end.

(** [int((t1 - t0) * 1000)], in the binary64 arithmetic of Python's floats:
    [t0] and [t1] are two readings of [perf_counter], in seconds; the
    result is whole milliseconds. *)
Definition elapsed_ms (t0 t1 : float) : Z :=
  int_of_float ((t1 - t0) * 1000)%float.

End Py.

Import Py.

Declare Scope py_scope.
Notation "x <- m ;; k" := (bind m (fun x => k))
  (at level 61, m at next level, right associativity) : py_scope.

(* ------------------------------------------------------------------ *)
(** * services/sql/guardrails.py *)
(* ------------------------------------------------------------------ *)

Module Guardrails.

Record SQLValidationResult : Set := {
  is_safe : bool;
  warnings : list str;
  block_execution : bool
}.

Definition dangerous_keywords : list str :=
  [ txt "DROP "; txt "TRUNCATE "; txt "ALTER "; txt "DELETE ";
    txt "UPDATE "; txt "INSERT "; txt "MERGE "; txt "CREATE ";
    txt "REPLACE "; txt "GRANT "; txt "REVOKE " ].

(** The body of [for kw in dangerous_keywords], on the loop state
    [(warnings, block)]. *)
Definition scan_keyword (sql_upper : str) (st : list str * bool) (kw : str)
  : list str * bool :=
  if contains kw sql_upper
  then (fst st ++ [txt "Detected dangerous keyword: " ++ strip kw], true)
  else st.

Definition multi_statement_warning : str :=
  txt "Multiple SQL statements detected; only single SELECT allowed".

Definition validate_sql (sql : str) (connection_id : Z) : SQLValidationResult :=
  let sql_upper := upper (strip sql) in
  let st0 : list str * bool := ([], false) in
  let st1 :=
    if negb (startswith (txt "SELECT") sql_upper)
    then fold_left (scan_keyword sql_upper) dangerous_keywords st0
    else st0 in
  let st2 :=
    if contains (txt ";") (rstrip_semi (strip sql_upper))
    then (fst st1 ++ [multi_statement_warning], true)
    else st1 in
  {| is_safe := negb (snd st2);
     warnings := fst st2;
     block_execution := snd st2 |}.

(** ** The specification's reading of the two rules *)

(** "Strip at most one trailing [;]". *)
Fixpoint strip_one_trailing_semi (s : str) : str :=
  match s with
  | [] => []
  | [c] => if is_semi c then [] else [c]
  | c :: t => c :: strip_one_trailing_semi t
  end.

(** A [;] other than exactly one trailing terminator. *)
Definition semicolon_beyond_terminator (sql : str) : bool :=
  existsb is_semi (strip_one_trailing_semi (strip sql)).

(** The eleven mutating keywords, as words. *)
Definition mutating_keywords : list str :=
  [ txt "DROP"; txt "TRUNCATE"; txt "ALTER"; txt "DELETE";
    txt "UPDATE"; txt "INSERT"; txt "MERGE"; txt "CREATE";
    txt "REPLACE"; txt "GRANT"; txt "REVOKE" ].

(** [kw] occurs in [s] as a whole word: neither the character before the
    occurrence nor the one after it is a word character.  [prev] tells
    whether the character before [s] is a word character. *)
Fixpoint whole_word_from (prev : bool) (kw s : str) : bool :=
  (negb prev && startswith kw s &&
     match skipn (length kw) s with
     | [] => true
     | c :: _ => negb (is_word c)
     end)
  || match s with
     | [] => false
     | c :: t => whole_word_from (is_word c) kw t
     end.

Definition contains_word (kw s : str) : bool := whole_word_from false kw s.

End Guardrails.

(* ------------------------------------------------------------------ *)
(** * services/sql/sql_chain.py *)
(* ------------------------------------------------------------------ *)

Module SqlChain.

Record QueryResponse : Set := {
  sql : str;
  explanation : option str;
  warnings : list str;
  confidence : Q;
  execution_time_ms : option Z
}.

(** ** [re.sub(r"```[\s\S]*?```", " ", raw)] *)

Definition fence : str := txt "```".

(** Index of the first occurrence of [pat] in [s]. *)
Fixpoint find (pat s : str) : option nat :=
  if startswith pat s then Some 0
  else match s with
       | [] => None
       | _ :: t => option_map S (find pat t)
       end.

(** Length of the match of the fence pattern at the head of [s]: an opening
    fence, then as little as possible up to the next fence. *)
Definition fence_match (s : str) : option nat :=
  if startswith fence s
  then option_map (fun j => 3 + j + 3) (find fence (skipn 3 s))
  else None.

(** The substitution scans left to right; [skip] counts the characters of
    the current match still to be passed over. *)
Fixpoint remove_fences_from (skip : nat) (s : str) : str :=
  match s with
  | [] => []
  | c :: t =>
      match skip with
      | S k => remove_fences_from k t
      | O =>
          match fence_match s with
          | Some n => " "%char :: remove_fences_from (n - 1) t
          | None => c :: remove_fences_from 0 t
          end
      end
  end.

Definition remove_fences (s : str) : str := remove_fences_from 0 s.

(** ** [re.search(r"(?is)(select[\s\S]*?)(;|$)", text_only)] *)

(** What the lazy [[\s\S]*?] takes: everything up to the first [;], or up
    to the end of the text, where [$] also holds just before a final
    newline. *)
Fixpoint lazy_body (s : str) : str :=
  match s with
  | [] => []
  | c :: t =>
      if is_semi c then []
      else if Ascii.eqb c "010" && match t with [] => true | _ => false end
      then []
      else c :: lazy_body t
  end.

(** Group 1 of the leftmost match, when there is one. *)
Fixpoint search_select (s : str) : option str :=
  if startswith (txt "select") (lower s)
  then Some (firstn 6 s ++ lazy_body (skipn 6 s))
  else match s with
       | [] => None
       | _ :: t => search_select t
       end.

(** ** [_fix_case_insensitive]: [re.sub(pattern, repl, s)]

    The pattern, under [(?i)]: the word where; [\s+]; group 1, one or more
    characters that are [\w], a dot or a double quote; [\s*]; an equals
    sign; [\s*]; an apostrophe; group 2, one or more of [[a-z]], which
    under [(?i)] is any letter; an apostrophe. *)

Definition is_col_char (c : ascii) : bool :=
  is_word c || Ascii.eqb c "." || Ascii.eqb c "034".

(** The match of the pattern at the head of [s]: the two groups and the
    text after the match.  Each repetition is followed by a character
    outside its class, so the greedy choice is the only one. *)
Definition match_where (s : str) : option (str * str * str) :=
  if startswith (txt "where") (lower s) then
    let '(ws1, r2) := span isspace (skipn 5 s) in
    let '(col, r3) := span is_col_char r2 in
    let '(_, r4) := span isspace r3 in
    match ws1, col, r4 with
    | _ :: _, _ :: _, c4 :: r5 =>
        let '(_, r6) := span isspace r5 in
        match r6 with
        | c6 :: r7 =>
            let '(val, r8) := span is_alpha r7 in
            match val, r8 with
            | _ :: _, c8 :: r9 =>
                if Ascii.eqb c4 "=" && Ascii.eqb c6 "'" && Ascii.eqb c8 "'"
                then Some (col, val, r9)
                else None
            | _, _ => None
            end
        | [] => None
        end
    | _, _, _ => None
    end
  else None.

(** [repl]: [f"WHERE {col} ILIKE '{val}'"]. *)
Definition repl (col val : str) : str :=
  txt "WHERE " ++ col ++ txt " ILIKE '" ++ val ++ txt "'".

Fixpoint sub_where (skip : nat) (s : str) : str :=
  match s with
  | [] => []
  | c :: t =>
      match skip with
      | S k => sub_where k t
      | O =>
          match match_where s with
          | Some (col, val, rest) =>
              repl col val ++ sub_where (length s - length rest - 1) t
          | None => c :: sub_where 0 t
          end
      end
  end.

Definition _fix_case_insensitive (s : str) : str := sub_where 0 s.

(** ** [generate_sql], from the model's reply on *)

(** The text handed to [re.search]: the reply, trimmed, without fenced
    blocks and with every backtick turned into a space. *)
Definition text_only (content : option str) : str :=
  let raw := strip (match content with Some c => c | None => [] end) in
  replace_char "`" " " (remove_fences raw).

Definition inert_fallback : str := txt "SELECT 1;".

Definition extract_sql (content : option str) : str :=
  let text_only := text_only content in
  let m := search_select text_only in
  let sql_text :=
    match m with
    | Some group1 => strip group1
    | None => strip (split_head ";" text_only)
    end in
  let sql_text :=
    if negb (startswith (txt "select") (lower sql_text))
    then inert_fallback
    else rstrip_semi sql_text ++ txt ";" in
  _fix_case_insensitive sql_text.

(** [content] is [resp.choices[0].message.content] of the completion the
    provider returned for the prompt; [start] and [stop] are the two
    readings of [perf_counter]. *)
Definition generate_sql (content : option str) (start stop : float) : QueryResponse :=
  {| sql := extract_sql content;
     explanation := None;
     warnings := [];
     confidence := (6 # 10)%Q;
     execution_time_ms := Some (elapsed_ms start stop) |}.

(** ** The specification's wording *)

(** No occurrence of SELECT, in any letter case. *)
Definition mentions_select (s : str) : bool := contains (txt "select") (lower s).

(** The text ends in exactly one [;]. *)
Definition ends_in_one_semicolon (s : str) : Prop :=
  exists body, s = body ++ txt ";" /\ rstrip_semi body = body.

End SqlChain.

(* ------------------------------------------------------------------ *)
(** * services/sql/executor.py *)
(* ------------------------------------------------------------------ *)

Module Executor.

Local Open Scope py_scope.

(** A value of a result row. *)
Inductive db_value : Set :=
| VNull
| VInt (z : Z)
| VBool (b : bool)
| VText (s : str).

(** [Dict[str, Any]]: keys in insertion order, no key twice. *)
Definition row_dict : Set := list (str * db_value).

Record QueryExecutionResponse : Set := {
  success : bool;
  rows : list row_dict;
  columns : list str;
  row_count : Z;
  execution_time_ms : Z;
  sql_executed : str;
  warnings : list str;
  error : option str
}.

(** A record of the connection store, as far as the executor reads it. *)
Record DbConnection : Set := {
  id : Z;
  connection_string : str
}.

(** What the target database does with a statement.  [Raises e] covers an
    exception out of [create_engine], [engine.connect()] or [execute];
    [Executed returns_rows keys fetched broken] is a result whose cursor
    yields the rows [fetched] in order, each with one value per key, and
    then ends, or raises [e] when [broken = Some e]. *)
Inductive engine_run : Set :=
| Raises (e : exn)
| Executed (returns_rows : bool) (keys : list str)
           (fetched : list (list db_value)) (broken : option exn).

(** Everything [execute_sql] consults outside its arguments: the connection
    store, the target database, and the two readings of [perf_counter]
    (the second one is taken in the handler when the attempt fails). *)
Record World : Set := {
  connections : list DbConnection;
  run : str -> str -> engine_run;
  start : float;
  stop : float
}.

Definition _get_connection_string (w : World) (connection_id : Z) : result str :=
  match filter (fun r => Z.eqb (id r) connection_id) (connections w) with
  | [] => Raise (ConnectionNotFound connection_id)
  | [rec] => Ok (connection_string rec)
  | _ :: _ :: _ => Raise MultipleResultsFound
  end.

(** [d[k] = v]. *)
Fixpoint dict_set (k : str) (v : db_value) (d : row_dict) : row_dict :=
  match d with
  | [] => [(k, v)]
  | (k', v') :: t =>
      if str_eqb k k' then (k, v) :: t else (k', v') :: dict_set k v t
  end.

(** [{k: row[i] for i, k in enumerate(columns)}]. *)
Definition make_row (columns : list str) (row : list db_value) : row_dict :=
  fold_left (fun d kv => dict_set (fst kv) (snd kv) d) (combine columns row) [].

(** The loop [for row in result], on the state [(rows, count)]. *)
Fixpoint fetch_rows (columns : list str) (max_rows : Z)
         (fetched : list (list db_value)) (broken : option exn)
         (rows : list row_dict) (count : Z) : result (list row_dict) :=
  match fetched with
  | [] =>
      match broken with
      | Some e => Raise e
      | None => Ok rows
      end
  | row :: rest =>
      let rows := rows ++ [make_row columns row] in
      let count := (count + 1)%Z in
      if (count >=? max_rows)%Z then Ok rows
      else fetch_rows columns max_rows rest broken rows count
  end.

Definition execute_sql (w : World) (sql : str) (connection_id : Z)
           (timeout_seconds : Z) (max_rows : Z)
  : result QueryExecutionResponse :=
  conn_str <- _get_connection_string w connection_id ;;
  let attempt : result (list row_dict * list str) :=
    match run w conn_str sql with
    | Raises e => Raise e
    | Executed returns_rows keys fetched broken =>
        let columns := if returns_rows then keys else [] in
        if returns_rows
        then rows <- fetch_rows columns max_rows fetched broken [] 0 ;;
             Ok (rows, columns)
        else Ok ([], columns)
    end in
  match attempt with
  | Raise (SQLAlchemyError msg) =>
      Ok {| success := false;
            rows := [];
            columns := [];
            row_count := 0;
            execution_time_ms := elapsed_ms (start w) (stop w);
            sql_executed := sql;
            warnings := [];
            error := Some msg |}
  | Raise e => Raise e
  | Ok (rows, columns) =>
      Ok {| success := true;
            rows := rows;
            columns := columns;
            row_count := Z.of_nat (length rows);
            execution_time_ms := elapsed_ms (start w) (stop w);
            sql_executed := sql;
            warnings := [];
            error := None |}
  end.

(** ** The specification's wording *)

(** A database-engine error during the call: the engine raises before any
    row is produced, or the cursor breaks while rows are being read, before
    the cap has ended the loop. *)
Inductive engine_error (max_rows : Z) (msg : str) : engine_run -> Prop :=
| error_before_rows :
    engine_error max_rows msg (Raises (SQLAlchemyError msg))
| error_while_fetching (keys : list str) (fetched : list (list db_value)) :
    (Z.of_nat (length fetched) < max_rows)%Z \/ fetched = [] ->
    engine_error max_rows msg
                 (Executed true keys fetched (Some (SQLAlchemyError msg))).

(** ** Sample worlds *)

Definition sample_connections : list DbConnection :=
  [ {| id := 1; connection_string := txt "postgresql://db/shop" |} ].

(** A target database whose cursor yields three rows and then breaks. *)
Definition breaking_world : World :=
  {| connections := sample_connections;
     run := fun _ _ =>
       Executed true [txt "id"]
                [[VInt 1]; [VInt 2]; [VInt 3]]
                (Some (SQLAlchemyError (txt "server closed the connection")));
     start := 10%float;
     stop := 12.5%float |}.

(** A target database that answers with three rows. *)
Definition three_row_world : World :=
  {| connections := sample_connections;
     run := fun _ _ =>
       Executed true [txt "id"] [[VInt 1]; [VInt 2]; [VInt 3]] None;
     start := 10%float;
     stop := 12.5%float |}.

(** A target database that needs a thousand seconds for its one row. *)
Definition slow_world : World :=
  {| connections := sample_connections;
     run := fun _ _ => Executed true [txt "pg_sleep"] [[VNull]] None;
     start := 0%float;
     stop := 1000%float |}.

End Executor.

(* ------------------------------------------------------------------ *)
(** * JSON values, as [json.loads] returns them *)
(* ------------------------------------------------------------------ *)

Module Json.

(** [None], [bool], [int], [str], [list] and [dict] with string keys.  A
    dictionary is the list of its items in insertion order; [JNum] stands
    for the numbers, which the code under study never inspects. *)
#[warnings="-register-all"] Inductive json : Set :=
| JNull
| JBool (b : bool)
| JNum (n : Z)
| JStr (s : str)
| JArr (items : list json)
| JObj (fields : list (str * json)).

Fixpoint lookup (k : str) (fields : list (str * json)) : option json :=
  match fields with
  | [] => None
  | (k', v) :: t => if str_eqb k k' then Some v else lookup k t
  end.

(** [j.get(k, default)]: only a dictionary has the method. *)
Definition get (j : json) (k : str) (default : json) : result json :=
  match j with
  | JObj fields =>
      Ok (match lookup k fields with Some v => v | None => default end)
  | _ => Raise AttributeError
  end.

(** [for x in j]: the elements of a list, the keys of a dictionary, the
    characters of a text; nothing else can be iterated. *)
Definition iter (j : json) : result (list json) :=
  match j with
  | JArr items => Ok items
  | JObj fields => Ok (map (fun kv => JStr (fst kv)) fields)
  | JStr s => Ok (map (fun c => JStr [c]) s)
  | _ => Raise TypeError
  end.

(** [isinstance(j, dict)]. *)
Definition is_dict (j : json) : bool :=
  match j with
  | JObj _ => true
  | _ => false
  end.

Definition hashable (j : json) : bool :=
  match j with
  | JArr _ | JObj _ => false
  | _ => true
  end.

(** [a == b] on hashable values; [True == 1] and [False == 0]. *)
Definition py_eqb (a b : json) : bool :=
  match a, b with
  | JNull, JNull => true
  | JStr x, JStr y => str_eqb x y
  | JBool x, JBool y => Bool.eqb x y
  | JNum x, JNum y => Z.eqb x y
  | JBool x, JNum y | JNum y, JBool x => Z.eqb (if x then 1 else 0) y
  | _, _ => false
  end.

(** [set(l)], kept as the list of its members: building it raises on an
    unhashable member. *)
Definition to_set (l : list json) : result (list json) :=
  if forallb hashable l then Ok l else Raise TypeError.

Definition member (x : json) (s : list json) : bool := existsb (py_eqb x) s.

(** [a == b] on sets. *)
Definition set_eqb (a b : list json) : bool :=
  forallb (fun x => member x b) a && forallb (fun y => member y a) b.

(** Truth value of [j], as [j or default] tests it. *)
Definition truthy (j : json) : bool :=
  match j with
  | JNull => false
  | JBool b => b
  | JNum n => negb (Z.eqb n 0)
  | JStr s => match s with [] => false | _ => true end
  | JArr l => match l with [] => false | _ => true end
  | JObj f => match f with [] => false | _ => true end
  end.

End Json.

(* ------------------------------------------------------------------ *)
(** * services/sql/schema_discovery.py *)
(* ------------------------------------------------------------------ *)

Module SchemaDiscovery.

Import Json.
Local Open Scope py_scope.

(** ** What [_introspect_schema] returns *)

Record Column : Set := {
  col_name : str;
  col_type : str;
  nullable : bool;
  primary_key : bool;
  unique : bool
}.

Record Table : Set := {
  tbl_schema : str;
  tbl_name : str;
  tbl_columns : list Column
}.

Record RawSchema : Set := {
  database : str;
  tables : list Table
}.

Definition column_json (c : Column) : json :=
  JObj [ (txt "name", JStr (col_name c));
         (txt "type", JStr (col_type c));
         (txt "nullable", JBool (nullable c));
         (txt "primary_key", JBool (primary_key c));
         (txt "unique", JBool (unique c)) ].

Definition table_json (t : Table) : json :=
  JObj [ (txt "schema", JStr (tbl_schema t));
         (txt "name", JStr (tbl_name t));
         (txt "columns", JArr (map column_json (tbl_columns t))) ].

(** The dictionary [{"database": database_name, "tables": tables}]. *)
Definition raw_json (r : RawSchema) : json :=
  JObj [ (txt "database", JStr (database r));
         (txt "tables", JArr (map table_json (tables r))) ].

(** ** [_normalize_with_ai] *)

(** [[t.get("name") for t in d.get("tables", []) if isinstance(t, dict)]]. *)
Definition names_of (d : json) : result (list json) :=
  ts <- get d (txt "tables") (JArr []) ;;
  items <- iter ts ;;
  mapM (fun t => get t (txt "name") JNull) (filter is_dict items).

(** The rebuilt copy of the raw structure. *)
Definition rebuild_column (c : json) : result json :=
  n <- get c (txt "name") JNull ;;
  ty <- get c (txt "type") JNull ;;
  nu <- get c (txt "nullable") (JBool true) ;;
  pk <- get c (txt "primary_key") (JBool false) ;;
  un <- get c (txt "unique") (JBool false) ;;
  Ok (JObj [ (txt "name", n); (txt "type", ty); (txt "nullable", nu);
             (txt "primary_key", pk); (txt "unique", un) ]).

Definition rebuild_table (t : json) : result json :=
  sc <- get t (txt "schema") JNull ;;
  n <- get t (txt "name") JNull ;;
  cl <- get t (txt "columns") (JArr []) ;;
  cs <- iter cl ;;
  cols <- mapM rebuild_column cs ;;
  Ok (JObj [ (txt "schema", sc); (txt "name", n); (txt "columns", JArr cols) ]).

Definition rebuild (raw_schema : json) : result json :=
  db <- get raw_schema (txt "database") (JStr (txt "unknown")) ;;
  ts <- get raw_schema (txt "tables") (JArr []) ;;
  items <- iter ts ;;
  tbls <- mapM rebuild_table (filter is_dict items) ;;
  Ok (JObj [ (txt "database", db); (txt "tables", JArr tbls) ]).

(** [loaded] is the outcome of [json.loads(content)] on the model's reply:
    the parsed value, or [None] when parsing raised. *)
Definition _normalize_with_ai (raw_schema : json) (loaded : option json)
  : result json :=
  normalized <-
    match loaded with
    | Some j => Ok j
    | None =>
        db <- get raw_schema (txt "database") (JStr (txt "unknown")) ;;
        ts <- get raw_schema (txt "tables") (JArr []) ;;
        Ok (JObj [ (txt "database", db); (txt "tables", ts) ])
    end ;;
  raw_tables <- names_of raw_schema ;;
  norm_tables <- names_of normalized ;;
  differ <-
    match norm_tables with
    | [] => Ok true
    | _ :: _ =>
        a <- to_set norm_tables ;;
        b <- to_set raw_tables ;;
        Ok (negb (set_eqb a b))
    end ;;
  if differ : bool then rebuild raw_schema else Ok normalized.

(** ** [discover_and_save] *)

(** A row of [schema_snapshots]; the two timestamps are left out. *)
Record SchemaSnapshot : Set := {
  id : Z;
  connection_id : Z;
  name : json;
  schema_json : json
}.

Definition store : Set := list SchemaSnapshot.

(** [Query.one_or_none()]. *)
Definition one_or_none {A : Type} (l : list A) : result (option A) :=
  match l with
  | [] => Ok None
  | [x] => Ok (Some x)
  | _ :: _ :: _ => Raise MultipleResultsFound
  end.

(** The key the database gives a new row. *)
Definition next_id (st : store) : Z :=
  (fold_right Z.max 0 (map id st) + 1)%Z.

Definition for_connection (connection_id : Z) (st : store) : store :=
  filter (fun s => Z.eqb (SchemaDiscovery.connection_id s) connection_id) st.

(** [snapshot.schema_json = normalized] on the row [snapshot] of the table. *)
Definition set_schema_json (snapshot : SchemaSnapshot) (normalized : json)
           (st : store) : store :=
  map (fun s =>
         if Z.eqb (id s) (id snapshot)
         then {| id := id s; connection_id := connection_id s;
                 name := name s; schema_json := normalized |}
         else s) st.

(** One call.  [introspected] is the outcome of [_introspect_schema] on the
    target database, [loaded] the parsed reply of the model, [commit] the
    exception [session.commit()] raises, if any; the session starts from
    the table [st] and the call leaves the table it returns. *)
Definition discover_and_save (st : store) (connection_id : Z)
           (introspected : result RawSchema) (loaded : option json)
           (commit : option exn) : result json * store :=
  let work : result (json * store) :=
    raw <- introspected ;;
    normalized <- _normalize_with_ai (raw_json raw) loaded ;;
    snapshot <- one_or_none (for_connection connection_id st) ;;
    pending <-
      match snapshot with
      | None =>
          db <- get normalized (txt "database") JNull ;;
          let snapshot :=
            {| id := next_id st;
               connection_id := connection_id;
               name := if truthy db then db else JStr [];
               schema_json := normalized |} in
          Ok (st ++ [snapshot])
      | Some snapshot => Ok (set_schema_json snapshot normalized st)
      end ;;
    match commit with
    | Some e => Raise e
    | None => Ok (normalized, pending)
    end in
  match work with
  | Ok (normalized, st') => (Ok normalized, st')
  | Raise e => (Raise e, st)
  end.

(** A call, as its inputs. *)
Record Call : Set := {
  call_connection_id : Z;
  call_introspected : result RawSchema;
  call_loaded : option json;
  call_commit : option exn
}.

Definition step (st : store) (c : Call) : store :=
  snd (discover_and_save st (call_connection_id c) (call_introspected c)
                         (call_loaded c) (call_commit c)).

(** The table after a sequence of calls. *)
Definition after_calls (st : store) (calls : list Call) : store :=
  fold_left step calls st.

(** ** The specification's wording *)

(** [tableNames(S)]: the names of the tables of a snapshot. *)
Definition tableNames (s : json) : list json :=
  match names_of s with
  | Ok l => l
  | Raise _ => []
  end.

(** [columnNames(S[t])]: the names of the columns of the tables named [t]. *)
Definition columns_of (t : json) : list json :=
  match (cl <- get t (txt "columns") (JArr []) ;; cs <- iter cl ;;
         mapM (fun c => get c (txt "name") JNull) (filter is_dict cs)) with
  | Ok l => l
  | Raise _ => []
  end.

Definition tables_named (s : json) (t : str) : list json :=
  match (ts <- get s (txt "tables") (JArr []) ;; iter ts) with
  | Ok items =>
      filter (fun x => match get x (txt "name") JNull with
                       | Ok n => py_eqb n (JStr t)
                       | Raise _ => false
                       end) items
  | Raise _ => []
  end.

Definition columnNames (s : json) (t : str) : list json :=
  flat_map columns_of (tables_named s t).

(** Two lists with the same members. *)
Definition same_set (a b : list json) : Prop :=
  forall x, In x a <-> In x b.

(** A store with at most one snapshot for each connection. *)
Definition at_most_one (st : store) : Prop :=
  forall connection_id, length (for_connection connection_id st) <= 1.

(** ** Sample data *)

(** The schema [orders(id integer, total numeric(10,2))]. *)
Definition orders_raw : RawSchema :=
  {| database := txt "shop";
     tables :=
       [ {| tbl_schema := txt "public";
            tbl_name := txt "orders";
            tbl_columns :=
              [ {| col_name := txt "id"; col_type := txt "integer";
                   nullable := false; primary_key := true; unique := false |};
                {| col_name := txt "total"; col_type := txt "numeric(10,2)";
                   nullable := true; primary_key := false; unique := false |} ] |} ] |}.

(** A reply that keeps the table and adds a column the database does not
    have. *)
Definition invented_column_reply : json :=
  JObj [ (txt "database", JStr (txt "shop"));
         (txt "tables",
          JArr [ JObj [ (txt "schema", JStr (txt "public"));
                        (txt "name", JStr (txt "orders"));
                        (txt "columns",
                         JArr [ JObj [ (txt "name", JStr (txt "id"));
                                       (txt "type", JStr (txt "integer")) ];
                                JObj [ (txt "name", JStr (txt "total"));
                                       (txt "type", JStr (txt "numeric(10,2)")) ];
                                JObj [ (txt "name", JStr (txt "customer_email"));
                                       (txt "type", JStr (txt "text")) ] ]) ] ]) ].

(** A first discovery for connection 1, and its repetition. *)
Definition first_discovery : Call :=
  {| call_connection_id := 1;
     call_introspected := Ok orders_raw;
     call_loaded := None;
     call_commit := None |}.

(** A later discovery for connection 1, to which the model replies with
    another schema of the same tables. *)
Definition second_discovery : Call :=
  {| call_connection_id := 1;
     call_introspected := Ok orders_raw;
     call_loaded := Some invented_column_reply;
     call_commit := None |}.

End SchemaDiscovery.

(* ------------------------------------------------------------------ *)
(** * api/routes/query.py *)
(* ------------------------------------------------------------------ *)

Module QueryRoutes.

Local Open Scope py_scope.

Record QueryRequest : Set := {
  prompt : str;
  connection_id : Z;
  provider : option str;
  model : option str;
  temperature : Q;
  max_tokens : option Z;
  include_schema : bool
}.

(** [sep.join(l)]. *)
Fixpoint join (sep : str) (l : list str) : str :=
  match l with
  | [] => []
  | [x] => x
  | x :: t => x ++ sep ++ join sep t
  end.

Section Generate.

(** The injected generation service ([sql_service.generate_sql]) and the
    text [str(e)] of an exception. *)
Variable sql_service : QueryRequest -> result SqlChain.QueryResponse.
Variable exception_text : exn -> str.

(** The handler of [POST /generate]: the response body, or the
    [HTTPException] that leaves the handler.  Scheduling the background log
    task does not touch the response and is left out. *)
Definition generate_sql (request : QueryRequest) : result SqlChain.QueryResponse :=
  let attempt : result SqlChain.QueryResponse :=
    result <- sql_service request ;;
    let validation_result :=
      Guardrails.validate_sql (SqlChain.sql result) (connection_id request) in
    if negb (Guardrails.is_safe validation_result)
    then
      let result :=
        {| SqlChain.sql := SqlChain.sql result;
           SqlChain.explanation := SqlChain.explanation result;
           SqlChain.warnings :=
             SqlChain.warnings result ++ Guardrails.warnings validation_result;
           SqlChain.confidence := SqlChain.confidence result;
           SqlChain.execution_time_ms := SqlChain.execution_time_ms result |} in
      if Guardrails.block_execution validation_result
      then Raise (HTTPException 400
                    (txt "SQL blocked by guardrails: "
                     ++ join (txt "; ") (Guardrails.warnings validation_result)))
      else Ok result
    else Ok result in
  match attempt with
  | Ok result => Ok result
  | Raise e =>
      Raise (HTTPException 500 (txt "Failed to generate SQL: " ++ exception_text e))
  end.

End Generate.

(** The service of the repository: [SQLGenerationService.generate_sql].
    [reply] is what the steps before the sanitizer give for a request: the
    exception that leaves the snapshot lookup, [get_openai_client] or the
    completion call, or else the content of the completion; [start] and
    [stop] are the two readings of the clock. *)
Definition repository_service (reply : QueryRequest -> result (option str))
           (start stop : float)
  : QueryRequest -> result SqlChain.QueryResponse :=
  fun request =>
    content <- reply request ;;
    Ok (SqlChain.generate_sql content start stop).

(** The status classes of the specification. *)
Definition is_client_error (status : Z) : bool := (400 <=? status)%Z && (status <? 500)%Z.
Definition is_server_error (status : Z) : bool := (500 <=? status)%Z && (status <? 600)%Z.

(** ** Sample data *)

(** A generation service that hands back two stacked statements. *)
Definition stacking_service (request : QueryRequest) : result SqlChain.QueryResponse :=
  Ok {| SqlChain.sql := txt "SELECT 1; DROP TABLE users;";
        SqlChain.explanation := None;
        SqlChain.warnings := [];
        SqlChain.confidence := (6 # 10)%Q;
        SqlChain.execution_time_ms := Some 12%Z |}.

Definition sample_request : QueryRequest :=
  {| prompt := txt "remove all users";
     connection_id := 1;
     provider := None;
     model := None;
     temperature := (1 # 10)%Q;
     max_tokens := None;
     include_schema := true |}.

End QueryRoutes.

(* ------------------------------------------------------------------ *)
(** * Further definitions *)
(* ------------------------------------------------------------------ *)

(** The backtick. *)
Definition is_tick (c : ascii) : bool := Ascii.eqb c "`".

(** A character of the ASCII range. *)
Definition is_ascii (c : ascii) : bool := code c <? 128.

(* ------------------------------------------------------------------ *)
(** * schemas/common.py and core/config.py, as far as the handlers read them *)
(* ------------------------------------------------------------------ *)

Module Common.

Record QueryExecutionRequest : Set := {
  sql : str;
  connection_id : Z;
  require_approval : bool;
  timeout_seconds : option Z
}.

Record Settings : Set := {
  max_execution_time_seconds : Z;
  max_rows_returned : Z;
  require_sql_approval : bool;
  read_only_mode : bool
}.

(** [x or y] on an optional integer: [None] and [0] give way to [y]. *)
Definition int_or (x : option Z) (y : Z) : Z :=
  match x with
  | Some n => if Z.eqb n 0 then y else n
  | None => y
  end.

(** [x or y] on texts: the empty text gives way to [y]. *)
Definition str_or (x y : str) : str :=
  match x with
  | [] => y
  | _ :: _ => x
  end.

End Common.

(* ------------------------------------------------------------------ *)
(** * db/models/query_history.py and the logging half of executor.py *)
(* ------------------------------------------------------------------ *)

Module History.

(** A row of [query_history]; the three timestamps are left out. *)
Record QueryHistory : Set := {
  id : Z;
  connection_id : Z;
  prompt : option str;
  sql : str;
  row_count : Z;
  execution_time_ms : Z;
  success : bool;
  error : option str;
  pinned : bool
}.

Definition table : Set := list QueryHistory.

(** The key the database gives a new row. *)
Definition next_id (t : table) : Z :=
  (fold_right Z.max 0 (map id t) + 1)%Z.

(** [SQLExecutorService.log_query_execution].  [commit] is the exception
    that [db.add] or [db.commit] raises, if any: the handler rolls back and
    the call still returns [None].  The result is the table after the call. *)
Definition log_query_execution (t : table)
           (request : Common.QueryExecutionRequest)
           (result : Executor.QueryExecutionResponse)
           (commit : option exn) : table :=
  let rec :=
    {| id := next_id t;
       connection_id := Common.connection_id request;
       prompt := None;
       sql := Common.str_or (Executor.sql_executed result) (Common.sql request);
       row_count := Executor.row_count result;
       execution_time_ms := Executor.execution_time_ms result;
       success := Executor.success result;
       error := Executor.error result;
       pinned := false |} in
  match commit with
  | Some _ => t
  | None => t ++ [rec]
  end.

(** [db.query(QueryHistory).filter(QueryHistory.id == history_id).one_or_none()]. *)
Definition by_id (history_id : Z) (t : table) : result (option QueryHistory) :=
  SchemaDiscovery.one_or_none (filter (fun r => Z.eqb (id r) history_id) t).

Definition not_found : exn := HTTPException 404 (txt "History not found").

(** [rerun_query]: the response (or the exception that leaves the handler)
    and the table after the call.  [commit] belongs to the logging call. *)
Definition rerun_query (t : table) (w : Executor.World) (history_id : Z)
           (commit : option exn)
  : result Executor.QueryExecutionResponse * table :=
  match by_id history_id t with
  | Raise e => (Raise e, t)
  | Ok None => (Raise not_found, t)
  | Ok (Some rec) =>
      match Executor.execute_sql w (sql rec) (connection_id rec) 30 1000 with
      | Raise e => (Raise e, t)
      | Ok result =>
          (Ok result,
           log_query_execution t
             {| Common.sql := sql rec;
                Common.connection_id := connection_id rec;
                Common.require_approval := false;
                Common.timeout_seconds := None |}
             result commit)
      end
  end.

(** [pin_history]: the value of [pinned] it reports, and the table. *)
Definition pin_history (t : table) (history_id : Z) (pinned_arg : bool)
           (commit : option exn) : result bool * table :=
  match by_id history_id t with
  | Raise e => (Raise e, t)
  | Ok None => (Raise not_found, t)
  | Ok (Some rec) =>
      match commit with
      | Some e => (Raise e, t)
      | None =>
          (Ok pinned_arg,
           map (fun r =>
                  if Z.eqb (id r) (id rec)
                  then {| id := id r; connection_id := connection_id r;
                          prompt := prompt r; sql := sql r;
                          row_count := row_count r;
                          execution_time_ms := execution_time_ms r;
                          success := success r; error := error r;
                          pinned := pinned_arg |}
                  else r) t)
      end
  end.

(** [delete_history_item]. *)
Definition delete_history_item (t : table) (history_id : Z)
           (commit : option exn) : result bool * table :=
  match by_id history_id t with
  | Raise e => (Raise e, t)
  | Ok None => (Raise not_found, t)
  | Ok (Some rec) =>
      match commit with
      | Some e => (Raise e, t)
      | None => (Ok true, filter (fun r => negb (Z.eqb (id r) (id rec))) t)
      end
  end.

(** The record a rerun writes for the run it has made. *)
Definition rerun_record (t : table) (rec : QueryHistory)
           (result : Executor.QueryExecutionResponse) : QueryHistory :=
  {| id := next_id t;
     connection_id := connection_id rec;
     prompt := None;
     sql := sql rec;
     row_count := Executor.row_count result;
     execution_time_ms := Executor.execution_time_ms result;
     success := Executor.success result;
     error := Executor.error result;
     pinned := false |}.

(** The primary key at work: no two rows share an id. *)
Definition ids_distinct (t : table) : Prop := NoDup (map id t).

(** ** Sample data *)

Definition stored_drop : QueryHistory :=
  {| id := 4; connection_id := 1; prompt := None;
     sql := txt "DROP TABLE users";
     row_count := 0; execution_time_ms := 3; success := true;
     error := None; pinned := false |}.

End History.

(* ------------------------------------------------------------------ *)
(** * api/routes/query.py: the execute and generate-and-execute handlers *)
(* ------------------------------------------------------------------ *)

Module ExecuteRoutes.

Local Open Scope py_scope.

Section Handlers.

Variable settings : Common.Settings.
Variable exception_text : exn -> str.

(** The guard of [POST /execute]: consulted only when approval is asked
    for, by the request or by the settings. *)
Definition approval_guard (request : Common.QueryExecutionRequest) : result unit :=
  if Common.require_approval request || Common.require_sql_approval settings
  then
    let validation_result :=
      Guardrails.validate_sql (Common.sql request) (Common.connection_id request) in
    if negb (Guardrails.is_safe validation_result)
    then Raise (HTTPException 400
                  (txt "SQL execution blocked: "
                   ++ QueryRoutes.join (txt "; ")
                        (Guardrails.warnings validation_result)))
    else Ok tt
  else Ok tt.

(** The handler of [POST /execute].  Scheduling the background log task
    does not touch the response and is left out. *)
Definition execute_sql (w : Executor.World) (request : Common.QueryExecutionRequest)
  : result Executor.QueryExecutionResponse :=
  let attempt : result Executor.QueryExecutionResponse :=
    _ <- approval_guard request ;;
    Executor.execute_sql w (Common.sql request) (Common.connection_id request)
      (Common.int_or (Common.timeout_seconds request)
                     (Common.max_execution_time_seconds settings))
      (Common.max_rows_returned settings) in
  match attempt with
  | Ok result => Ok result
  | Raise e =>
      Raise (HTTPException 500 (txt "Failed to execute SQL: " ++ exception_text e))
  end.

Variable sql_service : QueryRoutes.QueryRequest -> result SqlChain.QueryResponse.

(** The handler of [POST /generate-and-execute]; the two background log
    tasks are left out. *)
Definition generate_and_execute (w : Executor.World) (request : QueryRoutes.QueryRequest)
  : result Executor.QueryExecutionResponse :=
  let attempt : result Executor.QueryExecutionResponse :=
    sql_result <- sql_service request ;;
    let validation_result :=
      Guardrails.validate_sql (SqlChain.sql sql_result)
                              (QueryRoutes.connection_id request) in
    sql_result <-
      (if negb (Guardrails.is_safe validation_result)
       then
         let sql_result :=
           {| SqlChain.sql := SqlChain.sql sql_result;
              SqlChain.explanation := SqlChain.explanation sql_result;
              SqlChain.warnings :=
                SqlChain.warnings sql_result ++ Guardrails.warnings validation_result;
              SqlChain.confidence := SqlChain.confidence sql_result;
              SqlChain.execution_time_ms := SqlChain.execution_time_ms sql_result |} in
         if Guardrails.block_execution validation_result
         then Raise (HTTPException 400
                       (txt "Generated SQL blocked by guardrails: "
                        ++ QueryRoutes.join (txt "; ")
                             (Guardrails.warnings validation_result)))
         else Ok sql_result
       else Ok sql_result) ;;
    execution_result <-
      Executor.execute_sql w (SqlChain.sql sql_result)
        (QueryRoutes.connection_id request)
        (Common.max_execution_time_seconds settings)
        (Common.max_rows_returned settings) ;;
    Ok {| Executor.success := Executor.success execution_result;
          Executor.rows := Executor.rows execution_result;
          Executor.columns := Executor.columns execution_result;
          Executor.row_count := Executor.row_count execution_result;
          Executor.execution_time_ms := Executor.execution_time_ms execution_result;
          Executor.sql_executed := SqlChain.sql sql_result;
          Executor.warnings :=
            Executor.warnings execution_result ++ SqlChain.warnings sql_result;
          Executor.error := Executor.error execution_result |} in
  match attempt with
  | Ok result => Ok result
  | Raise e =>
      Raise (HTTPException 500
               (txt "Failed to generate and execute SQL: " ++ exception_text e))
  end.

End Handlers.

(** ** Sample data *)

Definition default_settings : Common.Settings :=
  {| Common.max_execution_time_seconds := 300;
     Common.max_rows_returned := 10000;
     Common.require_sql_approval := false;
     Common.read_only_mode := true |}.

Definition drop_request (approval : bool) : Common.QueryExecutionRequest :=
  {| Common.sql := txt "DROP TABLE users";
     Common.connection_id := 1;
     Common.require_approval := approval;
     Common.timeout_seconds := None |}.

(** A target database that fails on everything with a driver error that is
    not an [SQLAlchemyError]. *)
Definition driverless_world : Executor.World :=
  {| Executor.connections := Executor.sample_connections;
     Executor.run := fun _ _ => Executor.Raises (OtherException (txt "No module named psycopg2"));
     Executor.start := 0%float;
     Executor.stop := 1%float |}.

(** A target database that answers one row; the clock reads 0.0 before and
    0.009 after, the float nearest to nine thousandths. *)
Definition nine_ms_world : Executor.World :=
  {| Executor.connections := Executor.sample_connections;
     Executor.run := fun _ _ =>
       Executor.Executed true [txt "id"] [[Executor.VInt 1]] None;
     Executor.start := 0%float;
     Executor.stop := 0x1.26e978d4fdf3bp-7%float |}.

End ExecuteRoutes.

(* ------------------------------------------------------------------ *)
(** * services/sql/schema_discovery.py: introspection *)
(* ------------------------------------------------------------------ *)

Module Introspection.

Import SchemaDiscovery.
Local Open Scope py_scope.

(** A row of the column query: [column_name, data_type, udt_name,
    character_maximum_length, numeric_precision, numeric_scale,
    is_nullable]. *)
Record ColumnRow : Set := {
  column_name : str;
  data_type : str;
  udt_name : str;
  character_maximum_length : option Z;
  numeric_precision : option Z;
  numeric_scale : option Z;
  is_nullable : str
}.

(** [x in (a, b, ...)] on texts. *)
Definition in_list (x : str) (l : list str) : bool := existsb (str_eqb x) l.

(** [f"{int(n)}"]. *)
Definition str_of_int (n : Z) : str := txt (NilZero.string_of_int (Z.to_int n)).

(** Truth value of an optional integer. *)
Definition truthy_int (x : option Z) : bool :=
  match x with
  | Some n => negb (Z.eqb n 0)
  | None => false
  end.

Definition int_value (x : option Z) : Z :=
  match x with
  | Some n => n
  | None => 0%Z
  end.

Definition _compose_type (row : ColumnRow) : str :=
  let data_type := data_type row in
  let udt_name := udt_name row in
  let char_len := character_maximum_length row in
  let num_prec := numeric_precision row in
  let num_scale := numeric_scale row in
  if in_list udt_name [txt "varchar"; txt "bpchar"] then
    if truthy_int char_len
    then txt "varchar(" ++ str_of_int (int_value char_len) ++ txt ")"
    else txt "varchar"
  else if in_list udt_name [txt "int4"; txt "int2"; txt "int8"] then
    if str_eqb udt_name (txt "int2") then txt "smallint"
    else if str_eqb udt_name (txt "int4") then txt "integer"
    else txt "bigint"
  else if in_list udt_name [txt "numeric"] then
    if truthy_int num_prec && match num_scale with Some _ => true | None => false end
    then txt "numeric(" ++ str_of_int (int_value num_prec) ++ txt ","
         ++ str_of_int (int_value num_scale) ++ txt ")"
    else if truthy_int num_prec
    then txt "numeric(" ++ str_of_int (int_value num_prec) ++ txt ")"
    else txt "numeric"
  else if in_list udt_name [txt "timestamp"; txt "timestamptz"] then
    if str_eqb udt_name (txt "timestamp") then txt "timestamp" else txt "timestamptz"
  else if in_list udt_name [txt "json"; txt "jsonb"] then udt_name
  else if str_eqb udt_name (txt "bool") then txt "boolean"
  else if str_eqb udt_name (txt "text") then txt "text"
  else data_type.

(** What the target database answers to the catalog queries.  [connect] is
    the exception out of [create_engine] or [engine.connect()], if any; the
    other fields are the outcomes of the queries, the last three for the
    table given by schema and name. *)
Record Catalog : Type := {
  connect : option exn;
  dialect : str;
  current_database : result (option str);
  base_tables : result (list (str * str));
  table_columns : str -> str -> result (list ColumnRow);
  primary_key_columns : str -> str -> result (list str);
  unique_columns : str -> str -> result (list str)
}.

Definition column_of (pk_cols uq_cols : list str) (r : ColumnRow) : Column :=
  {| col_name := column_name r;
     col_type := _compose_type r;
     nullable := str_eqb (lower (is_nullable r)) (txt "yes");
     primary_key := in_list (column_name r) pk_cols;
     unique := in_list (column_name r) uq_cols |}.

Definition table_of (c : Catalog) (row : str * str) : result Table :=
  let '(schema, table) := row in
  cols <- table_columns c schema table ;;
  pk_cols <- primary_key_columns c schema table ;;
  uq_cols <- unique_columns c schema table ;;
  Ok {| tbl_schema := schema;
        tbl_name := table;
        tbl_columns := map (column_of pk_cols uq_cols) cols |}.

Definition _introspect_schema (c : Catalog) : result RawSchema :=
  match connect c with
  | Some e => Raise e
  | None =>
      if in_list (dialect c) [txt "postgresql"; txt "postgres"]
      then
        let database_name :=
          match current_database c with
          | Ok (Some n) => Common.str_or n (txt "unknown")
          | Ok None => txt "unknown"
          | Raise _ => txt "unknown"
          end in
        rows <- base_tables c ;;
        tables <- mapM (table_of c) rows ;;
        Ok {| database := database_name; tables := tables |}
      else Ok {| database := txt "unknown"; tables := [] |}
  end.

(** The schema a target other than PostgreSQL is given. *)
Definition empty_schema : RawSchema :=
  {| database := txt "unknown"; tables := [] |}.

(** ** Sample data *)

Definition sqlite_catalog : Catalog :=
  {| connect := None;
     dialect := txt "sqlite";
     current_database := Ok None;
     base_tables := Ok [];
     table_columns := fun _ _ => Ok [];
     primary_key_columns := fun _ _ => Ok [];
     unique_columns := fun _ _ => Ok [] |}.

Definition total_row : ColumnRow :=
  {| column_name := txt "total";
     data_type := txt "numeric";
     udt_name := txt "numeric";
     character_maximum_length := None;
     numeric_precision := Some 10%Z;
     numeric_scale := Some 2%Z;
     is_nullable := txt "YES" |}.

Definition id_row : ColumnRow :=
  {| column_name := txt "id";
     data_type := txt "integer";
     udt_name := txt "int4";
     character_maximum_length := None;
     numeric_precision := Some 32%Z;
     numeric_scale := Some 0%Z;
     is_nullable := txt "NO" |}.

(** A PostgreSQL database [shop] with the table [public.orders]. *)
Definition shop_catalog : Catalog :=
  {| connect := None;
     dialect := txt "postgresql";
     current_database := Ok (Some (txt "shop"));
     base_tables := Ok [(txt "public", txt "orders")];
     table_columns := fun _ _ => Ok [id_row; total_row];
     primary_key_columns := fun _ _ => Ok [txt "id"];
     unique_columns := fun _ _ => Ok [] |}.

End Introspection.

(* ------------------------------------------------------------------ *)
(** * api/routes/schema.py *)
(* ------------------------------------------------------------------ *)

Module SchemaRoutes.

Import Json.
Import SchemaDiscovery.
Local Open Scope py_scope.

Record DiscoverRequest : Set := {
  connection_string : option str
}.

Definition no_connection_string : exn :=
  HTTPException 400
    (txt "Connection string not provided and not found for this connection id").

Definition _resolve_connection_string (connection_id : Z) (payload : DiscoverRequest)
           (db : list Executor.DbConnection) : result str :=
  match connection_string payload with
  | Some (c :: s) => Ok (c :: s)
  | _ =>
      rec <- one_or_none
               (filter (fun r => Z.eqb (Executor.id r) connection_id) db) ;;
      match rec with
      | Some r =>
          match Executor.connection_string r with
          | [] => Raise no_connection_string
          | c :: s => Ok (c :: s)
          end
      | None => Raise no_connection_string
      end
  end.

Definition no_snapshot : exn :=
  HTTPException 404 (txt "No schema snapshot. Please run discovery.").

(** [get_schema]. *)
Definition get_schema (st : store) (connection_id : Z) : result json :=
  snapshot <- one_or_none (for_connection connection_id st) ;;
  match snapshot with
  | None => Raise no_snapshot
  | Some s => Ok (schema_json s)
  end.

(** [snapshot.schema_json or {}]. *)
Definition schema_or_empty (s : SchemaSnapshot) : json :=
  if truthy (schema_json s) then schema_json s else JObj [].

(** [get_tables]. *)
Definition get_tables (st : store) (connection_id : Z) : result json :=
  snapshot <- one_or_none (for_connection connection_id st) ;;
  match snapshot with
  | None => Ok (JObj [(txt "tables", JArr [])])
  | Some s =>
      tables <- names_of (schema_or_empty s) ;;
      Ok (JObj [(txt "tables", JArr tables)])
  end.

(** The tables of a stored schema: the items of [schema.get("tables", [])]. *)
Definition stored_tables (schema : json) : list json :=
  match (ts <- get schema (txt "tables") (JArr []) ;; iter ts) with
  | Ok items => items
  | Raise _ => []
  end.

(** The answer of [get_table_schema] for a table it does not find. *)
Definition no_table (table_name : str) : json :=
  JObj [(txt "name", JStr table_name); (txt "columns", JArr [])].

(** The loop [for t in schema.get("tables", [])] of [get_table_schema]. *)
Fixpoint first_named (table_name : str) (items : list json) : result (option json) :=
  match items with
  | [] => Ok None
  | t :: rest =>
      if is_dict t
      then n <- get t (txt "name") JNull ;;
           if py_eqb n (JStr table_name) then Ok (Some t)
           else first_named table_name rest
      else first_named table_name rest
  end.

(** [get_table_schema]. *)
Definition get_table_schema (st : store) (connection_id : Z) (table_name : str)
  : result json :=
  snapshot <- one_or_none (for_connection connection_id st) ;;
  match snapshot with
  | None => Ok (no_table table_name)
  | Some s =>
      ts <- get (schema_or_empty s) (txt "tables") (JArr []) ;;
      items <- iter ts ;;
      found <- first_named table_name items ;;
      match found with
      | Some t => Ok t
      | None => Ok (no_table table_name)
      end
  end.

(** [discover_schema] and [refresh_schema], which differ in [message] only.
    [catalog_of] is the target database behind each connection string; the
    result is the response, or the exception that leaves the handler, and
    the snapshot table after the call. *)
Definition discover_with (message : str) (st : store)
           (db : list Executor.DbConnection)
           (catalog_of : str -> Introspection.Catalog)
           (connection_id : Z) (payload : DiscoverRequest)
           (loaded : option json) (commit : option exn) : result json * store :=
  match _resolve_connection_string connection_id payload db with
  | Raise e => (Raise e, st)
  | Ok conn_str =>
      match discover_and_save st connection_id
              (Introspection._introspect_schema (catalog_of conn_str))
              loaded commit with
      | (Ok result, st') =>
          (Ok (JObj [(txt "message", JStr message); (txt "schema", result)]), st')
      | (Raise e, st') => (Raise e, st')
      end
  end.

Definition discover_schema := discover_with (txt "Schema discovered and saved").
Definition refresh_schema := discover_with (txt "Schema refreshed").

(** ** [_build_dynamic_examples] *)

(** The three nested classifiers; [tp] is already a text. *)
Definition is_numeric (tp : str) : bool :=
  let tp := lower tp in
  existsb (fun p => startswith p tp)
          [txt "int"; txt "bigint"; txt "smallint"; txt "numeric";
           txt "decimal"; txt "double"; txt "real"].

Definition is_text (tp : str) : bool :=
  let tp := lower tp in
  existsb (fun p => startswith p tp) [txt "varchar"; txt "text"; txt "char"]
  || Introspection.in_list tp [txt "json"; txt "jsonb"].

Definition is_date (tp : str) : bool :=
  let tp := lower tp in
  contains (txt "timestamp") tp
  || Introspection.in_list tp [txt "date"; txt "time"; txt "timestamptz"].

(** The loop that removes repeated questions and stops at six, on the
    state [(seen, deduped)]. *)
Fixpoint dedupe (examples : list str) (seen deduped : list str) : list str :=
  match examples with
  | [] => deduped
  | q :: rest =>
      let '(seen, deduped) :=
        if negb (Introspection.in_list q seen)
        then (q :: seen, deduped ++ [q])
        else (seen, deduped) in
      if 6 <=? length deduped then deduped else dedupe rest seen deduped
  end.

Definition default_examples : list str :=
  [txt "Show row counts per table"; txt "List distinct values by category"].

Section Examples.

(** [str(x)], which is also how an f-string renders [x]. *)
Variable py_str : json -> str.

(** [[c.get("name") for c in cols if pred(str(c.get("type")))]]. *)
Definition names_where (pred : str -> bool) (cols : list json) : result (list json) :=
  picked <- mapM (fun c =>
                    tp <- get c (txt "type") JNull ;;
                    if pred (py_str tp)
                    then n <- get c (txt "name") JNull ;; Ok [n]
                    else Ok []) cols ;;
  Ok (concat picked).

Definition head_str (l : list json) : str :=
  match l with
  | [] => []
  | x :: _ => py_str x
  end.

(** The body of [for t in tables[:3]]: the questions one table adds. *)
Definition table_examples (t : json) : result (list str) :=
  n <- get t (txt "name") JNull ;;
  let tname := py_str (if truthy n then n else JStr (txt "table")) in
  cl <- get t (txt "columns") (JArr []) ;;
  cols <- iter cl ;;
  num_cols <- names_where is_numeric cols ;;
  cat_cols <- names_where is_text cols ;;
  date_cols <- names_where is_date cols ;;
  let has (l : list json) := match l with [] => false | _ :: _ => true end in
  Ok ([txt "How many rows are in " ++ tname ++ txt "?"]
      ++ (if has num_cols && has cat_cols
          then [txt "Show average " ++ head_str num_cols ++ txt " by " ++ head_str cat_cols]
          else [])
      ++ (if has cat_cols
          then [txt "Count how many " ++ tname ++ txt " per " ++ head_str cat_cols]
          else [])
      ++ (if has num_cols
          then [txt "List top 10 " ++ tname ++ txt " by " ++ head_str num_cols]
          else [])
      ++ (if has date_cols
          then [txt "Show monthly counts for " ++ tname ++ txt " over the last 12 months"]
          else [])).

Definition _build_dynamic_examples (schema : json) : result (list str) :=
  ts <- get (if truthy schema then schema else JObj []) (txt "tables") (JArr []) ;;
  items <- iter ts ;;
  let tables := filter is_dict items in
  per_table <- mapM table_examples (firstn 3 tables) ;;
  let examples := concat per_table in
  let deduped := dedupe examples [] [] in
  Ok (match deduped with
      | [] => default_examples
      | _ :: _ => deduped
      end).

End Examples.

(** ** Sample data *)

(** A discovery for connection 2, on a target that is not PostgreSQL. *)
Definition other_discovery : Call :=
  {| call_connection_id := 2;
     call_introspected := Ok Introspection.empty_schema;
     call_loaded := None;
     call_commit := None |}.

End SchemaRoutes.

(* ================================================================== *)
(** * Facts about the text primitives *)
(* ================================================================== *)

(** Case analysis over the 256 characters. *)
Ltac each_char c := destruct c as [[] [] [] [] [] [] [] []]; try reflexivity; try discriminate.

Section PyFacts.

Lemma isspace_upper_char (c : ascii) : isspace (upper_char c) = isspace c.
Proof. each_char c. Qed.

Lemma is_semi_upper_char (c : ascii) : is_semi (upper_char c) = is_semi c.
Proof. each_char c. Qed.

Lemma is_semi_lower_char (c : ascii) : is_semi (lower_char c) = is_semi c.
Proof. each_char c. Qed.

Lemma is_semi_true (c : ascii) : is_semi c = true -> c = ";"%char.
Proof. unfold is_semi. apply Ascii.eqb_eq. Qed.

Lemma is_semi_not_space (c : ascii) : is_semi c = true -> isspace c = false.
Proof. intros H. apply is_semi_true in H. subst c. reflexivity. Qed.

Lemma str_eqb_eq (a b : str) : str_eqb a b = true <-> a = b.
Proof.
  revert b. induction a as [|x a IH]; intros [|y b]; simpl;
    try (split; intros H; congruence).
  rewrite andb_true_iff, Ascii.eqb_eq, IH. split.
  - intros [-> ->]. reflexivity.
  - intros H. injection H as -> ->. split; reflexivity.
Qed.

Lemma str_eqb_refl (a : str) : str_eqb a a = true.
Proof. apply str_eqb_eq. reflexivity. Qed.

(** ** [rstrip] and [lstrip] *)

Lemma rstrip_by_nil_iff (p : ascii -> bool) (s : str) :
  rstrip_by p s = [] <-> forallb p s = true.
Proof.
  induction s as [|c t IH]; simpl.
  - tauto.
  - destruct (rstrip_by p t) as [|r rs] eqn:E.
    + destruct (p c); simpl; split; intros H; try discriminate.
      * apply IH. reflexivity.
      * reflexivity.
    + split; intros H; try discriminate.
      apply andb_true_iff in H. destruct H as [_ H].
      apply IH in H. discriminate.
Qed.

Lemma rstrip_by_cons (p : ascii -> bool) (c : ascii) (t : str) :
  rstrip_by p (c :: t) = if forallb p (c :: t) then [] else c :: rstrip_by p t.
Proof.
  simpl. destruct (rstrip_by p t) as [|r rs] eqn:E.
  - assert (H : forallb p t = true) by (apply rstrip_by_nil_iff; exact E).
    rewrite H, andb_true_r. destruct (p c); reflexivity.
  - assert (H : forallb p t = false).
    { destruct (forallb p t) eqn:F; [|reflexivity].
      apply rstrip_by_nil_iff in F. congruence. }
    rewrite H, andb_false_r. reflexivity.
Qed.

Lemma rstrip_by_app_keep (p : ascii -> bool) (a b : str) :
  forallb p b = false -> rstrip_by p (a ++ b) = a ++ rstrip_by p b.
Proof.
  intros Hb. induction a as [|c a IH].
  - reflexivity.
  - rewrite <- app_comm_cons, rstrip_by_cons.
    replace (forallb p (c :: a ++ b)) with false.
    + rewrite IH. reflexivity.
    + simpl. rewrite forallb_app, Hb, andb_false_r, andb_false_r. reflexivity.
Qed.

(** What [rstrip] removes is a run of characters of the class. *)
Lemma rstrip_by_split (p : ascii -> bool) (s : str) :
  exists w, s = rstrip_by p s ++ w /\ forallb p w = true.
Proof.
  induction s as [|c t [w [Hw Hp]]].
  - exists []. split; reflexivity.
  - rewrite rstrip_by_cons. destruct (forallb p (c :: t)) eqn:F.
    + exists (c :: t). split; [reflexivity | exact F].
    + exists w. split; [|exact Hp]. simpl. f_equal. exact Hw.
Qed.

Lemma rstrip_by_idem (p : ascii -> bool) (s : str) :
  rstrip_by p (rstrip_by p s) = rstrip_by p s.
Proof.
  induction s as [|c t IH].
  - reflexivity.
  - rewrite rstrip_by_cons. destruct (forallb p (c :: t)) eqn:F.
    + reflexivity.
    + rewrite rstrip_by_cons, IH.
      replace (forallb p (c :: rstrip_by p t)) with false; [reflexivity|].
      symmetry. simpl in *. destruct (p c); [|reflexivity]. simpl in *.
      destruct (forallb p (rstrip_by p t)) eqn:G; [|reflexivity].
      apply rstrip_by_nil_iff in G. rewrite IH in G.
      apply rstrip_by_nil_iff in G. congruence.
Qed.

Lemma rstrip_by_map (p : ascii -> bool) (f : ascii -> ascii) (s : str) :
  (forall c, p (f c) = p c) ->
  rstrip_by p (map f s) = map f (rstrip_by p s).
Proof.
  intros Hf. induction s as [|c t IH].
  - reflexivity.
  - change (map f (c :: t)) with (f c :: map f t).
    rewrite !rstrip_by_cons, IH.
    replace (forallb p (f c :: map f t)) with (forallb p (c :: t)).
    + destruct (forallb p (c :: t)); reflexivity.
    + simpl. rewrite Hf. f_equal.
      clear IH. induction t as [|d t IHt]; simpl; [reflexivity|].
      rewrite Hf, IHt. reflexivity.
Qed.

Lemma lstrip_by_map (p : ascii -> bool) (f : ascii -> ascii) (s : str) :
  (forall c, p (f c) = p c) ->
  lstrip_by p (map f s) = map f (lstrip_by p s).
Proof.
  intros Hf. induction s as [|c t IH]; simpl.
  - reflexivity.
  - rewrite Hf. destruct (p c); [exact IH | reflexivity].
Qed.

(** The head of a left-stripped text is outside the class. *)
Lemma lstrip_by_head (p : ascii -> bool) (s : str) :
  match lstrip_by p s with
  | [] => True
  | c :: _ => p c = false
  end.
Proof.
  induction s as [|c t IH]; simpl.
  - exact I.
  - destruct (p c) eqn:E; [exact IH | exact E].
Qed.

Lemma lstrip_by_fixed (p : ascii -> bool) (c : ascii) (t : str) :
  p c = false -> lstrip_by p (c :: t) = c :: t.
Proof. intros H. simpl. rewrite H. reflexivity. Qed.

(** [rstrip] keeps the head of a text it does not erase. *)
Lemma rstrip_by_head (p : ascii -> bool) (c : ascii) (t : str) :
  p c = false -> rstrip_by p (c :: t) = c :: rstrip_by p t.
Proof.
  intros H. rewrite rstrip_by_cons. simpl. rewrite H. reflexivity.
Qed.

Lemma strip_idem (s : str) : strip (strip s) = strip s.
Proof.
  unfold strip.
  pose proof (lstrip_by_head isspace s) as H.
  destruct (lstrip_by isspace s) as [|c t].
  - reflexivity.
  - rewrite (rstrip_by_head _ _ _ H), (lstrip_by_fixed _ _ _ H).
    rewrite <- (rstrip_by_head _ _ _ H). apply rstrip_by_idem.
Qed.

Lemma strip_upper (s : str) : strip (upper s) = upper (strip s).
Proof.
  unfold strip, upper.
  rewrite lstrip_by_map by apply isspace_upper_char.
  apply rstrip_by_map, isspace_upper_char.
Qed.

(** A text whose two ends are outside the white space is its own [strip]. *)
Lemma strip_fixed (c : ascii) (m : str) (d : ascii) :
  isspace c = false -> isspace d = false ->
  strip (c :: m ++ [d]) = c :: m ++ [d].
Proof.
  intros Hc Hd. unfold strip. rewrite (lstrip_by_fixed _ _ _ Hc).
  change (c :: m ++ [d]) with ((c :: m) ++ [d]).
  rewrite rstrip_by_app_keep.
  - simpl. rewrite Hd. reflexivity.
  - simpl. rewrite Hd. reflexivity.
Qed.

(** ** [startswith] and [in] *)

Lemma startswith_app (pat rest : str) : startswith pat (pat ++ rest) = true.
Proof.
  induction pat as [|c t IH]; simpl.
  - reflexivity.
  - rewrite Ascii.eqb_refl. exact IH.
Qed.

Lemma startswith_split (pat s : str) :
  startswith pat s = true -> s = pat ++ skipn (length pat) s.
Proof.
  revert s. induction pat as [|p pt IH]; intros s H.
  - reflexivity.
  - destruct s as [|c t]; [discriminate|]. simpl in H.
    apply andb_true_iff in H. destruct H as [Hc Ht].
    apply Ascii.eqb_eq in Hc. subst c. simpl. f_equal. apply IH. exact Ht.
Qed.

Lemma contains_app (pat a b : str) : contains pat (a ++ pat ++ b) = true.
Proof.
  induction a as [|c a IH].
  - destruct (pat ++ b) eqn:E; simpl; rewrite <- E;
      rewrite startswith_app; reflexivity.
  - simpl. rewrite IH. apply orb_true_r.
Qed.

Lemma contains_split (pat s : str) :
  contains pat s = true -> exists a b, s = a ++ pat ++ b.
Proof.
  induction s as [|c t IH]; intros H.
  - simpl in H. rewrite orb_false_r in H.
    exists [], []. apply startswith_split in H. rewrite H at 1.
    destruct pat; reflexivity.
  - simpl in H. apply orb_true_iff in H. destruct H as [H|H].
    + exists [], (skipn (length pat) (c :: t)).
      apply (startswith_split pat (c :: t)). exact H.
    + destruct (IH H) as [a [b E]]. exists (c :: a), b. rewrite E. reflexivity.
Qed.

Lemma contains_char (c : ascii) (s : str) :
  contains [c] s = existsb (Ascii.eqb c) s.
Proof.
  induction s as [|d t IH]; simpl.
  - reflexivity.
  - rewrite IH, andb_true_r. reflexivity.
Qed.

Lemma existsb_is_semi_upper (s : str) :
  existsb is_semi (upper s) = existsb is_semi s.
Proof.
  induction s as [|c t IH]; simpl.
  - reflexivity.
  - rewrite is_semi_upper_char, IH. reflexivity.
Qed.

Lemma forallb_is_semi_upper (s : str) :
  forallb is_semi (upper s) = forallb is_semi s.
Proof.
  induction s as [|c t IH]; simpl.
  - reflexivity.
  - rewrite is_semi_upper_char, IH. reflexivity.
Qed.

Lemma rstrip_semi_upper (s : str) : rstrip_semi (upper s) = upper (rstrip_semi s).
Proof. apply rstrip_by_map, is_semi_upper_char. Qed.

Lemma contains_semi (s : str) : contains (txt ";") s = existsb is_semi s.
Proof.
  change (txt ";") with [";"%char]. rewrite contains_char.
  induction s as [|c t IH]; simpl; [reflexivity|].
  rewrite IH. unfold is_semi. rewrite (Ascii.eqb_sym c). reflexivity.
Qed.

End PyFacts.

(* ================================================================== *)
(** * The guardrail *)
(* ================================================================== *)

Section GuardrailFacts.

Import Guardrails.

(** The multi-statement rule, on the trimmed text itself: the rule fires
    exactly when a [;] is left once every trailing [;] is removed. *)
Lemma multi_statement_test (sql : str) :
  contains (txt ";") (rstrip_semi (strip (upper (strip sql))))
  = existsb is_semi (rstrip_semi (strip sql)).
Proof.
  rewrite strip_upper, strip_idem, rstrip_semi_upper, contains_semi.
  apply existsb_is_semi_upper.
Qed.

Lemma validate_sql_block_multi (sql : str) (connection_id : Z) :
  existsb is_semi (rstrip_semi (strip sql)) = true ->
  block_execution (validate_sql sql connection_id) = true /\
  In multi_statement_warning (warnings (validate_sql sql connection_id)).
Proof.
  intros H. unfold validate_sql. rewrite multi_statement_test, H. simpl.
  split; [reflexivity|]. apply in_or_app. right. left. reflexivity.
Qed.

(** The keyword loop never withdraws a warning or a block. *)
Lemma scan_keywords_keep (u : str) (kws : list str) (st : list str * bool) :
  (forall w, In w (fst st) -> In w (fst (fold_left (scan_keyword u) kws st))) /\
  (snd st = true -> snd (fold_left (scan_keyword u) kws st) = true).
Proof.
  revert st. induction kws as [|k kws IH]; intros st; simpl.
  - split; auto.
  - destruct (IH (scan_keyword u st k)) as [IH1 IH2]. split.
    + intros w Hw. apply IH1. unfold scan_keyword.
      destruct (contains k u); [|exact Hw]. simpl. apply in_or_app. left. exact Hw.
    + intros Hb. apply IH2. unfold scan_keyword.
      destruct (contains k u); [reflexivity | exact Hb].
Qed.

Lemma scan_keywords_hit (u k : str) (kws : list str) (st : list str * bool) :
  In k kws -> contains k u = true ->
  snd (fold_left (scan_keyword u) kws st) = true /\
  In (txt "Detected dangerous keyword: " ++ strip k)
     (fst (fold_left (scan_keyword u) kws st)).
Proof.
  revert st. induction kws as [|k' kws IH]; intros st Hin Hc.
  - destruct Hin.
  - simpl. destruct Hin as [->|Hin].
    + destruct (scan_keywords_keep u kws (scan_keyword u st k)) as [K1 K2].
      unfold scan_keyword in *. rewrite Hc in *. split.
      * apply K2. reflexivity.
      * apply K1. simpl. apply in_or_app. right. left. reflexivity.
    + apply IH; assumption.
Qed.

Lemma scan_keywords_block (u : str) (kws : list str) (st : list str * bool) :
  snd (fold_left (scan_keyword u) kws st)
  = snd st || existsb (fun kw => contains kw u) kws.
Proof.
  revert st. induction kws as [|k kws IH]; intros st; simpl.
  - rewrite orb_false_r. reflexivity.
  - rewrite IH. unfold scan_keyword.
    destruct (contains k u); simpl.
    + rewrite orb_true_r. reflexivity.
    + reflexivity.
Qed.

(** When [validate_sql] blocks: the statement does not begin with SELECT
    and holds an entry of the block-list, or a [;] is left once the
    trailing ones are removed. *)
Lemma validate_sql_block (sql : str) (connection_id : Z) :
  block_execution (validate_sql sql connection_id)
  = (negb (startswith (txt "SELECT") (upper (strip sql)))
     && existsb (fun kw => contains kw (upper (strip sql))) dangerous_keywords)
    || existsb is_semi (rstrip_semi (strip sql)).
Proof.
  unfold validate_sql. rewrite multi_statement_test.
  destruct (existsb is_semi (rstrip_semi (strip sql))); cbn [block_execution snd].
  - rewrite orb_true_r. reflexivity.
  - rewrite orb_false_r.
    destruct (startswith (txt "SELECT") (upper (strip sql))); cbn [negb].
    + reflexivity.
    + rewrite scan_keywords_block. reflexivity.
Qed.

(** Each keyword of the block-list is a mutating keyword and one space. *)
Lemma dangerous_keyword_of (kw : str) :
  In kw mutating_keywords ->
  In (kw ++ txt " ") dangerous_keywords /\ strip (kw ++ txt " ") = kw.
Proof.
  intros H. unfold mutating_keywords in H. simpl in H.
  repeat (destruct H as [<-|H];
          [split; [unfold dangerous_keywords; simpl; tauto | reflexivity]|]).
  destruct H.
Qed.

(** C2, as the specification words it, fails on a statement that ends in
    two semicolons: nothing is blocked. *)
Lemma C2_double_terminator_not_blocked :
  semicolon_beyond_terminator (txt "SELECT 1;;") = true /\
  block_execution (validate_sql (txt "SELECT 1;;") 1) = false /\
  warnings (validate_sql (txt "SELECT 1;;") 1) = [].
Proof. vm_compute. repeat split; reflexivity. Qed.

(** C2, amended: when the trimmed statement has a [;] that is followed,
    somewhere later, by a character other than [;] (an interior semicolon),
    [validate_sql] blocks and reports multiple statements. *)
Theorem C2_interior_semicolon_blocked
        (sql : str) (connection_id : Z) (before after : str) :
  strip sql = before ++ ";"%char :: after ->
  forallb is_semi after = false ->
  block_execution (validate_sql sql connection_id) = true /\
  is_safe (validate_sql sql connection_id) = false /\
  In multi_statement_warning (warnings (validate_sql sql connection_id)).
Proof.
  intros Hs Ha.
  assert (H : existsb is_semi (rstrip_semi (strip sql)) = true).
  { rewrite Hs. change (before ++ ";"%char :: after) with (before ++ [";"%char] ++ after).
    rewrite app_assoc. unfold rstrip_semi.
    rewrite rstrip_by_app_keep by exact Ha.
    rewrite existsb_app, existsb_app. simpl. rewrite orb_true_r. reflexivity. }
  destruct (validate_sql_block_multi sql connection_id H) as [Hb Hw].
  repeat split; try assumption.
  unfold validate_sql in *. simpl in *. rewrite Hb. reflexivity.
Qed.

Lemma C2_interior_semicolon_blocked_witness :
  block_execution (validate_sql (txt "SELECT 1; DROP TABLE users;") 1) = true /\
  is_safe (validate_sql (txt "SELECT 1; DROP TABLE users;") 1) = false /\
  In multi_statement_warning
     (warnings (validate_sql (txt "SELECT 1; DROP TABLE users;") 1)).
Proof.
  apply (C2_interior_semicolon_blocked
           (txt "SELECT 1; DROP TABLE users;") 1
           (txt "SELECT 1") (txt " DROP TABLE users;")).
  - reflexivity.
  - reflexivity.
Defined.

(** C3, as the specification words it, fails when the keyword is followed
    by a line break, and when it is the last token: neither statement begins
    with SELECT, each holds a mutating keyword as a whole word, and neither
    is blocked. *)
Lemma C3_keyword_without_space_not_blocked :
  let s1 := txt "DELETE" ++ "010"%char :: txt "FROM orders" in
  let s2 := txt "ROLLBACK TO drop" in
  (startswith (txt "SELECT") (upper (strip s1)) = false /\
   contains_word (txt "DELETE") (upper (strip s1)) = true /\
   block_execution (validate_sql s1 1) = false) /\
  (startswith (txt "SELECT") (upper (strip s2)) = false /\
   contains_word (txt "DROP") (upper (strip s2)) = true /\
   block_execution (validate_sql s2 1) = false).
Proof. vm_compute. repeat split; reflexivity. Qed.

(** C3, amended: when the trimmed, upper-cased statement does not begin
    with SELECT and contains a mutating keyword immediately followed by a
    space, [validate_sql] blocks and its warnings name the keyword. *)
Theorem C3_keyword_then_space_blocked
        (sql : str) (connection_id : Z) (kw : str) :
  In kw mutating_keywords ->
  startswith (txt "SELECT") (upper (strip sql)) = false ->
  contains (kw ++ txt " ") (upper (strip sql)) = true ->
  block_execution (validate_sql sql connection_id) = true /\
  is_safe (validate_sql sql connection_id) = false /\
  In (txt "Detected dangerous keyword: " ++ kw)
     (warnings (validate_sql sql connection_id)).
Proof.
  intros Hkw Hsel Hc.
  destruct (dangerous_keyword_of kw Hkw) as [Hin Hstrip].
  destruct (scan_keywords_hit (upper (strip sql)) (kw ++ txt " ")
              dangerous_keywords ([], false) Hin Hc) as [Hb Hw].
  rewrite Hstrip in Hw.
  unfold validate_sql. rewrite Hsel. cbn [negb].
  destruct (contains (txt ";") _); cbn [fst snd is_safe warnings block_execution].
  - repeat split. apply in_or_app. left. exact Hw.
  - rewrite Hb. repeat split. exact Hw.
Qed.

Lemma C3_keyword_then_space_blocked_witness :
  block_execution (validate_sql (txt "delete from orders") 1) = true /\
  is_safe (validate_sql (txt "delete from orders") 1) = false /\
  In (txt "Detected dangerous keyword: " ++ txt "DELETE")
     (warnings (validate_sql (txt "delete from orders") 1)).
Proof.
  apply (C3_keyword_then_space_blocked (txt "delete from orders") 1 (txt "DELETE")).
  - simpl. tauto.
  - reflexivity.
  - reflexivity.
Defined.

End GuardrailFacts.

(* ================================================================== *)
(** * The executor *)
(* ================================================================== *)

Section ExecutorFacts.

Import Executor.
Local Open Scope Z_scope.

(** A cursor that breaks before the cap is reached raises out of the loop. *)
Lemma fetch_rows_breaks (columns : list str) (max_rows : Z) (e : exn)
      (fetched : list (list db_value)) (rows : list row_dict) (count : Z) :
  count + Z.of_nat (length fetched) < max_rows \/ fetched = [] ->
  fetch_rows columns max_rows fetched (Some e) rows count = Raise e.
Proof.
  revert rows count. induction fetched as [|row rest IH]; intros rows count H.
  - reflexivity.
  - destruct H as [H|H]; [|discriminate]. simpl length in H.
    cbn [fetch_rows].
    destruct (count + 1 >=? max_rows) eqn:E.
    + apply Z.geb_le in E. lia.
    + apply IH. left. lia.
Qed.

(** The loop, when it ends normally: [count] is the number of rows, and the
    cap holds as soon as it is at least one. *)
Lemma fetch_rows_bound (columns : list str) (max_rows : Z) (broken : option exn)
      (fetched : list (list db_value)) (rows out : list row_dict) (count : Z) :
  count = Z.of_nat (length rows) ->
  count < max_rows ->
  fetch_rows columns max_rows fetched broken rows count = Ok out ->
  Z.of_nat (length out) <= max_rows.
Proof.
  revert rows count. induction fetched as [|row rest IH]; intros rows count Hc Hlt H.
  - simpl in H. destruct broken; [discriminate|]. injection H as <-. lia.
  - cbn [fetch_rows] in H.
    destruct (count + 1 >=? max_rows) eqn:E.
    + injection H as <-. rewrite length_app. simpl. lia.
    + apply (IH (rows ++ [make_row columns row]) (count + 1)).
      * rewrite length_app. simpl. lia.
      * rewrite Z.geb_leb in E. apply Z.leb_gt in E. exact E.
      * exact H.
Qed.

(** The loop stops at the cap: with at least [max_rows - count] rows to
    come, exactly that many are taken, whatever follows them. *)
Lemma fetch_rows_truncates (columns : list str) (max_rows : Z) (broken : option exn)
      (fetched : list (list db_value)) (rows : list row_dict) (count : Z) :
  count < max_rows ->
  max_rows - count <= Z.of_nat (length fetched) ->
  fetch_rows columns max_rows fetched broken rows count
  = Ok (rows ++ map (make_row columns) (firstn (Z.to_nat (max_rows - count)) fetched)).
Proof.
  revert rows count. induction fetched as [|row rest IH]; intros rows count Hlt Hlen.
  - simpl in Hlen. lia.
  - cbn [fetch_rows].
    replace (Z.to_nat (max_rows - count)) with (S (Z.to_nat (max_rows - (count + 1)))) by lia.
    cbn [firstn map].
    destruct (count + 1 >=? max_rows) eqn:E.
    + apply Z.geb_le in E.
      replace (Z.to_nat (max_rows - (count + 1))) with 0%nat by lia.
      reflexivity.
    + rewrite Z.geb_leb in E. apply Z.leb_gt in E.
      rewrite IH.
      * rewrite <- app_assoc. reflexivity.
      * exact E.
      * simpl length in Hlen. lia.
Qed.

(** C4, as the specification words it, fails: the guarded block catches
    [SQLAlchemyError] and nothing else.  An engine that fails with another
    exception, here the driver that [create_engine] cannot import, raises
    past the executor, and so does the lookup of a connection id that is not
    in the store, which runs before the block. *)
Lemma C4_other_errors_raised :
  execute_sql ExecuteRoutes.driverless_world (txt "SELECT 1") 1 30 1000
  = Raise (OtherException (txt "No module named psycopg2")) /\
  execute_sql three_row_world (txt "SELECT 1") 2 30 1000
  = Raise (ConnectionNotFound 2).
Proof. split; reflexivity. Qed.

(** C4, amended: once the connection string is resolved, every
    [SQLAlchemyError] of the target database's engine, whether raised before
    any row or while rows are read, comes back as a value: [success = false],
    no rows, no columns, [row_count = 0], the error's message in [error], the
    time elapsed up to the handler, and the submitted statement in
    [sql_executed]. *)
Theorem C4_engine_error_returned
        (w : World) (sql : str) (connection_id timeout_seconds max_rows : Z)
        (conn_str msg : str) :
  _get_connection_string w connection_id = Ok conn_str ->
  engine_error max_rows msg (run w conn_str sql) ->
  execute_sql w sql connection_id timeout_seconds max_rows
  = Ok {| success := false;
          rows := [];
          columns := [];
          row_count := 0;
          execution_time_ms := elapsed_ms (start w) (stop w);
          sql_executed := sql;
          warnings := [];
          error := Some msg |}.
Proof.
  intros Hc He. unfold execute_sql. rewrite Hc. cbn [bind].
  inversion He as [Hr | keys fetched Hf Hr]; rewrite <- Hr in *.
  - reflexivity.
  - rewrite (fetch_rows_breaks keys max_rows (SQLAlchemyError msg) fetched [] 0).
    + reflexivity.
    + destruct Hf as [Hf|Hf]; [left; lia | right; exact Hf].
Qed.

Lemma C4_engine_error_returned_witness :
  execute_sql breaking_world (txt "SELECT id FROM orders") 1 30 1000
  = Ok {| success := false;
          rows := [];
          columns := [];
          row_count := 0;
          execution_time_ms := 2500;
          sql_executed := txt "SELECT id FROM orders";
          warnings := [];
          error := Some (txt "server closed the connection") |}.
Proof.
  apply (C4_engine_error_returned breaking_world (txt "SELECT id FROM orders")
           1 30 1000 (txt "postgresql://db/shop")
           (txt "server closed the connection")).
  - reflexivity.
  - apply error_while_fetching. left. reflexivity.
Defined.

(** Outside the claim: a failed lookup of the connection is raised before
    the guarded block is entered. *)
Lemma execute_sql_unknown_connection
      (w : World) (sql : str) (connection_id timeout_seconds max_rows : Z) (e : exn) :
  _get_connection_string w connection_id = Raise e ->
  execute_sql w sql connection_id timeout_seconds max_rows = Raise e.
Proof. intros H. unfold execute_sql. rewrite H. reflexivity. Qed.

(** C7, as the specification words it, fails for a cap of zero: the row is
    appended before the cap is tested, so one row comes back. *)
Lemma C7_zero_cap_returns_a_row :
  exists r,
    execute_sql three_row_world (txt "SELECT id FROM orders") 1 30 0 = Ok r /\
    success r = true /\ row_count r = 1 /\ ~ (row_count r <= 0).
Proof.
  eexists. split; [vm_compute; reflexivity|].
  cbn. repeat split. lia.
Qed.

(** C7, amended: for a cap of at least one, a successful execution has
    [row_count = len(rows) <= max_rows]; and when the cursor holds at least
    [max_rows] rows the call returns, successfully, the first [max_rows] of
    them. *)
Theorem C7_row_cap
        (w : World) (sql : str) (connection_id timeout_seconds max_rows : Z)
        (conn_str : str) :
  1 <= max_rows ->
  _get_connection_string w connection_id = Ok conn_str ->
  (forall r,
      execute_sql w sql connection_id timeout_seconds max_rows = Ok r ->
      success r = true ->
      row_count r = Z.of_nat (length (rows r)) /\ row_count r <= max_rows) /\
  (forall keys fetched broken,
      run w conn_str sql = Executed true keys fetched broken ->
      max_rows <= Z.of_nat (length fetched) ->
      exists r,
        execute_sql w sql connection_id timeout_seconds max_rows = Ok r /\
        success r = true /\
        row_count r = max_rows /\
        rows r = map (make_row keys) (firstn (Z.to_nat max_rows) fetched)).
Proof.
  intros Hmax Hc. split.
  - intros r H Hs. unfold execute_sql in H. rewrite Hc in H. cbn [bind] in H.
    destruct (run w conn_str sql) as [e | returns_rows keys fetched broken].
    + destruct e; try discriminate. injection H as <-. discriminate.
    + destruct returns_rows.
      * destruct (fetch_rows keys max_rows fetched broken [] 0) as [out|e] eqn:F.
        -- cbn [bind] in H. injection H as <-. cbn. split; [reflexivity|].
           apply (fetch_rows_bound keys max_rows broken fetched [] out 0);
             [reflexivity | lia | exact F].
        -- cbn [bind] in H. destruct e; try discriminate.
           injection H as <-. discriminate.
      * injection H as <-. cbn. split; [reflexivity | lia].
  - intros keys fetched broken Hr Hlen.
    unfold execute_sql. rewrite Hc. cbn [bind]. rewrite Hr.
    rewrite (fetch_rows_truncates keys max_rows broken fetched [] 0) by lia.
    cbn [bind app]. eexists. split; [reflexivity|]. cbn.
    rewrite Z.sub_0_r. repeat split.
    rewrite length_map, length_firstn. lia.
Qed.

Lemma C7_row_cap_witness :
  exists r,
    execute_sql three_row_world (txt "SELECT id FROM orders") 1 30 2 = Ok r /\
    success r = true /\
    row_count r = 2 /\
    row_count r = Z.of_nat (length (rows r)) /\
    row_count r <= 2.
Proof.
  destruct (C7_row_cap three_row_world (txt "SELECT id FROM orders") 1 30 2
              (txt "postgresql://db/shop")) as [H1 H2].
  - lia.
  - reflexivity.
  - destruct (H2 [txt "id"] [[VInt 1]; [VInt 2]; [VInt 3]] None) as [r [E [S [C R]]]].
    + reflexivity.
    + simpl. lia.
    + exists r. destruct (H1 r E S) as [L B]. repeat split; assumption.
Defined.

(** The timeout argument is not consulted. *)
Lemma execute_sql_timeout_unused
      (w : World) (sql : str) (connection_id max_rows t1 t2 : Z) :
  execute_sql w sql connection_id t1 max_rows
  = execute_sql w sql connection_id t2 max_rows.
Proof. reflexivity. Qed.

(** C8 fails on the code: with a timeout of one second, a statement that
    keeps the target database busy for a thousand seconds is waited for and
    reported as a success that took 1,000,000 ms; the same result comes back
    for every other timeout. *)
Theorem C8_timeout_not_enforced :
  execute_sql slow_world (txt "SELECT pg_sleep(1000)") 1 1 1000
  = Ok {| success := true;
          rows := [[(txt "pg_sleep", VNull)]];
          columns := [txt "pg_sleep"];
          row_count := 1;
          execution_time_ms := 1000000;
          sql_executed := txt "SELECT pg_sleep(1000)";
          warnings := [];
          error := None |} /\
  forall timeout_seconds,
    execute_sql slow_world (txt "SELECT pg_sleep(1000)") 1 timeout_seconds 1000
    = execute_sql slow_world (txt "SELECT pg_sleep(1000)") 1 1 1000.
Proof. split; [vm_compute; reflexivity | reflexivity]. Qed.

End ExecutorFacts.

(* ================================================================== *)
(** * The generator *)
(* ================================================================== *)

Section SqlChainFacts.

Import SqlChain.

Lemma lower_app (a b : str) : lower (a ++ b) = lower a ++ lower b.
Proof. apply map_app. Qed.

Lemma contains_eq (pat s : str) :
  contains pat s
  = startswith pat s || match s with [] => false | _ :: t => contains pat t end.
Proof. destruct s; reflexivity. Qed.

Lemma search_select_eq (s : str) :
  search_select s
  = if startswith (txt "select") (lower s)
    then Some (firstn 6 s ++ lazy_body (skipn 6 s))
    else match s with [] => None | _ :: t => search_select t end.
Proof. destruct s; reflexivity. Qed.


(** ** Pieces of a text *)


Lemma split_head_no_semi (s : str) :
  existsb is_semi (split_head ";" s) = false.
Proof.
  induction s as [|c t IH]; simpl.
  - reflexivity.
  - destruct (Ascii.eqb c ";") eqn:E; simpl.
    + reflexivity.
    + unfold is_semi at 1. rewrite E. exact IH.
Qed.

Lemma lstrip_by_suffix (p : ascii -> bool) (s : str) :
  exists w, s = w ++ lstrip_by p s.
Proof.
  induction s as [|c t [w Hw]]; simpl.
  - exists []. reflexivity.
  - destruct (p c).
    + exists (c :: w). simpl. f_equal. exact Hw.
    + exists []. reflexivity.
Qed.

Lemma strip_infix (s : str) : exists a b, s = a ++ strip s ++ b.
Proof.
  unfold strip.
  destruct (lstrip_by_suffix isspace s) as [a Ha].
  destruct (rstrip_by_split isspace (lstrip_by isspace s)) as [b [Hb _]].
  exists a, b. rewrite <- Hb. exact Ha.
Qed.

Lemma no_semi_infix (a x b : str) :
  existsb is_semi (a ++ x ++ b) = false -> existsb is_semi x = false.
Proof.
  rewrite !existsb_app. intros H.
  apply orb_false_iff in H. destruct H as [_ H].
  apply orb_false_iff in H. tauto.
Qed.

Lemma strip_no_semi (s : str) :
  existsb is_semi s = false -> existsb is_semi (strip s) = false.
Proof.
  intros H. destruct (strip_infix s) as [a [b E]].
  rewrite E in H. exact (no_semi_infix _ _ _ H).
Qed.

Lemma no_semi_rstrip_semi (s : str) :
  existsb is_semi s = false -> rstrip_semi s = s.
Proof.
  unfold rstrip_semi. induction s as [|c t IH]; intros H.
  - reflexivity.
  - simpl in H. apply orb_false_iff in H. destruct H as [Hc Ht].
    rewrite rstrip_by_cons. simpl. rewrite Hc. simpl. f_equal. apply IH. exact Ht.
Qed.


(** ** The first six characters *)

Lemma upper_of_lower_char (c : ascii) : upper_char (lower_char c) = upper_char c.
Proof. each_char c. Qed.

Lemma isspace_lower_char (c : ascii) : isspace (lower_char c) = isspace c.
Proof. each_char c. Qed.

(** A text that begins with SELECT in some letter case: its six letters. *)
Lemma select_prefix (s : str) :
  startswith (txt "select") (lower s) = true ->
  exists c1 c2 c3 c4 c5 c6 rest,
    s = c1 :: c2 :: c3 :: c4 :: c5 :: c6 :: rest /\
    lower_char c1 = "s"%char /\ lower_char c2 = "e"%char /\
    lower_char c3 = "l"%char /\ lower_char c4 = "e"%char /\
    lower_char c5 = "c"%char /\ lower_char c6 = "t"%char.
Proof.
  intros H.
  change (txt "select") with ["s"; "e"; "l"; "e"; "c"; "t"]%char in H.
  destruct s as [|c1 [|c2 [|c3 [|c4 [|c5 [|c6 rest]]]]]];
    cbn [startswith lower map] in H; rewrite ?andb_false_r in H; try discriminate.
  repeat (apply andb_true_iff in H; destruct H as [?E H]).
  repeat match goal with
         | E : Ascii.eqb _ _ = true |- _ => apply Ascii.eqb_eq in E
         end.
  exists c1, c2, c3, c4, c5, c6, rest. repeat split; congruence.
Qed.

Lemma select_prefix_back (c1 c2 c3 c4 c5 c6 : ascii) (rest : str) :
  lower_char c1 = "s"%char -> lower_char c2 = "e"%char ->
  lower_char c3 = "l"%char -> lower_char c4 = "e"%char ->
  lower_char c5 = "c"%char -> lower_char c6 = "t"%char ->
  startswith (txt "select") (lower (c1 :: c2 :: c3 :: c4 :: c5 :: c6 :: rest)) = true.
Proof.
  intros H1 H2 H3 H4 H5 H6.
  change (txt "select") with ["s"; "e"; "l"; "e"; "c"; "t"]%char.
  cbn [startswith lower map]. rewrite H1, H2, H3, H4, H5, H6. reflexivity.
Qed.

Lemma lowered_not_semi (c x : ascii) :
  lower_char c = x -> is_semi x = false -> is_semi c = false.
Proof. intros <- H. rewrite is_semi_lower_char in H. exact H. Qed.

Lemma lowered_not_space (c x : ascii) :
  lower_char c = x -> isspace x = false -> isspace c = false.
Proof. intros <- H. rewrite isspace_lower_char in H. exact H. Qed.

(** ** The pattern of [_fix_case_insensitive] *)

Lemma span_spec (p : ascii -> bool) (s a b : str) :
  span p s = (a, b) -> s = a ++ b /\ forallb p a = true.
Proof.
  revert a b. induction s as [|c t IH]; intros a b H; simpl in H.
  - injection H as <- <-. split; reflexivity.
  - destruct (p c) eqn:E.
    + destruct (span p t) as [a' b'] eqn:S. injection H as <- <-.
      destruct (IH a' b' eq_refl) as [H1 H2]. split.
      * simpl. f_equal. exact H1.
      * simpl. rewrite E. exact H2.
    + injection H as <- <-. split; reflexivity.
Qed.

Lemma class_no_semi (p : ascii -> bool) (a : str) :
  (forall c, p c = true -> is_semi c = false) ->
  forallb p a = true -> existsb is_semi a = false.
Proof.
  intros Hp. induction a as [|c t IH]; simpl; intros H.
  - reflexivity.
  - apply andb_true_iff in H. destruct H as [Hc Ht].
    rewrite (Hp c Hc), (IH Ht). reflexivity.
Qed.

Lemma isspace_not_semi (c : ascii) : isspace c = true -> is_semi c = false.
Proof. each_char c. Qed.

Lemma is_col_char_not_semi (c : ascii) : is_col_char c = true -> is_semi c = false.
Proof. each_char c. Qed.

Lemma is_alpha_not_semi (c : ascii) : is_alpha c = true -> is_semi c = false.
Proof. each_char c. Qed.

Lemma existsb_is_semi_lower (s : str) :
  existsb is_semi (lower s) = existsb is_semi s.
Proof.
  induction s as [|c t IH]; simpl.
  - reflexivity.
  - rewrite is_semi_lower_char, IH. reflexivity.
Qed.

(** A text that begins with [pat] in some letter case splits into the
    matched letters and the rest. *)
Lemma ci_prefix_split (pat s : str) :
  startswith pat (lower s) = true ->
  exists a, s = a ++ skipn (length pat) s /\ lower a = pat.
Proof.
  intros H. exists (firstn (length pat) s). split.
  - symmetry. apply firstn_skipn.
  - apply startswith_split in H. unfold lower in *.
    rewrite <- firstn_map, H.
    rewrite firstn_app, Nat.sub_diag, firstn_all. simpl. apply app_nil_r.
Qed.

Lemma match_where_spec (s col val rest : str) :
  match_where s = Some (col, val, rest) ->
  exists m,
    s = m ++ rest /\ m <> [] /\ existsb is_semi m = false /\
    existsb is_semi col = false /\ existsb is_semi val = false.
Proof.
  unfold match_where.
  destruct (startswith (txt "where") (lower s)) eqn:W; [|discriminate].
  destruct (ci_prefix_split _ _ W) as [w [Hs Hw]].
  change (length (txt "where")) with 5 in Hs.
  destruct (span isspace (skipn 5 s)) as [ws1 r2] eqn:S1.
  destruct (span is_col_char r2) as [col' r3] eqn:S2.
  destruct (span isspace r3) as [ws2 r4] eqn:S3.
  destruct ws1 as [|x1 ws1]; [discriminate|].
  destruct col' as [|x2 col']; [discriminate|].
  destruct r4 as [|c4 r5]; [discriminate|].
  destruct (span isspace r5) as [ws3 r6] eqn:S4.
  destruct r6 as [|c6 r7]; [discriminate|].
  destruct (span is_alpha r7) as [val' r8] eqn:S5.
  destruct val' as [|x3 val']; [discriminate|].
  destruct r8 as [|c8 r9]; [discriminate|].
  destruct (Ascii.eqb c4 "=" && Ascii.eqb c6 "'" && Ascii.eqb c8 "'") eqn:C;
    [|discriminate].
  intros H. injection H as <- <- <-.
  apply andb_true_iff in C. destruct C as [C C8].
  apply andb_true_iff in C. destruct C as [C4 C6].
  apply Ascii.eqb_eq in C4, C6, C8. subst c4 c6 c8.
  apply span_spec in S1, S2, S3, S4, S5.
  destruct S1 as [E1 P1], S2 as [E2 P2], S3 as [E3 P3],
           S4 as [E4 P4], S5 as [E5 P5].
  assert (Nw : existsb is_semi w = false).
  { rewrite <- existsb_is_semi_lower, Hw. reflexivity. }
  pose proof (class_no_semi _ _ isspace_not_semi P1) as N1.
  pose proof (class_no_semi _ _ is_col_char_not_semi P2) as N2.
  pose proof (class_no_semi _ _ isspace_not_semi P3) as N3.
  pose proof (class_no_semi _ _ isspace_not_semi P4) as N4.
  pose proof (class_no_semi _ _ is_alpha_not_semi P5) as N5.
  exists (w ++ (x1 :: ws1) ++ (x2 :: col') ++ ws2 ++ ["="%char] ++ ws3
            ++ ["'"%char] ++ (x3 :: val') ++ ["'"%char]).
  repeat split.
  - rewrite Hs at 1. rewrite E1, E2, E3, E4, E5.
    repeat rewrite <- app_assoc. reflexivity.
  - intros E. apply (f_equal (@length ascii)) in E.
    rewrite !length_app in E. simpl in E. lia.
  - repeat rewrite existsb_app. rewrite Nw, N1, N2, N3, N4, N5. reflexivity.
  - exact N2.
  - exact N5.
Qed.

Lemma match_where_head (c : ascii) (t : str) (x : str * str * str) :
  match_where (c :: t) = Some x -> lower_char c = "w"%char.
Proof.
  unfold match_where.
  destruct (startswith (txt "where") (lower (c :: t))) eqn:W; [|discriminate].
  intros _. change (txt "where") with ["w"; "h"; "e"; "r"; "e"]%char in W.
  cbn [startswith lower map] in W.
  apply andb_true_iff in W. destruct W as [W _].
  apply Ascii.eqb_eq in W. congruence.
Qed.

Lemma repl_no_semi (col val : str) :
  existsb is_semi col = false -> existsb is_semi val = false ->
  existsb is_semi (repl col val) = false.
Proof.
  intros H1 H2. unfold repl. repeat rewrite existsb_app.
  rewrite H1, H2. reflexivity.
Qed.

(** ** The substitution *)

Lemma sub_where_skip (k : nat) (s : str) :
  sub_where k s = sub_where 0 (skipn k s).
Proof.
  revert k. induction s as [|c t IH]; intros k.
  - destruct k; reflexivity.
  - destruct k as [|k]; [reflexivity|]. cbn [sub_where skipn]. apply IH.
Qed.

Lemma skipn_length_app (a b : str) : skipn (length a) (a ++ b) = b.
Proof. induction a as [|c a IH]; [reflexivity | exact IH]. Qed.

Lemma fix_match (s col val rest : str) :
  match_where s = Some (col, val, rest) ->
  _fix_case_insensitive s = repl col val ++ _fix_case_insensitive rest.
Proof.
  intros H. destruct (match_where_spec _ _ _ _ H) as [m [Hs [Hm _]]].
  destruct m as [|c m]; [congruence|].
  unfold _fix_case_insensitive. subst s.
  rewrite <- app_comm_cons in *. cbn [sub_where]. rewrite H.
  f_equal. rewrite sub_where_skip. f_equal.
  replace (length (c :: m ++ rest) - length rest - 1) with (length m).
  - apply skipn_length_app.
  - cbn [length]. rewrite length_app. lia.
Qed.

Lemma fix_no_match (c : ascii) (t : str) :
  match_where (c :: t) = None ->
  _fix_case_insensitive (c :: t) = c :: _fix_case_insensitive t.
Proof.
  intros H. unfold _fix_case_insensitive. cbn [sub_where]. rewrite H. reflexivity.
Qed.

Lemma fix_other_head (c : ascii) (t : str) :
  lower_char c <> "w"%char ->
  _fix_case_insensitive (c :: t) = c :: _fix_case_insensitive t.
Proof.
  intros H. apply fix_no_match.
  destruct (match_where (c :: t)) as [x|] eqn:E; [|reflexivity].
  apply match_where_head in E. contradiction.
Qed.

(** The substitution leaves a terminated, semicolon-free statement
    terminated and semicolon-free. *)
Lemma fix_keeps_terminator (body : str) :
  existsb is_semi body = false ->
  exists body',
    _fix_case_insensitive (body ++ txt ";") = body' ++ txt ";" /\
    existsb is_semi body' = false.
Proof.
  remember (length body) as n eqn:Hn. revert body Hn.
  induction n as [n IH] using lt_wf_ind. intros body Hn Hns.
  destruct (match_where (body ++ txt ";")) as [[[col val] rest]|] eqn:M.
  - destruct (match_where_spec _ _ _ _ M) as [m [Hs [Hm [Nm [Nc Nv]]]]].
    rewrite (fix_match _ _ _ _ M).
    destruct (exists_last (l := rest)) as [r' [x Hr]].
    { intros ->. rewrite app_nil_r in Hs. subst m.
      rewrite existsb_app in Nm. simpl in Nm.
      rewrite orb_true_r in Nm. discriminate. }
    subst rest. rewrite app_assoc in Hs.
    apply app_inj_tail in Hs. destruct Hs as [Hb Hx]. subst x body.
    assert (Nr : existsb is_semi r' = false).
    { rewrite existsb_app in Hns. apply orb_false_iff in Hns. tauto. }
    destruct (IH (length r')) with (body := r') as [b [Eb Nb]];
      [|reflexivity|exact Nr|].
    { subst n. rewrite length_app. destruct m; [congruence|]. simpl. lia. }
    exists (repl col val ++ b). split.
    + change (r' ++ [";"%char]) with (r' ++ txt ";"). rewrite Eb.
      apply app_assoc.
    + rewrite existsb_app, Nb, (repl_no_semi _ _ Nc Nv). reflexivity.
  - destruct body as [|c t].
    + exists []. split; reflexivity.
    + rewrite <- app_comm_cons in *. rewrite (fix_no_match _ _ M).
      simpl in Hns. apply orb_false_iff in Hns. destruct Hns as [Nc Nt].
      destruct (IH (length t)) with (body := t) as [b [Eb Nb]];
        [subst n; simpl; lia | reflexivity | exact Nt |].
      exists (c :: b). split.
      * rewrite Eb. reflexivity.
      * simpl. rewrite Nc, Nb. reflexivity.
Qed.

(** The substitution leaves the six letters of SELECT where they are. *)
Lemma fix_keeps_select (s : str) :
  startswith (txt "select") (lower s) = true ->
  exists c rest,
    _fix_case_insensitive s = c :: rest /\ lower_char c = "s"%char /\
    startswith (txt "select") (lower (_fix_case_insensitive s)) = true.
Proof.
  intros H.
  destruct (select_prefix s H)
    as (c1 & c2 & c3 & c4 & c5 & c6 & rest & -> & H1 & H2 & H3 & H4 & H5 & H6).
  repeat (rewrite fix_other_head by congruence).
  eexists _, _. split; [reflexivity|]. split; [exact H1|].
  apply select_prefix_back; assumption.
Qed.

(** ** Extraction *)

Lemma startswith_app_r (pat s x : str) :
  startswith pat s = true -> startswith pat (s ++ x) = true.
Proof.
  intros H. apply startswith_split in H. rewrite H, <- app_assoc.
  apply startswith_app.
Qed.

Lemma ci_prefix_firstn (pat s : str) :
  startswith pat (lower s) = true -> lower (firstn (length pat) s) = pat.
Proof.
  intros H. destruct (ci_prefix_split _ _ H) as [a [Hs Ha]].
  rewrite <- (firstn_skipn (length pat) s) in Hs at 1.
  apply app_inv_tail in Hs. congruence.
Qed.

Lemma lazy_body_no_semi (s : str) : existsb is_semi (lazy_body s) = false.
Proof.
  induction s as [|c t IH]; simpl.
  - reflexivity.
  - destruct (is_semi c) eqn:E; [reflexivity|].
    destruct (Ascii.eqb c "010" && match t with [] => true | _ :: _ => false end);
      [reflexivity|].
    simpl. rewrite E, IH. reflexivity.
Qed.

(** Group 1 of the match begins with SELECT and holds no [;]. *)
Lemma group1_shape (s : str) :
  startswith (txt "select") (lower s) = true ->
  startswith (txt "select") (lower (firstn 6 s ++ lazy_body (skipn 6 s))) = true /\
  existsb is_semi (firstn 6 s ++ lazy_body (skipn 6 s)) = false.
Proof.
  intros E. pose proof (ci_prefix_firstn _ _ E) as F.
  change (length (txt "select")) with 6 in F. split.
  - rewrite lower_app, F. apply startswith_app.
  - rewrite existsb_app, lazy_body_no_semi, orb_false_r.
    rewrite <- existsb_is_semi_lower, F. reflexivity.
Qed.

Lemma search_select_some (s g : str) :
  search_select s = Some g ->
  startswith (txt "select") (lower g) = true /\ existsb is_semi g = false.
Proof.
  induction s as [|c t IH]; intros H.
  - discriminate H.
  - rewrite search_select_eq in H.
    destruct (startswith (txt "select") (lower (c :: t))) eqn:E.
    + pose proof (group1_shape _ E) as G. congruence.
    + apply IH. exact H.
Qed.

Lemma strip_keeps_select (g : str) :
  startswith (txt "select") (lower g) = true ->
  startswith (txt "select") (lower (strip g)) = true.
Proof.
  intros H.
  destruct (select_prefix g H)
    as (c1 & c2 & c3 & c4 & c5 & c6 & rest & -> & H1 & H2 & H3 & H4 & H5 & H6).
  unfold strip.
  rewrite lstrip_by_fixed by (exact (lowered_not_space _ _ H1 eq_refl)).
  rewrite (rstrip_by_head _ c1) by (exact (lowered_not_space _ _ H1 eq_refl)).
  rewrite (rstrip_by_head _ c2) by (exact (lowered_not_space _ _ H2 eq_refl)).
  rewrite (rstrip_by_head _ c3) by (exact (lowered_not_space _ _ H3 eq_refl)).
  rewrite (rstrip_by_head _ c4) by (exact (lowered_not_space _ _ H4 eq_refl)).
  rewrite (rstrip_by_head _ c5) by (exact (lowered_not_space _ _ H5 eq_refl)).
  rewrite (rstrip_by_head _ c6) by (exact (lowered_not_space _ _ H6 eq_refl)).
  apply select_prefix_back; assumption.
Qed.

(** The text chosen before the fallback test holds no [;]. *)
Lemma chosen_text_no_semi (text : str) :
  existsb is_semi
          match search_select text with
          | Some group1 => strip group1
          | None => strip (split_head ";" text)
          end = false.
Proof.
  destruct (search_select text) as [g|] eqn:E.
  - apply strip_no_semi. apply (search_select_some _ _ E).
  - apply strip_no_semi, split_head_no_semi.
Qed.

(** The shape of every statement [generate_sql] returns. *)
Lemma extract_sql_shape (content : option str) :
  (exists body, extract_sql content = body ++ txt ";" /\
                existsb is_semi body = false) /\
  (exists c rest, extract_sql content = c :: rest /\ lower_char c = "s"%char) /\
  startswith (txt "select") (lower (extract_sql content)) = true.
Proof.
  unfold extract_sql.
  pose proof (chosen_text_no_semi (text_only content)) as N.
  destruct (search_select (text_only content)) as [g|];
    match type of N with existsb _ ?t = _ => set (sql_text := t) in * end;
    (destruct (startswith (txt "select") (lower sql_text)) eqn:E; cbn [negb];
     [ rewrite (no_semi_rstrip_semi _ N);
       destruct (fix_keeps_terminator sql_text N) as [b [Eb Nb]];
       destruct (fix_keeps_select (sql_text ++ txt ";")) as [c [r [Ec [Hc Hs]]]];
       [ rewrite lower_app; apply startswith_app_r; exact E
       | split; [exists b; split; assumption|];
         split; [exists c, r; split; assumption | exact Hs] ]
     | split; [exists (txt "SELECT 1"); split; reflexivity|];
       split; [exists "S"%char, (txt "ELECT 1;"); split; reflexivity | reflexivity] ]).
Qed.

Lemma rstrip_by_snoc (p : ascii -> bool) (a : str) (c : ascii) :
  p c = true -> rstrip_by p (a ++ [c]) = rstrip_by p a.
Proof.
  intros Hc. induction a as [|x a IH].
  - simpl. rewrite Hc. reflexivity.
  - rewrite <- app_comm_cons, !rstrip_by_cons, IH.
    replace (forallb p (x :: a ++ [c])) with (forallb p (x :: a)); [reflexivity|].
    simpl. rewrite forallb_app. simpl. rewrite Hc, !andb_true_r. reflexivity.
Qed.

Lemma upper_select (s : str) :
  startswith (txt "select") (lower s) = true ->
  startswith (txt "SELECT") (upper s) = true.
Proof.
  intros H.
  destruct (select_prefix s H)
    as (c1 & c2 & c3 & c4 & c5 & c6 & rest & -> & H1 & H2 & H3 & H4 & H5 & H6).
  change (txt "SELECT") with ["S"; "E"; "L"; "E"; "C"; "T"]%char.
  cbn [startswith upper map].
  rewrite <- (upper_of_lower_char c1), <- (upper_of_lower_char c2),
    <- (upper_of_lower_char c3), <- (upper_of_lower_char c4),
    <- (upper_of_lower_char c5), <- (upper_of_lower_char c6).
  rewrite H1, H2, H3, H4, H5, H6. reflexivity.
Qed.

(** A statement of that shape passes the guardrail untouched: the keyword
    scan is skipped and the multi-statement rule finds nothing. *)
Lemma validate_sql_on_select (sql body : str) (c : ascii) (rest : str)
      (connection_id : Z) :
  sql = body ++ txt ";" -> existsb is_semi body = false ->
  sql = c :: rest -> lower_char c = "s"%char ->
  startswith (txt "select") (lower sql) = true ->
  startswith (txt "SELECT") (upper (strip sql)) = true /\
  Guardrails.validate_sql sql connection_id
  = {| Guardrails.is_safe := true;
       Guardrails.warnings := [];
       Guardrails.block_execution := false |}.
Proof.
  intros Hb Nb Hc Hs Hsel.
  assert (Hstrip : strip sql = sql).
  { destruct body as [|x m].
    - rewrite Hb in Hc. injection Hc as <- _. discriminate.
    - assert (x = c) by (rewrite Hb in Hc; cbn [app] in Hc; congruence).
      subst x. rewrite Hb.
      apply (strip_fixed c m ";"%char);
        [exact (lowered_not_space _ _ Hs eq_refl) | reflexivity]. }
  assert (Hsel' : startswith (txt "SELECT") (upper (strip sql)) = true).
  { rewrite Hstrip. apply upper_select. exact Hsel. }
  split; [exact Hsel'|].
  unfold Guardrails.validate_sql. rewrite Hsel'. cbn [negb].
  rewrite multi_statement_test, Hstrip, Hb.
  unfold rstrip_semi. change (txt ";") with [";"%char].
  rewrite rstrip_by_snoc by reflexivity.
  fold (rstrip_semi body). rewrite (no_semi_rstrip_semi _ Nb), Nb. reflexivity.
Qed.



(** C10: whatever the reply, also none at all, the returned statement
    begins with SELECT in some letter case and ends in exactly one [;],
    which is its only [;]; the guardrail therefore skips its keyword scan on
    it and lets it pass without a warning. *)
Theorem C10_generated_statement_shape (content : option str) (start stop : float) :
  let statement := sql (generate_sql content start stop) in
  startswith (txt "select") (lower statement) = true /\
  ends_in_one_semicolon statement /\
  (exists body, statement = body ++ txt ";" /\ existsb is_semi body = false) /\
  startswith (txt "SELECT") (upper (strip statement)) = true /\
  forall connection_id,
    Guardrails.validate_sql statement connection_id
    = {| Guardrails.is_safe := true;
         Guardrails.warnings := [];
         Guardrails.block_execution := false |}.
Proof.
  cbn [sql generate_sql].
  destruct (extract_sql_shape content) as [[body [Hb Nb]] [[c [rest [Hc Hs]]] Hsel]].
  split; [exact Hsel|].
  split; [exists body; split; [exact Hb | apply no_semi_rstrip_semi; exact Nb]|].
  split; [exists body; split; assumption|].
  split.
  - apply (validate_sql_on_select _ body c rest 0 Hb Nb Hc Hs Hsel).
  - intros connection_id.
    apply (validate_sql_on_select _ body c rest connection_id Hb Nb Hc Hs Hsel).
Qed.

(** The same, as the endpoint needs it. *)
Lemma generated_statement_passes_guardrail
      (content : option str) (start stop : float) (connection_id : Z) :
  startswith (txt "SELECT") (upper (strip (sql (generate_sql content start stop)))) = true /\
  Guardrails.validate_sql (sql (generate_sql content start stop)) connection_id
  = {| Guardrails.is_safe := true;
       Guardrails.warnings := [];
       Guardrails.block_execution := false |}.
Proof.
  cbn [sql generate_sql].
  destruct (extract_sql_shape content) as [[body [Hb Nb]] [[c [rest [Hc Hs]]] Hsel]].
  apply (validate_sql_on_select _ body c rest connection_id Hb Nb Hc Hs Hsel).
Qed.

End SqlChainFacts.

(* ================================================================== *)
(** * The schema catalog *)
(* ================================================================== *)

Section SchemaDiscoveryFacts.

Import Json.
Import SchemaDiscovery.

(** ** The raw structure under the dictionary operations *)

Lemma filter_is_dict_tables (ts : list Table) :
  filter is_dict (map table_json ts) = map table_json ts.
Proof.
  induction ts as [|t ts IH]; [reflexivity|].
  cbn [map filter table_json is_dict]. f_equal. exact IH.
Qed.

Lemma names_of_tables (ts : list Table) :
  mapM (fun t => get t (txt "name") JNull) (map table_json ts)
  = Ok (map (fun t => JStr (tbl_name t)) ts).
Proof.
  induction ts as [|t ts IH]; [reflexivity|].
  cbn [map mapM]. rewrite IH. reflexivity.
Qed.

Lemma names_of_raw_json (r : RawSchema) :
  names_of (raw_json r) = Ok (map (fun t => JStr (tbl_name t)) (tables r)).
Proof.
  unfold names_of, raw_json.
  change (get (JObj _) (txt "tables") (JArr []))
    with (Ok (JArr (map table_json (tables r)))).
  cbn [bind iter]. rewrite filter_is_dict_tables. apply names_of_tables.
Qed.

Lemma rebuild_columns (cs : list Column) :
  mapM rebuild_column (map column_json cs) = Ok (map column_json cs).
Proof.
  induction cs as [|c cs IH]; [reflexivity|].
  cbn [map mapM]. rewrite IH. reflexivity.
Qed.

Lemma rebuild_tables (ts : list Table) :
  mapM rebuild_table (map table_json ts) = Ok (map table_json ts).
Proof.
  induction ts as [|t ts IH]; [reflexivity|].
  cbn [map mapM]. rewrite IH.
  unfold rebuild_table, table_json.
  change (get (JObj _) (txt "schema") JNull) with (Ok (JStr (tbl_schema t))).
  change (get (JObj _) (txt "name") JNull) with (Ok (JStr (tbl_name t))).
  change (get (JObj _) (txt "columns") (JArr []))
    with (Ok (JArr (map column_json (tbl_columns t)))).
  cbn [bind iter]. rewrite rebuild_columns. reflexivity.
Qed.

(** The rebuilt copy of an introspected schema is that schema. *)
Lemma rebuild_raw_json (r : RawSchema) : rebuild (raw_json r) = Ok (raw_json r).
Proof.
  unfold rebuild, raw_json.
  change (get (JObj _) (txt "database") (JStr (txt "unknown")))
    with (Ok (JStr (database r))).
  change (get (JObj _) (txt "tables") (JArr []))
    with (Ok (JArr (map table_json (tables r)))).
  cbn [bind iter]. rewrite filter_is_dict_tables, rebuild_tables. reflexivity.
Qed.

(** ** Equality of names *)

Lemma py_eqb_str_r (x : json) (s : str) : py_eqb x (JStr s) = true -> x = JStr s.
Proof.
  destruct x; simpl; try discriminate.
  intros H. apply str_eqb_eq in H. congruence.
Qed.

Lemma py_eqb_str_l (x : json) (s : str) : py_eqb (JStr s) x = true -> x = JStr s.
Proof.
  destruct x; simpl; try discriminate.
  intros H. apply str_eqb_eq in H. congruence.
Qed.

Lemma member_of_names (x : json) (names : list str) :
  member x (map JStr names) = true -> In x (map JStr names).
Proof.
  unfold member. intros H. apply existsb_exists in H.
  destruct H as [y [Hy E]]. apply in_map_iff in Hy. destruct Hy as [s [<- Hs]].
  apply py_eqb_str_r in E. subst x. apply in_map. exact Hs.
Qed.

Lemma names_member (s : str) (l : list json) :
  member (JStr s) l = true -> In (JStr s) l.
Proof.
  unfold member. intros H. apply existsb_exists in H.
  destruct H as [y [Hy E]]. apply py_eqb_str_l in E. subst y. exact Hy.
Qed.

(** Equal as Python sets, when one side holds texts only, is equal as sets. *)
Lemma set_eqb_names (a : list json) (names : list str) :
  set_eqb a (map JStr names) = true -> same_set a (map JStr names).
Proof.
  unfold set_eqb. intros H. apply andb_true_iff in H. destruct H as [H1 H2].
  rewrite forallb_forall in H1, H2. intros x. split; intros Hx.
  - apply member_of_names. apply H1. exact Hx.
  - apply in_map_iff in Hx. destruct Hx as [s [<- Hs]].
    apply names_member. apply H2. apply in_map. exact Hs.
Qed.

Lemma member_refl_names (names : list str) (s : str) :
  In s names -> member (JStr s) (map JStr names) = true.
Proof.
  intros H. unfold member. apply existsb_exists. exists (JStr s). split.
  - apply in_map. exact H.
  - simpl. apply str_eqb_refl.
Qed.

Lemma set_eqb_refl_names (names : list str) :
  set_eqb (map JStr names) (map JStr names) = true.
Proof.
  assert (H : forallb (fun x => member x (map JStr names)) (map JStr names) = true).
  { apply forallb_forall. intros x Hx. apply in_map_iff in Hx.
    destruct Hx as [s [<- Hs]]. apply member_refl_names. exact Hs. }
  unfold set_eqb. rewrite H. reflexivity.
Qed.

Lemma hashable_names (names : list str) : forallb hashable (map JStr names) = true.
Proof. induction names as [|s l IH]; [reflexivity | exact IH]. Qed.

Lemma raw_names_as_texts (r : RawSchema) :
  map (fun t => JStr (tbl_name t)) (tables r) = map JStr (map tbl_name (tables r)).
Proof. rewrite map_map. reflexivity. Qed.

Lemma tableNames_raw_json (r : RawSchema) :
  tableNames (raw_json r) = map JStr (map tbl_name (tables r)).
Proof. unfold tableNames. rewrite names_of_raw_json. apply raw_names_as_texts. Qed.

(** ** What [_normalize_with_ai] guarantees *)

(** A reply that cannot be parsed: the raw structure comes back. *)
Lemma normalize_parse_failure (r : RawSchema) :
  _normalize_with_ai (raw_json r) None = Ok (raw_json r).
Proof.
  unfold _normalize_with_ai.
  change (get (raw_json r) (txt "database") (JStr (txt "unknown")))
    with (Ok (JStr (database r))).
  change (get (raw_json r) (txt "tables") (JArr []))
    with (Ok (JArr (map table_json (tables r)))).
  cbn [bind]. fold (raw_json r).
  rewrite names_of_raw_json. cbn [bind]. rewrite raw_names_as_texts.
  destruct (map JStr (map tbl_name (tables r))) as [|n ns] eqn:E.
  - cbn [bind]. apply rebuild_raw_json.
  - rewrite <- E. unfold to_set. rewrite hashable_names. cbn [bind].
    rewrite set_eqb_refl_names. reflexivity.
Qed.

(** The result is the reply itself or the raw structure. *)
Lemma normalize_cases (r : RawSchema) (loaded : option json) (s : json) :
  _normalize_with_ai (raw_json r) loaded = Ok s ->
  s = raw_json r \/
  (loaded = Some s /\ same_set (tableNames s) (tableNames (raw_json r))).
Proof.
  destruct loaded as [j|].
  - unfold _normalize_with_ai. cbn [bind].
    rewrite names_of_raw_json. cbn [bind]. rewrite raw_names_as_texts.
    destruct (names_of j) as [norm_tables|e] eqn:N; [|discriminate].
    cbn [bind]. destruct norm_tables as [|n ns].
    + cbn [bind]. rewrite rebuild_raw_json. intros H. left. congruence.
    + unfold to_set.
      destruct (forallb hashable (n :: ns)); [|discriminate].
      rewrite hashable_names. cbn [bind].
      destruct (set_eqb (n :: ns) _) eqn:E; cbn [negb].
      * intros H. injection H as <-. right. split; [reflexivity|].
        rewrite tableNames_raw_json. unfold tableNames. rewrite N.
        apply set_eqb_names. exact E.
      * rewrite rebuild_raw_json. intros H. left. congruence.
  - rewrite normalize_parse_failure. intros H. left. congruence.
Qed.

(** The table names of the result are those of the raw structure. *)
Lemma normalize_keeps_table_names (r : RawSchema) (loaded : option json) (s : json) :
  _normalize_with_ai (raw_json r) loaded = Ok s ->
  same_set (tableNames s) (tableNames (raw_json r)).
Proof.
  intros H. destruct (normalize_cases r loaded s H) as [->|[_ E]].
  - intros x. tauto.
  - exact E.
Qed.

(** A reply that is valid JSON but not an object is not caught. *)
Lemma normalize_non_object_raises (r : RawSchema) (items : list json) :
  _normalize_with_ai (raw_json r) (Some (JArr items)) = Raise AttributeError.
Proof.
  unfold _normalize_with_ai. cbn [bind]. rewrite names_of_raw_json. reflexivity.
Qed.

(** C1 fails on the code.  For the schema [orders(id, total)] and a reply
    that keeps the table [orders] but lists a third column, the reply is
    returned as the snapshot: its table names are those of the raw schema,
    its column names for [orders] are not, and the result is not the raw
    structure. *)
Theorem C1_invented_column_accepted :
  _normalize_with_ai (raw_json orders_raw) (Some invented_column_reply)
  = Ok invented_column_reply /\
  tableNames invented_column_reply = tableNames (raw_json orders_raw) /\
  columnNames (raw_json orders_raw) (txt "orders")
  = [JStr (txt "id"); JStr (txt "total")] /\
  columnNames invented_column_reply (txt "orders")
  = [JStr (txt "id"); JStr (txt "total"); JStr (txt "customer_email")] /\
  invented_column_reply <> raw_json orders_raw.
Proof.
  repeat split; try (vm_compute; reflexivity).
  intros H. vm_compute in H. discriminate H.
Qed.

(** ** The snapshot table *)

Lemma filter_map_commute {A : Type} (p : A -> bool) (f : A -> A) (l : list A) :
  (forall x, p (f x) = p x) -> filter p (map f l) = map f (filter p l).
Proof.
  intros H. induction l as [|a l IH]; [reflexivity|].
  cbn [map filter]. rewrite H. destruct (p a); cbn [map]; rewrite IH; reflexivity.
Qed.

Lemma for_connection_app (connection_id : Z) (a b : store) :
  for_connection connection_id (a ++ b)
  = for_connection connection_id a ++ for_connection connection_id b.
Proof. apply filter_app. Qed.

Lemma for_connection_set_schema_json
      (connection_id : Z) (snapshot : SchemaSnapshot) (normalized : json) (st : store) :
  for_connection connection_id (set_schema_json snapshot normalized st)
  = set_schema_json snapshot normalized (for_connection connection_id st).
Proof.
  unfold for_connection, set_schema_json. apply filter_map_commute.
  intros s. destruct (Z.eqb (id s) (id snapshot)); reflexivity.
Qed.

Lemma length_set_schema_json (snapshot : SchemaSnapshot) (normalized : json) (st : store) :
  length (set_schema_json snapshot normalized st) = length st.
Proof. apply length_map. Qed.

(** What one call does to the table: nothing, an update in place of the
    one snapshot of the connection, or one new row when the connection had
    none. *)
Lemma discover_and_save_store
      (st : store) (connection_id : Z) (introspected : result RawSchema)
      (loaded : option json) (commit : option exn) :
  let st' := snd (discover_and_save st connection_id introspected loaded commit) in
  st' = st \/
  (exists snapshot normalized,
      for_connection connection_id st = [snapshot] /\
      st' = set_schema_json snapshot normalized st) \/
  (exists snapshot,
      for_connection connection_id st = [] /\
      SchemaDiscovery.connection_id snapshot = connection_id /\
      st' = st ++ [snapshot]).
Proof.
  unfold discover_and_save.
  destruct introspected as [raw|e]; [|left; reflexivity]. cbn [bind].
  destruct (_normalize_with_ai (raw_json raw) loaded) as [normalized|e];
    [|left; reflexivity]. cbn [bind].
  destruct (for_connection connection_id st) as [|s [|s' rest]] eqn:F;
    cbn [one_or_none bind].
  - destruct (get normalized (txt "database") JNull) as [db|e];
      [|left; reflexivity]. cbn [bind].
    destruct commit as [e|]; [left; reflexivity|].
    right. right. eexists. split; [reflexivity | split; [|reflexivity]]. reflexivity.
  - destruct commit as [e|]; [left; reflexivity|].
    right. left. exists s, normalized. split; reflexivity.
  - left. reflexivity.
Qed.

Lemma discover_and_save_keeps_at_most_one
      (st : store) (connection_id : Z) (introspected : result RawSchema)
      (loaded : option json) (commit : option exn) :
  at_most_one st ->
  at_most_one (snd (discover_and_save st connection_id introspected loaded commit)).
Proof.
  intros H.
  destruct (discover_and_save_store st connection_id introspected loaded commit)
    as [E | [(s & n & F & E) | (s & F & C & E)]]; rewrite E; clear E.
  - exact H.
  - intros cid. rewrite for_connection_set_schema_json, length_set_schema_json.
    apply H.
  - intros cid. rewrite for_connection_app, length_app.
    unfold for_connection at 2. cbn [filter]. rewrite C.
    destruct (Z.eqb connection_id cid) eqn:Q.
    + apply Z.eqb_eq in Q. subst cid. rewrite F. simpl. lia.
    + pose proof (H cid). simpl. lia.
Qed.

Lemma after_calls_at_most_one (calls : list Call) (st : store) :
  at_most_one st -> at_most_one (after_calls st calls).
Proof.
  revert st. induction calls as [|c calls IH]; intros st H.
  - exact H.
  - apply IH. apply discover_and_save_keeps_at_most_one. exact H.
Qed.

Lemma at_most_one_empty : at_most_one [].
Proof. intros cid. simpl. lia. Qed.

(** The snapshot of a repeated discovery carries the new schema. *)
Lemma discover_and_save_replaces
      (st : store) (connection_id : Z) (raw : RawSchema)
      (loaded : option json) (snapshot : SchemaSnapshot) (normalized : json) :
  for_connection connection_id st = [snapshot] ->
  _normalize_with_ai (raw_json raw) loaded = Ok normalized ->
  discover_and_save st connection_id (Ok raw) loaded None
  = (Ok normalized, set_schema_json snapshot normalized st).
Proof.
  intros F N. unfold discover_and_save. cbn [bind]. rewrite N, F. reflexivity.
Qed.

End SchemaDiscoveryFacts.

(* ================================================================== *)
(** * The generate endpoint *)
(* ================================================================== *)

Section QueryRouteFacts.

Import QueryRoutes.

(** Whatever the service returns, a blocked statement leaves the handler
    as status 500: the handler's own [except Exception] catches the 400 it
    has just raised. *)
Lemma generate_blocked_is_500
      (sql_service : QueryRequest -> result SqlChain.QueryResponse)
      (exception_text : exn -> str)
      (request : QueryRequest) (result : SqlChain.QueryResponse) :
  sql_service request = Ok result ->
  Guardrails.block_execution
    (Guardrails.validate_sql (SqlChain.sql result) (connection_id request)) = true ->
  exists detail,
    generate_sql sql_service exception_text request
    = Raise (HTTPException 500 detail).
Proof.
  intros Hs Hb. unfold generate_sql. rewrite Hs. cbn [bind].
  assert (Hsafe : Guardrails.is_safe
                    (Guardrails.validate_sql (SqlChain.sql result)
                                             (connection_id request)) = false).
  { unfold Guardrails.validate_sql in *. cbn in *. rewrite Hb. reflexivity. }
  rewrite Hsafe, Hb. cbn [negb]. eexists. reflexivity.
Qed.

(** With the repository's own service the handler never reaches that
    branch: every generated statement passes the guardrail.  The handler
    fails only when the service itself has raised, and then with status
    500. *)
Lemma generate_with_repository_service
      (reply : QueryRequest -> result (option str)) (start stop : float)
      (exception_text : exn -> str) (request : QueryRequest) :
  generate_sql (repository_service reply start stop) exception_text request
  = match reply request with
    | Ok content => Ok (SqlChain.generate_sql content start stop)
    | Raise e =>
        Raise (HTTPException 500 (txt "Failed to generate SQL: " ++ exception_text e))
    end.
Proof.
  unfold generate_sql, repository_service.
  destruct (reply request) as [content|e]; [|reflexivity]. cbn [bind].
  destruct (generated_statement_passes_guardrail
              content start stop (connection_id request)) as [_ H].
  rewrite H. reflexivity.
Qed.

(** The same branch at work on a service that is not the repository's: its
    stacked statements are blocked, and the handler answers with status 500,
    a server error; the 400 and the guardrail's warning survive only inside
    the text of the 500. *)
Example generate_stacked_statements_is_500 (exception_text : exn -> str) :
  generate_sql stacking_service exception_text sample_request
  = Raise (HTTPException 500
             (txt "Failed to generate SQL: "
              ++ exception_text
                   (HTTPException 400
                      (txt "SQL blocked by guardrails: Multiple SQL statements detected; only single SELECT allowed")))) /\
  is_server_error 500 = true /\ is_client_error 500 = false.
Proof. repeat split. Qed.

End QueryRouteFacts.

(* ================================================================== *)
(** * More on the guardrail *)
(* ================================================================== *)

Section GuardrailMore.

Import Guardrails.

Lemma forallb_true_lstrip (p : ascii -> bool) (s : str) :
  forallb p s = true -> lstrip_by p s = [].
Proof.
  induction s as [|c t IH]; simpl; intros H; [reflexivity|].
  apply andb_true_iff in H. destruct H as [Hc Ht]. rewrite Hc. apply IH, Ht.
Qed.

Lemma lstrip_by_app_class (p : ascii -> bool) (a b : str) :
  forallb p a = true -> lstrip_by p (a ++ b) = lstrip_by p b.
Proof.
  induction a as [|c a IH]; simpl; intros H; [reflexivity|].
  apply andb_true_iff in H. destruct H as [Hc Ha]. rewrite Hc. apply IH, Ha.
Qed.

Lemma lstrip_by_app_keep (p : ascii -> bool) (s b : str) :
  forallb p s = false -> lstrip_by p (s ++ b) = lstrip_by p s ++ b.
Proof.
  induction s as [|c t IH]; simpl; intros H; [discriminate|].
  destruct (p c); [apply IH, H | reflexivity].
Qed.

Lemma rstrip_by_app_class (p : ascii -> bool) (a w : str) :
  forallb p w = true -> rstrip_by p (a ++ w) = rstrip_by p a.
Proof.
  intros Hw. induction a as [|c a IH].
  - simpl. apply rstrip_by_nil_iff in Hw. rewrite Hw. reflexivity.
  - rewrite <- app_comm_cons, !rstrip_by_cons, IH.
    replace (forallb p (c :: a ++ w)) with (forallb p (c :: a)); [reflexivity|].
    simpl. rewrite forallb_app, Hw, andb_true_r. reflexivity.
Qed.

(** White space around a text does not change its [strip]. *)
Lemma strip_padding (ws1 s ws2 : str) :
  forallb isspace ws1 = true -> forallb isspace ws2 = true ->
  strip (ws1 ++ s ++ ws2) = strip s.
Proof.
  intros H1 H2. unfold strip. rewrite lstrip_by_app_class by exact H1.
  destruct (forallb isspace s) eqn:E.
  - rewrite (forallb_true_lstrip _ _ E).
    rewrite forallb_true_lstrip; [reflexivity|].
    rewrite forallb_app, E, H2. reflexivity.
  - rewrite lstrip_by_app_keep by exact E.
    apply rstrip_by_app_class. exact H2.
Qed.

Lemma strip_lower (s : str) : strip (lower s) = lower (strip s).
Proof.
  unfold strip, lower.
  rewrite lstrip_by_map by apply isspace_lower_char.
  apply rstrip_by_map, isspace_lower_char.
Qed.

Lemma upper_lower (s : str) : upper (lower s) = upper s.
Proof.
  unfold upper, lower. rewrite map_map.
  apply map_ext. intros c. apply upper_of_lower_char.
Qed.

(** X1: for a statement of ASCII characters, the decision of
    [validate_sql] does not depend on the letter case of the statement, on
    white space before or after it, or on the connection id. *)
Theorem validate_sql_case_space_connection
        (sql ws1 ws2 : str) (connection_id connection_id' : Z) :
  forallb is_ascii sql = true ->
  forallb isspace ws1 = true -> forallb isspace ws2 = true ->
  validate_sql (ws1 ++ lower sql ++ ws2) connection_id
  = validate_sql sql connection_id'.
Proof.
  intros _ H1 H2. unfold validate_sql.
  rewrite (strip_padding _ _ _ H1 H2), strip_lower, upper_lower. reflexivity.
Qed.

Lemma validate_sql_case_space_connection_witness :
  validate_sql ("009"%char :: " "%char :: lower (txt "Drop Table T") ++ ["010"%char]) 7
  = validate_sql (txt "Drop Table T") 1.
Proof.
  apply (validate_sql_case_space_connection
           (txt "Drop Table T") ["009"%char; " "%char] ["010"%char] 7 1).
  - reflexivity.
  - reflexivity.
  - reflexivity.
Defined.

Lemma scan_keywords_agree (u : str) (kws : list str) (st : list str * bool) :
  (snd st = false <-> fst st = []) ->
  (snd (fold_left (scan_keyword u) kws st) = false
   <-> fst (fold_left (scan_keyword u) kws st) = []).
Proof.
  revert st. induction kws as [|k kws IH]; intros st H; simpl.
  - exact H.
  - apply IH. unfold scan_keyword. destruct (contains k u); [|exact H].
    simpl. split; [discriminate|].
    intros E. apply app_eq_nil in E. destruct E as [_ E]. discriminate.
Qed.

(** X2: the three fields of a decision agree: [is_safe] is the negation of
    [block_execution], and there are warnings exactly when the statement is
    blocked. *)
Theorem validate_sql_fields_agree (sql : str) (connection_id : Z) :
  is_safe (validate_sql sql connection_id)
  = negb (block_execution (validate_sql sql connection_id)) /\
  (block_execution (validate_sql sql connection_id) = false
   <-> warnings (validate_sql sql connection_id) = []).
Proof.
  split; [reflexivity|].
  unfold validate_sql. cbn [block_execution warnings].
  set (u := upper (strip sql)).
  assert (H : forall st1 : list str * bool,
             (snd st1 = false <-> fst st1 = []) ->
             snd (if contains (txt ";") (rstrip_semi (strip u))
                  then (fst st1 ++ [multi_statement_warning], true) else st1) = false
             <-> fst (if contains (txt ";") (rstrip_semi (strip u))
                      then (fst st1 ++ [multi_statement_warning], true) else st1) = []).
  { intros st1 H1. destruct (contains (txt ";") (rstrip_semi (strip u))); [|exact H1].
    simpl. split; [discriminate|].
    intros E. apply app_eq_nil in E. destruct E as [_ E]. discriminate. }
  apply H. destruct (negb (startswith (txt "SELECT") u)).
  - apply scan_keywords_agree. simpl. tauto.
  - simpl. tauto.
Qed.

(** X3: a statement is blocked in exactly two situations: it does not
    begin with SELECT and its upper-cased text holds an entry of the
    block-list, or a [;] is left in it once white space and the trailing
    [;] are removed.  In particular a statement that begins with SELECT is
    never blocked for a keyword. *)
Theorem validate_sql_blocks_exactly (sql : str) (connection_id : Z) :
  block_execution (validate_sql sql connection_id) = true
  <-> (startswith (txt "SELECT") (upper (strip sql)) = false /\
       exists kw, In kw dangerous_keywords /\
                  contains kw (upper (strip sql)) = true)
      \/ In ";"%char (rstrip_semi (strip sql)).
Proof.
  rewrite validate_sql_block, orb_true_iff, andb_true_iff, negb_true_iff.
  rewrite !existsb_exists.
  split.
  - intros [H|[c [Hc E]]]; [left; exact H|right].
    unfold is_semi in E. apply Ascii.eqb_eq in E. subst c. exact Hc.
  - intros [H|H]; [left; exact H|right].
    exists ";"%char. split; [exact H|reflexivity].
Qed.

End GuardrailMore.

(* ================================================================== *)
(** * More on the executor *)
(* ================================================================== *)

Section ExecutorMore.

Import Executor.
Local Open Scope Z_scope.

Lemma execute_sql_echoes
      (w : World) (sql : str) (connection_id timeout_seconds max_rows : Z)
      (r : QueryExecutionResponse) :
  execute_sql w sql connection_id timeout_seconds max_rows = Ok r ->
  sql_executed r = sql.
Proof.
  unfold execute_sql.
  destruct (_get_connection_string w connection_id) as [conn_str|e]; [|discriminate].
  cbn [bind].
  match goal with
  | |- match ?a with _ => _ end = _ -> _ => destruct a as [[rs cs]|e]
  end.
  - intros H. injection H as <-. reflexivity.
  - destruct e; try discriminate. intros H. injection H as <-. reflexivity.
Qed.

(** X4: whatever [execute_sql] returns echoes the submitted statement,
    carries no warnings and the elapsed time; a success has no error and
    counts its rows; a failure has no rows, no columns, a count of zero and
    an error message. *)
Theorem execute_sql_response_invariant
        (w : World) (sql : str) (connection_id timeout_seconds max_rows : Z)
        (r : QueryExecutionResponse) :
  execute_sql w sql connection_id timeout_seconds max_rows = Ok r ->
  sql_executed r = sql /\
  warnings r = [] /\
  execution_time_ms r = elapsed_ms (start w) (stop w) /\
  (success r = true -> error r = None /\ row_count r = Z.of_nat (length (rows r))) /\
  (success r = false ->
   rows r = [] /\ columns r = [] /\ row_count r = 0 /\ exists msg, error r = Some msg).
Proof.
  unfold execute_sql.
  destruct (_get_connection_string w connection_id) as [conn_str|e]; [|discriminate].
  cbn [bind].
  match goal with
  | |- match ?a with _ => _ end = _ -> _ => destruct a as [[rs cs]|e]
  end.
  - intros H. injection H as <-. cbn. repeat split; try discriminate; reflexivity.
  - destruct e; try discriminate.
    intros H. injection H as <-. cbn. repeat split; try discriminate.
    eexists. reflexivity.
Qed.

Lemma execute_sql_response_invariant_witness :
  (exists r,
      execute_sql breaking_world (txt "SELECT id FROM orders") 1 30 1000 = Ok r /\
      sql_executed r = txt "SELECT id FROM orders" /\
      warnings r = [] /\
      execution_time_ms r = 2500 /\
      rows r = [] /\ columns r = [] /\ row_count r = 0 /\
      exists msg, error r = Some msg) /\
  (exists r,
      execute_sql ExecuteRoutes.nine_ms_world (txt "SELECT id FROM orders") 1 30 1000
      = Ok r /\
      sql_executed r = txt "SELECT id FROM orders" /\
      warnings r = [] /\
      execution_time_ms r = 9 /\
      error r = None /\ row_count r = Z.of_nat (length (rows r))).
Proof.
  split.
  - eexists. split; [reflexivity|].
    destruct (execute_sql_response_invariant
                breaking_world (txt "SELECT id FROM orders") 1 30 1000 _ eq_refl)
      as (H1 & H2 & H3 & _ & H5).
    destruct (H5 eq_refl) as (R & C & N & M).
    repeat split; assumption.
  - eexists. split; [reflexivity|].
    destruct (execute_sql_response_invariant
                ExecuteRoutes.nine_ms_world (txt "SELECT id FROM orders") 1 30 1000
                _ eq_refl)
      as (H1 & H2 & H3 & H4 & _).
    destruct (H4 eq_refl) as (E & N).
    repeat split; assumption.
Defined.

Lemma filter_none {A : Type} (p : A -> bool) (l : list A) :
  (forall x, In x l -> p x = false) -> filter p l = [].
Proof.
  induction l as [|a l IH]; intros H; [reflexivity|].
  simpl. rewrite (H a (or_introl eq_refl)). apply IH.
  intros x Hx. apply H. right. exact Hx.
Qed.

(** X5: for a connection id that is not in the connection store the call
    raises the lookup's [ValueError]; the target database, the statement
    and the limits play no part. *)
Theorem execute_sql_unknown_connection_raises
        (w : World) (sql : str) (connection_id timeout_seconds max_rows : Z) :
  (forall c, In c (connections w) -> id c <> connection_id) ->
  execute_sql w sql connection_id timeout_seconds max_rows
  = Raise (ConnectionNotFound connection_id).
Proof.
  intros H. unfold execute_sql, _get_connection_string.
  rewrite filter_none; [reflexivity|].
  intros c Hc. apply Z.eqb_neq. apply H. exact Hc.
Qed.

Lemma execute_sql_unknown_connection_raises_witness :
  execute_sql three_row_world (txt "SELECT 1") 2 30 1000
  = Raise (ConnectionNotFound 2).
Proof.
  apply (execute_sql_unknown_connection_raises three_row_world (txt "SELECT 1") 2 30 1000).
  intros c [<-|[]]. discriminate.
Defined.

Lemma fetch_rows_prefix (columns : list str) (max_rows : Z) (broken : option exn)
      (fetched : list (list db_value)) (rows out : list row_dict) (count : Z) :
  fetch_rows columns max_rows fetched broken rows count = Ok out ->
  exists k, out = rows ++ map (make_row columns) (firstn k fetched).
Proof.
  revert rows count. induction fetched as [|row rest IH]; intros rows count H.
  - simpl in H. destruct broken; [discriminate|]. injection H as <-.
    exists 0%nat. simpl. symmetry. apply app_nil_r.
  - cbn [fetch_rows] in H. destruct (count + 1 >=? max_rows).
    + injection H as <-. exists 1%nat. reflexivity.
    + destruct (IH _ _ H) as [k Hk]. exists (S k).
      rewrite Hk, <- app_assoc. reflexivity.
Qed.

(** X6: the rows of a successful execution are the first rows of the
    cursor, in the cursor's order, each turned into a dictionary over the
    cursor's keys; a statement that returns no rows gives a success with no
    rows and no columns. *)
Theorem execute_sql_rows_from_cursor
        (w : World) (sql : str) (connection_id timeout_seconds max_rows : Z)
        (conn_str : str) (returns_rows : bool) (keys : list str)
        (fetched : list (list db_value)) (broken : option exn)
        (r : QueryExecutionResponse) :
  _get_connection_string w connection_id = Ok conn_str ->
  run w conn_str sql = Executed returns_rows keys fetched broken ->
  execute_sql w sql connection_id timeout_seconds max_rows = Ok r ->
  success r = true ->
  if returns_rows
  then columns r = keys /\
       exists k, rows r = map (make_row keys) (firstn k fetched)
  else columns r = [] /\ rows r = [].
Proof.
  intros Hc Hr H Hs. unfold execute_sql in H. rewrite Hc in H. cbn [bind] in H.
  rewrite Hr in H. destruct returns_rows.
  - destruct (fetch_rows keys max_rows fetched broken [] 0) as [out|e] eqn:F.
    + cbn [bind] in H. injection H as <-. cbn. split; [reflexivity|].
      destruct (fetch_rows_prefix _ _ _ _ _ _ _ F) as [k Hk]. exists k. exact Hk.
    + cbn [bind] in H. destruct e; try discriminate.
      injection H as <-. discriminate.
  - injection H as <-. cbn. split; reflexivity.
Qed.

Lemma execute_sql_rows_from_cursor_witness :
  exists r,
    execute_sql three_row_world (txt "SELECT id FROM orders") 1 30 2 = Ok r /\
    columns r = [txt "id"] /\
    exists k, rows r = map (make_row [txt "id"]) (firstn k [[VInt 1]; [VInt 2]; [VInt 3]]).
Proof.
  eexists. split; [reflexivity|].
  apply (execute_sql_rows_from_cursor
           three_row_world (txt "SELECT id FROM orders") 1 30 2
           (txt "postgresql://db/shop") true [txt "id"]
           [[VInt 1]; [VInt 2]; [VInt 3]] None).
  - reflexivity.
  - reflexivity.
  - reflexivity.
  - reflexivity.
Defined.

Lemma dict_set_fresh (k : str) (v : db_value) (d : row_dict) :
  ~ In k (map fst d) -> dict_set k v d = d ++ [(k, v)].
Proof.
  induction d as [|[k' v'] d IH]; intros H; [reflexivity|].
  simpl. destruct (str_eqb k k') eqn:E.
  - apply str_eqb_eq in E. subst k'. exfalso. apply H. left. reflexivity.
  - rewrite IH; [reflexivity|]. intros Hin. apply H. right. exact Hin.
Qed.

Lemma make_row_fold (columns : list str) (row : list db_value) (d : row_dict) :
  NoDup columns ->
  (forall k, In k columns -> ~ In k (map fst d)) ->
  fold_left (fun d kv => dict_set (fst kv) (snd kv) d) (combine columns row) d
  = d ++ combine columns row.
Proof.
  revert row d. induction columns as [|c cs IH]; intros row d Hn Hd.
  - simpl. symmetry. apply app_nil_r.
  - destruct row as [|v vs]; [simpl; symmetry; apply app_nil_r|].
    cbn [combine fold_left fst snd].
    rewrite dict_set_fresh by (apply Hd; left; reflexivity).
    inversion Hn as [|? ? Hc Hcs]; subst.
    rewrite IH; [rewrite <- app_assoc; reflexivity | exact Hcs |].
    intros k Hk Hin. rewrite map_app in Hin. apply in_app_or in Hin.
    destruct Hin as [Hin|[<-|[]]].
    + apply (Hd k); [right; exact Hk | exact Hin].
    + apply Hc. exact Hk.
Qed.

Lemma combine_unzip (columns : list str) (row : list db_value) :
  length row = length columns ->
  map fst (combine columns row) = columns /\ map snd (combine columns row) = row.
Proof.
  revert row. induction columns as [|c cs IH]; intros [|v vs] H;
    try discriminate; [split; reflexivity|].
  injection H as H. destruct (IH vs H) as [A B].
  cbn [combine map fst snd]. rewrite A, B. split; reflexivity.
Qed.

(** X7: when the column names of a result are pairwise distinct and the
    row has one value per column, the row dictionary lists the columns in
    the cursor's order, each with the value at its position: nothing is
    lost, merged or reordered. *)
Theorem make_row_distinct_columns (columns : list str) (row : list db_value) :
  NoDup columns -> length row = length columns ->
  make_row columns row = combine columns row /\
  map fst (make_row columns row) = columns /\
  map snd (make_row columns row) = row.
Proof.
  intros H L.
  assert (E : make_row columns row = combine columns row).
  { unfold make_row. rewrite make_row_fold; [reflexivity | exact H |].
    intros k _ []. }
  rewrite E. split; [reflexivity|]. apply combine_unzip. exact L.
Qed.

Lemma make_row_distinct_columns_witness :
  make_row [txt "id"; txt "total"] [VInt 1; VText (txt "9.50")]
  = [(txt "id", VInt 1); (txt "total", VText (txt "9.50"))].
Proof.
  apply (make_row_distinct_columns [txt "id"; txt "total"] [VInt 1; VText (txt "9.50")]).
  - repeat constructor; simpl; intuition discriminate.
  - reflexivity.
Defined.

(** With a repeated column name the later value takes the place of the
    earlier one. *)
Example make_row_repeated_column :
  make_row [txt "id"; txt "id"] [VInt 1; VInt 2] = [(txt "id", VInt 2)].
Proof. reflexivity. Qed.

(** X8: only [SQLAlchemyError] is turned into a failure response; any other
    exception out of the engine leaves [execute_sql] as it is. *)
Theorem execute_sql_other_exception_escapes
        (w : World) (sql : str) (connection_id timeout_seconds max_rows : Z)
        (conn_str : str) (e : exn) :
  _get_connection_string w connection_id = Ok conn_str ->
  run w conn_str sql = Raises e ->
  (forall msg, e <> SQLAlchemyError msg) ->
  execute_sql w sql connection_id timeout_seconds max_rows = Raise e.
Proof.
  intros Hc Hr He. unfold execute_sql. rewrite Hc. cbn [bind]. rewrite Hr.
  destruct e; try reflexivity. exfalso. apply (He msg). reflexivity.
Qed.

Lemma execute_sql_other_exception_escapes_witness :
  execute_sql ExecuteRoutes.driverless_world (txt "SELECT 1") 1 30 1000
  = Raise (OtherException (txt "No module named psycopg2")).
Proof.
  apply (execute_sql_other_exception_escapes
           ExecuteRoutes.driverless_world (txt "SELECT 1") 1 30 1000
           (txt "postgresql://db/shop")).
  - reflexivity.
  - reflexivity.
  - discriminate.
Defined.

End ExecutorMore.

(* ================================================================== *)
(** * More on the generator *)
(* ================================================================== *)

Section SqlChainMore.

Import SqlChain.

(** ** Replies without backticks *)

Lemma remove_fences_no_tick (s : str) :
  existsb is_tick s = false -> remove_fences s = s.
Proof.
  unfold remove_fences. induction s as [|c t IH]; intros H; [reflexivity|].
  simpl in H. apply orb_false_iff in H. destruct H as [Hc Ht].
  cbn [remove_fences_from]. unfold fence_match.
  change fence with ["`"; "`"; "`"]%char. cbn [startswith].
  unfold is_tick in Hc. rewrite Ascii.eqb_sym, Hc. cbn [andb].
  rewrite (IH Ht). reflexivity.
Qed.

Lemma replace_char_absent (a b : ascii) (s : str) :
  existsb (fun c => Ascii.eqb c a) s = false -> replace_char a b s = s.
Proof.
  unfold replace_char. induction s as [|c t IH]; intros H; [reflexivity|].
  simpl in H. apply orb_false_iff in H. destruct H as [Hc Ht].
  simpl. rewrite Hc, (IH Ht). reflexivity.
Qed.

Lemma no_tick_infix (a x b : str) :
  existsb is_tick (a ++ x ++ b) = false -> existsb is_tick x = false.
Proof.
  rewrite !existsb_app. intros H.
  apply orb_false_iff in H. destruct H as [_ H].
  apply orb_false_iff in H. tauto.
Qed.

Lemma text_only_no_tick (reply : str) :
  existsb is_tick reply = false -> text_only (Some reply) = strip reply.
Proof.
  intros H. unfold text_only.
  assert (N : existsb is_tick (strip reply) = false).
  { destruct (strip_infix reply) as [a [b E]]. rewrite E in H.
    exact (no_tick_infix _ _ _ H). }
  rewrite (remove_fences_no_tick _ N). apply replace_char_absent. exact N.
Qed.

(** ** The lazy capture *)

Lemma rstrip_by_fixed_tail (p : ascii -> bool) (a y : str) :
  rstrip_by p (a ++ y) = a ++ y -> rstrip_by p y = y.
Proof.
  intros H. destruct (forallb p y) eqn:E.
  - destruct y as [|c y]; [reflexivity|].
    rewrite rstrip_by_app_class in H by exact E.
    destruct (rstrip_by_split p a) as [w [Hw _]].
    apply (f_equal (@length ascii)) in H. apply (f_equal (@length ascii)) in Hw.
    rewrite !length_app in *. simpl in H. lia.
  - rewrite rstrip_by_app_keep in H by exact E.
    apply app_inv_head in H. exact H.
Qed.

Lemma lazy_body_fixed (y : str) :
  existsb is_semi y = false -> rstrip_by isspace y = y -> lazy_body y = y.
Proof.
  induction y as [|c t IH]; intros Hs Hr; [reflexivity|].
  simpl in Hs. apply orb_false_iff in Hs. destruct Hs as [Hc Ht].
  rewrite rstrip_by_cons in Hr.
  destruct (forallb isspace (c :: t)) eqn:F; [discriminate|].
  injection Hr as Hr. cbn [lazy_body]. rewrite Hc.
  destruct (Ascii.eqb c "010" && match t with [] => true | _ :: _ => false end) eqn:E.
  - apply andb_true_iff in E. destruct E as [E1 E2].
    destruct t; [|discriminate]. apply Ascii.eqb_eq in E1. subst c. discriminate.
  - rewrite (IH Ht Hr). reflexivity.
Qed.

(** ** The substitution on text without the word *)

Lemma fix_no_where (s : str) :
  contains (txt "where") (lower s) = false -> _fix_case_insensitive s = s.
Proof.
  induction s as [|c t IH]; intros H; [reflexivity|].
  rewrite contains_eq in H. apply orb_false_iff in H. destruct H as [H1 H2].
  rewrite fix_no_match.
  - rewrite (IH H2). reflexivity.
  - unfold match_where. rewrite H1. reflexivity.
Qed.

Lemma startswith_cut (pat s : str) (c : ascii) (b : str) :
  ~ In c pat -> startswith pat (s ++ c :: b) = startswith pat s.
Proof.
  revert s. induction pat as [|p pt IH]; intros s H; [destruct s; reflexivity|].
  destruct s as [|x t]; simpl.
  - destruct (Ascii.eqb p c) eqn:E; [|reflexivity].
    apply Ascii.eqb_eq in E. exfalso. apply H. left. exact E.
  - rewrite IH; [reflexivity|]. intros Hin. apply H. right. exact Hin.
Qed.

Lemma contains_snoc (pat s : str) (c : ascii) :
  pat <> [] -> ~ In c pat -> contains pat (s ++ [c]) = contains pat s.
Proof.
  intros Hp H. induction s as [|x t IH].
  - destruct pat as [|p pt]; [congruence|]. simpl.
    destruct (Ascii.eqb p c) eqn:E; [|reflexivity].
    apply Ascii.eqb_eq in E. exfalso. apply H. left. exact E.
  - rewrite <- app_comm_cons, !(contains_eq pat (x :: _)), IH.
    rewrite app_comm_cons, startswith_cut by exact H. reflexivity.
Qed.

Lemma contains_infix_false (pat a x b : str) :
  contains pat (a ++ x ++ b) = false -> contains pat x = false.
Proof.
  intros H. destruct (contains pat x) eqn:E; [|reflexivity].
  destruct (contains_split _ _ E) as [u [v Hx]]. subst x.
  rewrite <- !app_assoc in H. rewrite app_assoc in H.
  rewrite contains_app in H. discriminate.
Qed.

(** X9: a reply that is one plain SELECT statement, without backticks and
    without a semicolon, comes back trimmed, terminated by [;] and passed
    through the ILIKE rewrite; when the word WHERE does not occur in it, it
    comes back trimmed and terminated, otherwise unchanged. *)
Theorem extract_sql_plain_statement (reply : str) :
  existsb is_tick reply = false ->
  existsb is_semi reply = false ->
  startswith (txt "select") (lower (strip reply)) = true ->
  extract_sql (Some reply) = _fix_case_insensitive (strip reply ++ txt ";") /\
  (contains (txt "where") (lower reply) = false ->
   extract_sql (Some reply) = strip reply ++ txt ";").
Proof.
  intros Ht Hs Hsel.
  assert (E : extract_sql (Some reply)
              = _fix_case_insensitive (strip reply ++ txt ";")).
  { unfold extract_sql. rewrite (text_only_no_tick _ Ht).
    set (x := strip reply) in *.
    assert (Nx : existsb is_semi x = false) by (apply strip_no_semi; exact Hs).
    assert (Rx : rstrip_by isspace x = x) by (apply rstrip_by_idem).
    rewrite search_select_eq, Hsel.
    rewrite lazy_body_fixed.
    - rewrite firstn_skipn.
      replace (strip x) with x by (unfold x; symmetry; apply strip_idem).
      rewrite Hsel. cbn [negb]. rewrite (no_semi_rstrip_semi _ Nx). reflexivity.
    - rewrite <- (firstn_skipn 6 x) in Nx. rewrite existsb_app in Nx.
      apply orb_false_iff in Nx. tauto.
    - apply (rstrip_by_fixed_tail isspace (firstn 6 x)).
      rewrite firstn_skipn. exact Rx. }
  split; [exact E|]. intros Hw. rewrite E. apply fix_no_where.
  rewrite lower_app. change (lower (txt ";")) with [";"%char].
  rewrite contains_snoc.
  - destruct (strip_infix reply) as [a [b Hab]].
    rewrite Hab, !lower_app in Hw. exact (contains_infix_false _ _ _ _ Hw).
  - discriminate.
  - simpl. intuition discriminate.
Qed.

Lemma extract_sql_plain_statement_witness :
  extract_sql (Some (txt "  Select name From users  "))
  = _fix_case_insensitive (strip (txt "  Select name From users  ") ++ txt ";") /\
  extract_sql (Some (txt "  Select name From users  "))
  = strip (txt "  Select name From users  ") ++ txt ";".
Proof.
  destruct (extract_sql_plain_statement (txt "  Select name From users  "))
    as [H1 H2]; try reflexivity.
  split; [exact H1 | apply H2; reflexivity].
Defined.

(** ** What follows the terminator *)

Lemma lazy_body_cut (y b : str) :
  lazy_body (y ++ ";"%char :: b) = split_head ";" y.
Proof.
  induction y as [|c t IH].
  - reflexivity.
  - cbn [app lazy_body split_head]. unfold is_semi.
    destruct (Ascii.eqb c ";"); [reflexivity|].
    destruct t; cbn [app]; rewrite andb_false_r; rewrite <- IH; reflexivity.
Qed.

Lemma lower_semi_cut (s b : str) :
  lower (s ++ ";"%char :: b) = lower s ++ ";"%char :: lower b.
Proof. apply map_app. Qed.

Lemma startswith_length (pat s : str) :
  startswith pat s = true -> length pat <= length s.
Proof.
  intros H. apply startswith_split in H. rewrite H, length_app. lia.
Qed.

Lemma search_select_cut (a b b' : str) :
  mentions_select a = true ->
  search_select (a ++ ";"%char :: b) = search_select (a ++ ";"%char :: b').
Proof.
  unfold mentions_select. induction a as [|c t IH]; intros H.
  - discriminate.
  - rewrite !(search_select_eq ((c :: t) ++ _)).
    rewrite !lower_semi_cut, !startswith_cut by (simpl; intuition discriminate).
    destruct (startswith (txt "select") (lower (c :: t))) eqn:E.
    + apply startswith_length in E. unfold lower in E. rewrite length_map in E.
      change (length (txt "select")) with 6 in E.
      rewrite !firstn_app, !skipn_app.
      replace (6 - length (c :: t)) with 0 by lia.
      cbn [firstn skipn]. rewrite !lazy_body_cut. reflexivity.
    + rewrite contains_eq, E in H. cbn [orb lower map] in H.
      cbn [app]. apply IH. exact H.
Qed.

(** X10: once the cleaned reply has a [;] after its first SELECT, nothing
    that follows this [;] reaches the result: two replies that agree up to
    there give the same statement. *)
Theorem extract_sql_ignores_rest (content1 content2 : option str) (a b1 b2 : str) :
  mentions_select a = true ->
  text_only content1 = a ++ ";"%char :: b1 ->
  text_only content2 = a ++ ";"%char :: b2 ->
  extract_sql content1 = extract_sql content2.
Proof.
  intros Ha H1 H2. unfold extract_sql. rewrite H1, H2.
  rewrite (search_select_cut a b1 b2 Ha).
  destruct (search_select (a ++ ";"%char :: b2)) as [g|] eqn:S; [reflexivity|].
  exfalso.
  assert (M : mentions_select (a ++ ";"%char :: b2) = true).
  { unfold mentions_select in *. destruct (contains_split _ _ Ha) as [u [v E]].
    rewrite lower_semi_cut, E, <- !app_assoc. apply contains_app. }
  clear - S M. induction (a ++ ";"%char :: b2) as [|c t IH]; [discriminate|].
  unfold mentions_select in *. rewrite search_select_eq in S.
  rewrite contains_eq in M.
  destruct (startswith (txt "select") (lower (c :: t))); [discriminate|].
  apply IH; assumption.
Qed.

Lemma extract_sql_ignores_rest_witness :
  extract_sql (Some (txt "select 1; drop table users"))
  = extract_sql (Some (txt "select 1; and some closing words")).
Proof.
  apply (extract_sql_ignores_rest
           (Some (txt "select 1; drop table users"))
           (Some (txt "select 1; and some closing words"))
           (txt "select 1") (txt " drop table users")
           (txt " and some closing words")).
  - reflexivity.
  - reflexivity.
  - reflexivity.
Defined.

(** ** A reply that is one fenced block *)

Lemma find_after_no_tick (body r : str) :
  existsb is_tick body = false ->
  find fence (body ++ fence ++ r) = Some (length body).
Proof.
  induction body as [|c t IH]; intros H.
  - cbn [app length]. unfold find.
    destruct (fence ++ r) eqn:E; rewrite <- E; rewrite startswith_app; reflexivity.
  - simpl in H. apply orb_false_iff in H. destruct H as [Hc Ht].
    cbn [app find length]. change fence with ["`"; "`"; "`"]%char at 1.
    cbn [startswith]. unfold is_tick in Hc. rewrite Ascii.eqb_sym, Hc. cbn [andb].
    rewrite (IH Ht). reflexivity.
Qed.

Lemma remove_fences_from_all (k : nat) (t : str) :
  length t <= k -> remove_fences_from k t = [].
Proof.
  revert k. induction t as [|c t IH]; intros k H; [reflexivity|].
  destruct k as [|k]; [simpl in H; lia|].
  cbn [remove_fences_from]. apply IH. simpl in H. lia.
Qed.

Lemma remove_fences_head (c : ascii) (t : str) (n : nat) :
  fence_match (c :: t) = Some n ->
  remove_fences (c :: t) = " "%char :: remove_fences_from (n - 1) t.
Proof.
  intros H. unfold remove_fences. cbn [remove_fences_from]. rewrite H. reflexivity.
Qed.

Lemma fence_match_block (body r : str) :
  existsb is_tick body = false ->
  fence_match (fence ++ body ++ fence ++ r) = Some (3 + length body + 3).
Proof.
  intros H. unfold fence_match. rewrite startswith_app.
  change (skipn 3 (fence ++ body ++ fence ++ r)) with (body ++ fence ++ r).
  rewrite (find_after_no_tick body r H). reflexivity.
Qed.

Lemma text_only_fenced_block (body : str) :
  existsb is_tick body = false ->
  text_only (Some (fence ++ body ++ fence)) = [" "%char].
Proof.
  intros H. unfold text_only.
  assert (E : fence ++ body ++ fence
              = "`"%char :: ("`"%char :: "`"%char :: body ++ ["`"%char; "`"%char])
                  ++ ["`"%char]).
  { change fence with ["`"; "`"; "`"]%char. cbn [app]. do 3 f_equal.
    rewrite <- app_assoc. reflexivity. }
  assert (S : strip (fence ++ body ++ fence) = fence ++ body ++ fence).
  { rewrite E. apply strip_fixed; reflexivity. }
  rewrite S.
  pose proof (fence_match_block body [] H) as M. rewrite app_nil_r in M.
  change (fence ++ body ++ fence)
    with ("`"%char :: ("`"%char :: "`"%char :: body ++ fence)) in *.
  rewrite (remove_fences_head _ _ _ M).
  rewrite remove_fences_from_all; [reflexivity|].
  cbn [length]. rewrite length_app. change (length fence) with 3. lia.
Qed.

(** X11: a reply that consists of one fenced code block is discarded as a
    whole, whatever statement the block holds: the result is the fallback
    [SELECT 1;]. *)
Theorem extract_sql_fenced_block (body : str) :
  existsb is_tick body = false ->
  extract_sql (Some (fence ++ body ++ fence)) = inert_fallback.
Proof.
  intros H. unfold extract_sql. rewrite (text_only_fenced_block body H).
  reflexivity.
Qed.

Lemma extract_sql_fenced_block_witness :
  extract_sql (Some (fence ++ txt "sql SELECT name FROM users;" ++ fence))
  = inert_fallback.
Proof.
  apply (extract_sql_fenced_block (txt "sql SELECT name FROM users;")).
  reflexivity.
Defined.

(** ** The rewrite at work *)

Lemma span_app_stop (p : ascii -> bool) (a b : str) :
  forallb p a = true ->
  match b with [] => True | c :: _ => p c = false end ->
  span p (a ++ b) = (a, b).
Proof.
  intros Ha Hb. induction a as [|x a IH].
  - destruct b as [|c t]; [reflexivity|]. simpl. rewrite Hb. reflexivity.
  - simpl in Ha. apply andb_true_iff in Ha. destruct Ha as [Hx Ha].
    cbn [app span]. rewrite Hx, (IH Ha). reflexivity.
Qed.

Lemma col_char_not_space (c : ascii) : is_col_char c = true -> isspace c = false.
Proof. each_char c. Qed.

Lemma space_not_col_char (c : ascii) : isspace c = true -> is_col_char c = false.
Proof. each_char c. Qed.

Lemma match_where_matches (w ws1 col ws2 ws3 val rest : str) :
  lower w = txt "where" ->
  ws1 <> [] -> forallb isspace ws1 = true ->
  col <> [] -> forallb is_col_char col = true ->
  forallb isspace ws2 = true -> forallb isspace ws3 = true ->
  val <> [] -> forallb is_alpha val = true ->
  match_where (w ++ ws1 ++ col ++ ws2 ++ "="%char :: ws3 ++ "'"%char :: val
                 ++ "'"%char :: rest)
  = Some (col, val, rest).
Proof.
  intros Hw N1 S1 N2 C2 S2 S3 N3 A3. unfold match_where.
  rewrite lower_app, Hw, startswith_app.
  assert (L : length w = 5).
  { apply (f_equal (@length ascii)) in Hw. unfold lower in Hw.
    rewrite length_map in Hw. exact Hw. }
  rewrite <- L, skipn_length_app.
  destruct ws1 as [|x1 ws1]; [congruence|].
  destruct col as [|x2 col]; [congruence|].
  destruct val as [|x3 val]; [congruence|].
  rewrite (span_app_stop isspace (x1 :: ws1)); [|exact S1|].
  2:{ cbn [app]. apply col_char_not_space.
      simpl in C2. apply andb_true_iff in C2. tauto. }
  rewrite (span_app_stop is_col_char (x2 :: col)); [|exact C2|].
  2:{ destruct ws2 as [|y ws2]; cbn [app]; [reflexivity|].
      apply space_not_col_char.
      simpl in S2. apply andb_true_iff in S2. tauto. }
  rewrite (span_app_stop isspace ws2); [|exact S2|reflexivity].
  rewrite (span_app_stop isspace ws3); [|exact S3|reflexivity].
  rewrite (span_app_stop is_alpha (x3 :: val)); [|exact A3|reflexivity].
  reflexivity.
Qed.

(** X12: the rewrite at work.  The word WHERE in any letter case, white
    space, a column name, an equals sign with or without white space around
    it, and a quoted word of letters in any case become
    [WHERE column ILIKE 'word'], and the rewrite goes on behind the closing
    quote. *)
Theorem fix_case_insensitive_rewrites (w ws1 col ws2 ws3 val rest : str) :
  lower w = txt "where" ->
  ws1 <> [] -> forallb isspace ws1 = true ->
  col <> [] -> forallb is_col_char col = true ->
  forallb isspace ws2 = true -> forallb isspace ws3 = true ->
  val <> [] -> forallb is_alpha val = true ->
  _fix_case_insensitive
    (w ++ ws1 ++ col ++ ws2 ++ "="%char :: ws3 ++ "'"%char :: val
       ++ "'"%char :: rest)
  = txt "WHERE " ++ col ++ txt " ILIKE '" ++ val ++ txt "'"
      ++ _fix_case_insensitive rest.
Proof.
  intros Hw N1 S1 N2 C2 S2 S3 N3 A3.
  rewrite (fix_match _ col val rest).
  - unfold repl. repeat rewrite <- app_assoc. reflexivity.
  - apply match_where_matches; assumption.
Qed.

Lemma fix_case_insensitive_rewrites_witness :
  _fix_case_insensitive
    (txt "Where" ++ txt "  " ++ txt "u.name" ++ txt " " ++ "="%char :: []
       ++ "'"%char :: txt "ALICE" ++ "'"%char :: txt " limit 5;")
  = txt "WHERE " ++ txt "u.name" ++ txt " ILIKE '" ++ txt "ALICE" ++ txt "'"
      ++ _fix_case_insensitive (txt " limit 5;").
Proof.
  apply (fix_case_insensitive_rewrites
           (txt "Where") (txt "  ") (txt "u.name") (txt " ") [] (txt "ALICE")
           (txt " limit 5;"));
    try reflexivity; discriminate.
Defined.

(** Text in which the word WHERE does not occur, in any letter case, is
    left as it is. *)
Theorem fix_case_insensitive_without_where (s : str) :
  contains (txt "where") (lower s) = false -> _fix_case_insensitive s = s.
Proof. apply fix_no_where. Qed.

Lemma fix_case_insensitive_without_where_witness :
  _fix_case_insensitive (txt "select name from users limit 5;")
  = txt "select name from users limit 5;".
Proof.
  apply (fix_case_insensitive_without_where (txt "select name from users limit 5;")).
  reflexivity.
Defined.

End SqlChainMore.

(* ================================================================== *)
(** * The history of executions *)
(* ================================================================== *)

Section HistoryFacts.

Import History.
Local Open Scope Z_scope.

Lemma NoDup_snoc {A : Type} (l : list A) (x : A) :
  NoDup l -> ~ In x l -> NoDup (l ++ [x]).
Proof.
  induction l as [|a l IH]; intros Hn Hx.
  - constructor; [intros []|constructor].
  - inversion Hn as [|? ? Ha Hl]; subst. cbn [app]. constructor.
    + intros Hin. apply in_app_or in Hin. destruct Hin as [Hin|[E|[]]].
      * apply Ha. exact Hin.
      * apply Hx. left. symmetry. exact E.
    + apply IH; [exact Hl|]. intros Hin. apply Hx. right. exact Hin.
Qed.

Lemma id_le_max (t : table) (r : QueryHistory) :
  In r t -> id r <= fold_right Z.max 0 (map id t).
Proof.
  induction t as [|x t IH]; intros H; [destruct H|].
  simpl. destruct H as [->|H]; [lia|]. specialize (IH H). lia.
Qed.

Lemma next_id_fresh (t : table) : ~ In (next_id t) (map id t).
Proof.
  intros H. apply in_map_iff in H. destruct H as [r [E Hr]].
  pose proof (id_le_max t r Hr). unfold next_id in E. lia.
Qed.

(** Under distinct ids, the lookup by id finds the row that carries it. *)
Lemma filter_by_id (t : table) (rec : QueryHistory) :
  ids_distinct t -> In rec t ->
  filter (fun r => id r =? id rec) t = [rec].
Proof.
  unfold ids_distinct. induction t as [|x t IH]; intros Hn Hin; [destruct Hin|].
  simpl in Hn. inversion Hn as [|? ? Hx Ht]; subst.
  cbn [filter]. destruct Hin as [->|Hin].
  - rewrite Z.eqb_refl. f_equal. apply filter_none.
    intros y Hy. apply Z.eqb_neq. intros E. apply Hx. rewrite <- E.
    apply in_map. exact Hy.
  - destruct (id x =? id rec) eqn:E.
    + apply Z.eqb_eq in E. exfalso. apply Hx. rewrite E. apply in_map. exact Hin.
    + apply IH; assumption.
Qed.

Lemma by_id_found (t : table) (rec : QueryHistory) :
  ids_distinct t -> In rec t -> by_id (id rec) t = Ok (Some rec).
Proof.
  intros Hn Hin. unfold by_id. rewrite (filter_by_id t rec Hn Hin). reflexivity.
Qed.

Lemma by_id_missing (t : table) (history_id : Z) :
  (forall r, In r t -> id r <> history_id) -> by_id history_id t = Ok None.
Proof.
  intros H. unfold by_id. rewrite filter_none; [reflexivity|].
  intros r Hr. apply Z.eqb_neq. apply H. exact Hr.
Qed.

Lemma log_keeps_ids_distinct (t : table) request result commit :
  ids_distinct t -> ids_distinct (log_query_execution t request result commit).
Proof.
  unfold ids_distinct, log_query_execution. intros H.
  destruct commit; [exact H|].
  rewrite map_app. cbn [map id]. apply NoDup_snoc.
  - exact H.
  - apply next_id_fresh.
Qed.

(** X14: the history keeps its ids distinct: logging an execution, a
    rerun, pinning and deleting all lead from a table without repeated ids to
    a table without repeated ids. *)
Theorem history_ids_stay_distinct
        (t : table) (w : Executor.World) (history_id : Z) (flag : bool)
        (request : Common.QueryExecutionRequest)
        (result : Executor.QueryExecutionResponse) (commit : option exn) :
  ids_distinct t ->
  ids_distinct (log_query_execution t request result commit) /\
  ids_distinct (snd (rerun_query t w history_id commit)) /\
  ids_distinct (snd (pin_history t history_id flag commit)) /\
  ids_distinct (snd (delete_history_item t history_id commit)).
Proof.
  intros H. split; [apply log_keeps_ids_distinct; exact H|]. split; [|split].
  - unfold rerun_query. destruct (by_id history_id t) as [[rec|]|e]; try exact H.
    destruct (Executor.execute_sql w (sql rec) (connection_id rec) 30 1000);
      [apply log_keeps_ids_distinct|]; exact H.
  - unfold pin_history. destruct (by_id history_id t) as [[rec|]|e]; try exact H.
    destruct commit; [exact H|]. cbn [snd]. unfold ids_distinct in *.
    rewrite map_map.
    erewrite map_ext; [exact H|].
    intros r. destruct (id r =? id rec); reflexivity.
  - unfold delete_history_item. destruct (by_id history_id t) as [[rec|]|e]; try exact H.
    destruct commit; [exact H|]. cbn [snd]. unfold ids_distinct in *.
    clear - H. induction t as [|x t IH]; [exact H|].
    simpl in H. inversion H as [|? ? Hx Ht]; subst. cbn [filter].
    destruct (negb (id x =? id rec)); [|apply IH; exact Ht].
    cbn [map]. constructor; [|apply IH; exact Ht].
    intros Hin. apply Hx. apply in_map_iff in Hin. destruct Hin as [y [E Hy]].
    apply filter_In in Hy. rewrite <- E. apply in_map. tauto.
Qed.

Lemma history_ids_stay_distinct_witness :
  ids_distinct (snd (rerun_query [stored_drop] Executor.three_row_world 4 None)) /\
  ids_distinct (snd (pin_history [stored_drop] 4 true None)) /\
  ids_distinct (snd (delete_history_item [stored_drop] 4 None)).
Proof.
  assert (H : ids_distinct [stored_drop]).
  { unfold ids_distinct. simpl. constructor; [intros []|constructor]. }
  destruct (history_ids_stay_distinct
              [stored_drop] Executor.three_row_world 4 true
              (ExecuteRoutes.drop_request false)
              {| Executor.success := true; Executor.rows := [];
                 Executor.columns := []; Executor.row_count := 0;
                 Executor.execution_time_ms := 1;
                 Executor.sql_executed := txt "DROP TABLE users";
                 Executor.warnings := []; Executor.error := None |}
              None H) as (_ & H2 & H3 & H4).
  repeat split; assumption.
Defined.

(** X15: a rerun executes the stored statement as it stands, with a
    timeout of 30 and a cap of 1000 rows and without consulting the
    guardrail; when the executor returns, the response is the executor's and
    the history gains exactly one unpinned record of that run under a fresh
    id (none when the logging fails); when the executor raises, the exception
    leaves the handler and nothing is logged. *)
Theorem rerun_query_runs_stored_statement
        (t : table) (w : Executor.World) (rec : QueryHistory) :
  ids_distinct t -> In rec t ->
  match Executor.execute_sql w (sql rec) (connection_id rec) 30 1000 with
  | Ok result =>
      rerun_query t w (id rec) None = (Ok result, t ++ [rerun_record t rec result]) /\
      forall e, rerun_query t w (id rec) (Some e) = (Ok result, t)
  | Raise e =>
      forall commit, rerun_query t w (id rec) commit = (Raise e, t)
  end.
Proof.
  intros Hn Hin. unfold rerun_query. rewrite (by_id_found t rec Hn Hin).
  destruct (Executor.execute_sql w (sql rec) (connection_id rec) 30 1000)
    as [result|e] eqn:E.
  - split; [|reflexivity].
    unfold log_query_execution, rerun_record. cbn [Common.sql Common.connection_id].
    rewrite (execute_sql_echoes _ _ _ _ _ _ E). unfold Common.str_or. destruct (sql rec); reflexivity.
  - reflexivity.
Qed.

Lemma rerun_query_runs_stored_statement_witness :
  Guardrails.block_execution (Guardrails.validate_sql (sql stored_drop) 1) = true /\
  exists result,
    Executor.success result = true /\
    rerun_query [stored_drop] Executor.three_row_world 4 None
    = (Ok result, [stored_drop; rerun_record [stored_drop] stored_drop result]).
Proof.
  split; [reflexivity|].
  assert (H : ids_distinct [stored_drop]).
  { unfold ids_distinct. simpl. constructor; [intros []|constructor]. }
  pose proof (rerun_query_runs_stored_statement
                [stored_drop] Executor.three_row_world stored_drop H
                (or_introl eq_refl)) as R.
  destruct (Executor.execute_sql Executor.three_row_world (sql stored_drop)
              (connection_id stored_drop) 30 1000) as [result|e] eqn:E.
  - exists result. split; [|apply R].
    vm_compute in E. injection E as <-. reflexivity.
  - vm_compute in E. discriminate E.
Defined.

(** X16: for an id that no record carries, rerun, pin and delete answer
    404 and leave the history as it is; the target database is not touched. *)
Theorem history_unknown_id
        (t : table) (w : Executor.World) (history_id : Z) (flag : bool)
        (commit : option exn) :
  (forall r, In r t -> id r <> history_id) ->
  rerun_query t w history_id commit = (Raise not_found, t) /\
  pin_history t history_id flag commit = (Raise not_found, t) /\
  delete_history_item t history_id commit = (Raise not_found, t).
Proof.
  intros H. unfold rerun_query, pin_history, delete_history_item.
  rewrite (by_id_missing t history_id H). repeat split.
Qed.

Lemma history_unknown_id_witness :
  rerun_query [stored_drop] Executor.three_row_world 9 None
  = (Raise not_found, [stored_drop]) /\
  pin_history [stored_drop] 9 true None = (Raise not_found, [stored_drop]) /\
  delete_history_item [stored_drop] 9 None = (Raise not_found, [stored_drop]).
Proof.
  apply (history_unknown_id [stored_drop] Executor.three_row_world 9 true None).
  intros r [<-|[]]. discriminate.
Defined.

(** Deleting a record removes it and nothing else; afterwards its id is
    unknown. *)
Theorem delete_history_item_removes
        (t : table) (rec : QueryHistory) :
  ids_distinct t -> In rec t ->
  exists t',
    delete_history_item t (id rec) None = (Ok true, t') /\
    by_id (id rec) t' = Ok None /\
    (forall r, In r t' <-> In r t /\ r <> rec).
Proof.
  intros Hn Hin. unfold delete_history_item.
  rewrite (by_id_found t rec Hn Hin). eexists. split; [reflexivity|]. split.
  - apply by_id_missing. intros r Hr E. apply filter_In in Hr.
    destruct Hr as [_ Hr]. apply negb_true_iff, Z.eqb_neq in Hr. contradiction.
  - intros r. rewrite filter_In. split.
    + intros [Hr Hid]. split; [exact Hr|]. intros ->.
      rewrite Z.eqb_refl in Hid. discriminate.
    + intros [Hr Hne]. split; [exact Hr|].
      apply negb_true_iff, Z.eqb_neq. intros E. apply Hne.
      pose proof (filter_by_id t rec Hn Hin) as F.
      assert (Hf : In r (filter (fun x => id x =? id rec) t)).
      { apply filter_In. split; [exact Hr|]. apply Z.eqb_eq. exact E. }
      rewrite F in Hf. destruct Hf as [<-|[]]. reflexivity.
Qed.

Lemma delete_history_item_removes_witness :
  delete_history_item [stored_drop] 4 None = (Ok true, []) /\
  by_id 4 [] = Ok None.
Proof.
  destruct (delete_history_item_removes [stored_drop] stored_drop)
    as [t' [E [B _]]].
  - unfold ids_distinct. simpl. constructor; [intros []|constructor].
  - left. reflexivity.
  - split; reflexivity.
Defined.

End HistoryFacts.

(* ================================================================== *)
(** * The execute and generate-and-execute endpoints *)
(* ================================================================== *)

Section ExecuteRouteFacts.

Import ExecuteRoutes.

(** X18: whatever goes wrong in the three handlers, the exception that
    leaves them is an [HTTPException] with status 500: a blocked statement, a
    missing connection and a failing service are all reported alike. *)
Theorem handlers_fail_with_500
        (settings : Common.Settings) (exception_text : exn -> str)
        (sql_service : QueryRoutes.QueryRequest -> result SqlChain.QueryResponse)
        (w : Executor.World)
        (execution : Common.QueryExecutionRequest)
        (request : QueryRoutes.QueryRequest) (e : exn) :
  execute_sql settings exception_text w execution = Raise e \/
  generate_and_execute settings exception_text sql_service w request = Raise e \/
  QueryRoutes.generate_sql sql_service exception_text request = Raise e ->
  exists detail, e = HTTPException 500 detail.
Proof.
  intros [H|[H|H]].
  - unfold execute_sql in H.
    match type of H with
    | match ?a with _ => _ end = _ => destruct a
    end; [discriminate|]. injection H as <-. eexists. reflexivity.
  - unfold generate_and_execute in H.
    match type of H with
    | match ?a with _ => _ end = _ => destruct a
    end; [discriminate|]. injection H as <-. eexists. reflexivity.
  - unfold QueryRoutes.generate_sql in H.
    match type of H with
    | match ?a with _ => _ end = _ => destruct a
    end; [discriminate|]. injection H as <-. eexists. reflexivity.
Qed.

Lemma handlers_fail_with_500_witness :
  exists detail,
    HTTPException 500
      (txt "Failed to execute SQL: "
       ++ txt "Connection id 2 not found")
    = HTTPException 500 detail.
Proof.
  apply (handlers_fail_with_500
           default_settings
           (fun _ => txt "Connection id 2 not found")
           QueryRoutes.stacking_service
           Executor.three_row_world
           {| Common.sql := txt "SELECT 1"; Common.connection_id := 2;
              Common.require_approval := false; Common.timeout_seconds := None |}
           QueryRoutes.sample_request).
  left. reflexivity.
Defined.

(** X19: when approval is required, by the request or by the settings, a
    statement the guardrail does not pass is never executed: whatever the
    target database would do, the handler ends in the same status 500 that
    wraps the guardrail's 400 and its warnings. *)
Theorem execute_route_blocked
        (settings : Common.Settings) (exception_text : exn -> str)
        (w : Executor.World) (request : Common.QueryExecutionRequest) :
  Common.require_approval request || Common.require_sql_approval settings = true ->
  Guardrails.is_safe
    (Guardrails.validate_sql (Common.sql request) (Common.connection_id request))
  = false ->
  execute_sql settings exception_text w request
  = Raise (HTTPException 500
             (txt "Failed to execute SQL: "
              ++ exception_text
                   (HTTPException 400
                      (txt "SQL execution blocked: "
                       ++ QueryRoutes.join (txt "; ")
                            (Guardrails.warnings
                               (Guardrails.validate_sql
                                  (Common.sql request)
                                  (Common.connection_id request))))))).
Proof.
  intros Ha Hs. unfold execute_sql, approval_guard. rewrite Ha, Hs. reflexivity.
Qed.

Lemma execute_route_blocked_witness :
  execute_sql default_settings (fun _ => txt "400") Executor.three_row_world
              (drop_request true)
  = Raise (HTTPException 500 (txt "Failed to execute SQL: " ++ txt "400")).
Proof.
  apply (execute_route_blocked default_settings (fun _ => txt "400")
           Executor.three_row_world (drop_request true)).
  - reflexivity.
  - reflexivity.
Defined.

(** X20: when neither the request nor the settings ask for approval, the
    guardrail is not consulted: whatever the executor returns for the
    statement, a statement the guardrail would block included, is the
    response; [read_only_mode] plays no part. *)
Theorem execute_route_unguarded
        (settings : Common.Settings) (exception_text : exn -> str)
        (w : Executor.World) (request : Common.QueryExecutionRequest)
        (r : Executor.QueryExecutionResponse) :
  Common.require_approval request = false ->
  Common.require_sql_approval settings = false ->
  Executor.execute_sql w (Common.sql request) (Common.connection_id request)
    (Common.int_or (Common.timeout_seconds request)
                   (Common.max_execution_time_seconds settings))
    (Common.max_rows_returned settings) = Ok r ->
  execute_sql settings exception_text w request = Ok r.
Proof.
  intros Ha Hs H. unfold execute_sql, approval_guard. rewrite Ha, Hs.
  cbn [orb bind]. rewrite H. reflexivity.
Qed.

Lemma execute_route_unguarded_witness :
  Guardrails.block_execution
    (Guardrails.validate_sql (Common.sql (drop_request false)) 1) = true /\
  exists r,
    Executor.success r = true /\
    execute_sql default_settings (fun _ => []) Executor.three_row_world
                (drop_request false) = Ok r.
Proof.
  split; [reflexivity|].
  eexists. split; [|apply (execute_route_unguarded
                            default_settings (fun _ => [])
                            Executor.three_row_world (drop_request false));
                    reflexivity].
  reflexivity.
Defined.

(** X21: generate-and-execute with the repository's generator.  When the
    generator raises (the snapshot lookup, the client or the completion call
    fails), the handler answers with status 500 and the target database is
    not touched.  When the generator returns, the guardrail never stops its
    statement: the executor is reached, and the outcome is the executor's
    outcome for that statement under the configured limits, an exception
    becoming a status 500. *)
Theorem generate_and_execute_with_repository_service
        (settings : Common.Settings) (exception_text : exn -> str)
        (reply : QueryRoutes.QueryRequest -> result (option str))
        (start stop : float)
        (w : Executor.World) (request : QueryRoutes.QueryRequest) :
  generate_and_execute settings exception_text
    (QueryRoutes.repository_service reply start stop) w request
  = match reply request with
    | Raise e =>
        Raise (HTTPException 500
                 (txt "Failed to generate and execute SQL: " ++ exception_text e))
    | Ok content =>
        match Executor.execute_sql w
                (SqlChain.extract_sql content)
                (QueryRoutes.connection_id request)
                (Common.max_execution_time_seconds settings)
                (Common.max_rows_returned settings) with
        | Ok r => Ok r
        | Raise e =>
            Raise (HTTPException 500
                     (txt "Failed to generate and execute SQL: " ++ exception_text e))
        end
    end.
Proof.
  unfold generate_and_execute, QueryRoutes.repository_service.
  destruct (reply request) as [content|e0]; [|reflexivity]. cbn [bind].
  destruct (generated_statement_passes_guardrail
              content start stop (QueryRoutes.connection_id request))
    as [_ H].
  rewrite H. cbn [negb Guardrails.is_safe bind SqlChain.sql SqlChain.generate_sql
                  SqlChain.warnings].
  destruct (Executor.execute_sql w (SqlChain.extract_sql content)
              (QueryRoutes.connection_id request)
              (Common.max_execution_time_seconds settings)
              (Common.max_rows_returned settings)) as [r|e] eqn:E;
    cbn [bind]; [|reflexivity].
  rewrite app_nil_r, <- (execute_sql_echoes _ _ _ _ _ _ E). destruct r; reflexivity.
Qed.

End ExecuteRouteFacts.

(* ================================================================== *)
(** * Introspection *)
(* ================================================================== *)

Section IntrospectionFacts.

Import Json.
Import SchemaDiscovery.
Import Introspection.

Lemma in_list_In (x : str) (l : list str) : in_list x l = true <-> In x l.
Proof.
  unfold in_list. rewrite existsb_exists. split.
  - intros [y [Hy E]]. apply str_eqb_eq in E. subst y. exact Hy.
  - intros H. exists x. split; [exact H | apply str_eqb_refl].
Qed.

Lemma mapM_Forall2 {A B : Type} (f : A -> result B) (l : list A) (l' : list B) :
  mapM f l = Ok l' -> Forall2 (fun x y => f x = Ok y) l l'.
Proof.
  revert l'. induction l as [|a l IH]; intros l' H.
  - injection H as <-. constructor.
  - cbn [mapM] in H. destruct (f a) as [b|e] eqn:E; [|discriminate].
    cbn [bind] in H. destruct (mapM f l) as [bs|e]; [|discriminate].
    cbn [bind] in H. injection H as <-. constructor; [exact E | apply IH; reflexivity].
Qed.

(** X22: on a PostgreSQL target, what [_introspect_schema] returns lists
    the base tables the catalog lists, in the catalog's order and under their
    schema and name, and for each table the columns the catalog lists, in
    its order and under their names, each flagged as primary key or unique
    exactly when its name is among the key columns the catalog reports. *)
Theorem introspect_schema_follows_catalog (c : Catalog) (r : RawSchema) :
  connect c = None ->
  in_list (dialect c) [txt "postgresql"; txt "postgres"] = true ->
  _introspect_schema c = Ok r ->
  exists rows,
    base_tables c = Ok rows /\
    Forall2
      (fun row t =>
         tbl_schema t = fst row /\ tbl_name t = snd row /\
         exists cols pk uq,
           table_columns c (fst row) (snd row) = Ok cols /\
           primary_key_columns c (fst row) (snd row) = Ok pk /\
           unique_columns c (fst row) (snd row) = Ok uq /\
           map col_name (tbl_columns t) = map column_name cols /\
           map primary_key (tbl_columns t)
           = map (fun x => in_list (column_name x) pk) cols /\
           map unique (tbl_columns t)
           = map (fun x => in_list (column_name x) uq) cols)
      rows (tables r).
Proof.
  intros Hc Hd H. unfold _introspect_schema in H. rewrite Hc, Hd in H.
  destruct (base_tables c) as [rows|e]; [|discriminate]. cbn [bind] in H.
  destruct (mapM (table_of c) rows) as [ts|e] eqn:M; [|discriminate].
  cbn [bind] in H. injection H as <-. exists rows. split; [reflexivity|].
  cbn [tables]. apply mapM_Forall2 in M.
  induction M as [|[schema table] t rows ts Ht M IH]; constructor; [|exact IH].
  unfold table_of in Ht.
  destruct (table_columns c schema table) as [cols|e] eqn:C; [|discriminate].
  destruct (primary_key_columns c schema table) as [pk|e] eqn:P; [|discriminate].
  destruct (unique_columns c schema table) as [uq|e] eqn:U; [|discriminate].
  cbn [bind] in Ht. injection Ht as <-. cbn [tbl_schema tbl_name tbl_columns fst snd].
  split; [reflexivity|]. split; [reflexivity|].
  exists cols, pk, uq. rewrite !map_map. repeat split; assumption.
Qed.

Lemma introspect_schema_follows_catalog_witness :
  exists rows,
    base_tables shop_catalog = Ok rows /\
    Forall2
      (fun row t =>
         tbl_schema t = fst row /\ tbl_name t = snd row /\
         exists cols pk uq,
           table_columns shop_catalog (fst row) (snd row) = Ok cols /\
           primary_key_columns shop_catalog (fst row) (snd row) = Ok pk /\
           unique_columns shop_catalog (fst row) (snd row) = Ok uq /\
           map col_name (tbl_columns t) = map column_name cols /\
           map primary_key (tbl_columns t)
           = map (fun x => in_list (column_name x) pk) cols /\
           map unique (tbl_columns t)
           = map (fun x => in_list (column_name x) uq) cols)
      rows (tables orders_raw).
Proof.
  apply (introspect_schema_follows_catalog shop_catalog orders_raw).
  - reflexivity.
  - reflexivity.
  - reflexivity.
Defined.

(** With no table in the raw structure the model's reply is never used. *)
Lemma normalize_without_tables (r : RawSchema) (loaded : option json) (s : json) :
  tables r = [] ->
  _normalize_with_ai (raw_json r) loaded = Ok s -> s = raw_json r.
Proof.
  intros Ht. destruct loaded as [j|].
  - unfold _normalize_with_ai. cbn [bind].
    rewrite names_of_raw_json, Ht. cbn [bind map].
    destruct (names_of j) as [norm_tables|e]; [|discriminate].
    cbn [bind]. destruct norm_tables as [|n ns].
    + cbn [bind]. rewrite rebuild_raw_json. congruence.
    + unfold to_set. destruct (forallb hashable (n :: ns)); [|discriminate].
      cbn [bind forallb hashable set_eqb member existsb andb negb].
      rewrite rebuild_raw_json. congruence.
  - rewrite normalize_parse_failure. congruence.
Qed.

(** X23: on a target that is not PostgreSQL, discovery never fails for
    want of support and never uses the model's reply: whenever it returns,
    the schema it returns is the empty schema of the database [unknown]. *)
Theorem discover_on_other_dialect
        (c : Catalog) (st : store) (connection_id : Z)
        (loaded : option json) (commit : option exn) (s : json) :
  connect c = None ->
  in_list (dialect c) [txt "postgresql"; txt "postgres"] = false ->
  fst (discover_and_save st connection_id (_introspect_schema c) loaded commit)
  = Ok s ->
  s = raw_json empty_schema.
Proof.
  intros Hc Hd H. unfold _introspect_schema in H. rewrite Hc, Hd in H.
  fold empty_schema in H. unfold discover_and_save in H. cbn [bind] in H.
  destruct (_normalize_with_ai (raw_json empty_schema) loaded) as [n|e] eqn:N;
    [|discriminate H].
  apply normalize_without_tables in N; [|reflexivity]. subst n. cbn [bind] in H.
  destruct (one_or_none (for_connection connection_id st)) as [[x|]|e];
    cbn [bind] in H; try discriminate H.
  - destruct commit; [discriminate H|]. cbn in H. congruence.
  - cbn [bind get raw_json lookup] in H.
    destruct commit; [discriminate H|]. cbn in H. congruence.
Qed.

Lemma discover_on_other_dialect_witness :
  exists s,
    fst (discover_and_save [] 1 (_introspect_schema sqlite_catalog)
                           (Some (raw_json orders_raw)) None) = Ok s /\
    s = raw_json empty_schema.
Proof.
  eexists. split; [reflexivity|].
  apply (discover_on_other_dialect
           sqlite_catalog [] 1 (Some (raw_json orders_raw)) None).
  - reflexivity.
  - reflexivity.
  - reflexivity.
Defined.

(** X24: the types [_compose_type] composes fall into the classes the
    example builder expects: integer and numeric columns are numeric and
    not text; varchar, char, text and JSON columns are text and not numeric;
    timestamps are dates and neither numeric nor text; booleans are in no
    class. *)
Theorem composed_types_classified (row : ColumnRow) :
  (in_list (udt_name row) [txt "int2"; txt "int4"; txt "int8"; txt "numeric"] = true ->
   SchemaRoutes.is_numeric (_compose_type row) = true /\
   SchemaRoutes.is_text (_compose_type row) = false) /\
  (in_list (udt_name row)
           [txt "varchar"; txt "bpchar"; txt "text"; txt "json"; txt "jsonb"] = true ->
   SchemaRoutes.is_text (_compose_type row) = true /\
   SchemaRoutes.is_numeric (_compose_type row) = false) /\
  (in_list (udt_name row) [txt "timestamp"; txt "timestamptz"] = true ->
   SchemaRoutes.is_date (_compose_type row) = true /\
   SchemaRoutes.is_numeric (_compose_type row) = false /\
   SchemaRoutes.is_text (_compose_type row) = false) /\
  (udt_name row = txt "bool" ->
   SchemaRoutes.is_numeric (_compose_type row) = false /\
   SchemaRoutes.is_text (_compose_type row) = false /\
   SchemaRoutes.is_date (_compose_type row) = false).
Proof.
  assert (K : forall u : str,
             udt_name row = u ->
             _compose_type row
             = _compose_type {| column_name := column_name row;
                                data_type := data_type row;
                                udt_name := u;
                                character_maximum_length := character_maximum_length row;
                                numeric_precision := numeric_precision row;
                                numeric_scale := numeric_scale row;
                                is_nullable := is_nullable row |}).
  { intros u <-. reflexivity. }
  split; [|split; [|split]]; intros H;
    try (apply in_list_In in H; cbn [In] in H;
         repeat match type of H with
                | _ \/ _ => destruct H as [H|H]
                | False => destruct H
                end;
         symmetry in H);
    rewrite (K _ H); unfold _compose_type;
    cbn [udt_name character_maximum_length numeric_precision numeric_scale data_type];
    destruct (truthy_int (character_maximum_length row));
    destruct (truthy_int (numeric_precision row));
    destruct (numeric_scale row);
    repeat split; reflexivity.
Qed.

Lemma composed_types_classified_witness :
  _compose_type total_row = txt "numeric(10,2)" /\
  SchemaRoutes.is_numeric (_compose_type total_row) = true /\
  SchemaRoutes.is_text (_compose_type total_row) = false.
Proof.
  split; [reflexivity|].
  destruct (composed_types_classified total_row) as [H _].
  apply H. reflexivity.
Defined.

End IntrospectionFacts.

(* ================================================================== *)
(** * The schema endpoints *)
(* ================================================================== *)

Section SchemaRouteFacts.

Import Json.
Import SchemaDiscovery.
Import SchemaRoutes.

(** A successful call has updated the one snapshot of the connection or
    added the first one; either way the connection's snapshot is then the
    one row that carries the returned schema. *)
Lemma discover_and_save_success
      (st st' : store) (connection_id : Z) (introspected : result RawSchema)
      (loaded : option json) (commit : option exn) (normalized : json) :
  discover_and_save st connection_id introspected loaded commit
  = (Ok normalized, st') ->
  (exists raw, introspected = Ok raw /\
               _normalize_with_ai (raw_json raw) loaded = Ok normalized) /\
  exists s, for_connection connection_id st' = [s] /\ schema_json s = normalized.
Proof.
  unfold discover_and_save.
  destruct introspected as [raw|e]; [|discriminate]. cbn [bind].
  destruct (_normalize_with_ai (raw_json raw) loaded) as [n|e] eqn:N;
    [|discriminate]. cbn [bind].
  destruct (for_connection connection_id st) as [|s [|s' rest]] eqn:F;
    cbn [one_or_none bind].
  - destruct (get n (txt "database") JNull) as [db|e]; [|discriminate].
    cbn [bind]. destruct commit as [e|]; [discriminate|].
    intros H. injection H as <- <-. split; [exists raw; split; [reflexivity | exact N]|].
    eexists. split.
    + rewrite for_connection_app, F. unfold for_connection. cbn [filter app].
      cbn [SchemaDiscovery.connection_id]. rewrite Z.eqb_refl. reflexivity.
    + reflexivity.
  - destruct commit as [e|]; [discriminate|].
    intros H. injection H as <- <-. split; [exists raw; split; [reflexivity | exact N]|].
    rewrite for_connection_set_schema_json, F. cbn [set_schema_json map].
    rewrite Z.eqb_refl. eexists. split; reflexivity.
  - discriminate.
Qed.

(** X25: what a successful discovery or refresh returns as [schema] is
    what [get_schema] returns for that connection afterwards. *)
Theorem discover_then_get_schema
        (st st' : store) (db : list Executor.DbConnection)
        (catalog_of : str -> Introspection.Catalog)
        (connection_id : Z) (payload : DiscoverRequest)
        (loaded : option json) (commit : option exn) (response : json) :
  discover_schema st db catalog_of connection_id payload loaded commit
  = (Ok response, st') \/
  refresh_schema st db catalog_of connection_id payload loaded commit
  = (Ok response, st') ->
  exists message schema,
    response = JObj [(txt "message", JStr message); (txt "schema", schema)] /\
    get_schema st' connection_id = Ok schema.
Proof.
  assert (K : forall message,
             discover_with message st db catalog_of connection_id payload loaded commit
             = (Ok response, st') ->
             exists schema,
               response = JObj [(txt "message", JStr message); (txt "schema", schema)] /\
               get_schema st' connection_id = Ok schema).
  { intros message H. unfold discover_with in H.
    destruct (_resolve_connection_string connection_id payload db) as [conn_str|e];
      [|discriminate].
    destruct (discover_and_save st connection_id
                (Introspection._introspect_schema (catalog_of conn_str))
                loaded commit) as [[n|e] st2] eqn:D; [|discriminate].
    injection H as <- <-. exists n. split; [reflexivity|].
    destruct (discover_and_save_success _ _ _ _ _ _ _ D) as [_ [s [F S]]].
    unfold get_schema. rewrite F. cbn [one_or_none bind]. congruence. }
  intros [H|H]; [exists (txt "Schema discovered and saved")
                | exists (txt "Schema refreshed")]; apply K; exact H.
Qed.

Lemma discover_then_get_schema_witness :
  exists st' message schema,
    discover_schema [] Executor.sample_connections
                    (fun _ => Introspection.shop_catalog) 1
                    {| connection_string := None |} None None
    = (Ok (JObj [(txt "message", JStr message); (txt "schema", schema)]), st') /\
    get_schema st' 1 = Ok schema.
Proof.
  eexists _, _, _. split; [reflexivity|].
  destruct (discover_then_get_schema
              [] _ Executor.sample_connections
              (fun _ => Introspection.shop_catalog) 1
              {| connection_string := None |} None None _
              (or_introl eq_refl)) as [m [sc [E G]]].
  injection E as _ <-. exact G.
Defined.

(** ** Ids of snapshots *)

Lemma snapshot_id_le_max (st : store) (s : SchemaSnapshot) :
  In s st -> (id s <= fold_right Z.max 0 (map id st))%Z.
Proof.
  induction st as [|x st IH]; intros H; [destruct H|].
  simpl. destruct H as [->|H]; [lia|]. specialize (IH H). lia.
Qed.

Lemma discover_and_save_keeps_ids
      (st : store) (connection_id : Z) (introspected : result RawSchema)
      (loaded : option json) (commit : option exn) :
  NoDup (map id st) ->
  NoDup (map id (snd (discover_and_save st connection_id introspected loaded commit))).
Proof.
  intros H. unfold discover_and_save.
  destruct introspected as [raw|e]; [|exact H]. cbn [bind].
  destruct (_normalize_with_ai (raw_json raw) loaded) as [n|e]; [|exact H].
  cbn [bind].
  destruct (for_connection connection_id st) as [|s [|s' rest]];
    cbn [one_or_none bind]; [| |exact H].
  - destruct (get n (txt "database") JNull) as [dbn|e]; [|exact H]. cbn [bind].
    destruct commit; [exact H|]. cbn [snd]. rewrite map_app. cbn [map id].
    apply NoDup_snoc; [exact H|].
    intros Hin. apply in_map_iff in Hin. destruct Hin as [x [E Hx]].
    pose proof (snapshot_id_le_max st x Hx). unfold next_id in E. lia.
  - destruct commit; [exact H|]. cbn [snd]. unfold set_schema_json.
    rewrite map_map. erewrite map_ext; [exact H|].
    intros x. destruct (Z.eqb (id x) (id s)); reflexivity.
Qed.

Lemma after_calls_keeps_ids (calls : list Call) (st : store) :
  NoDup (map id st) -> NoDup (map id (after_calls st calls)).
Proof.
  revert st. induction calls as [|c calls IH]; intros st H; [exact H|].
  apply IH. apply discover_and_save_keeps_ids. exact H.
Qed.

Lemma NoDup_map_inj {A B : Type} (f : A -> B) (l : list A) (x y : A) :
  NoDup (map f l) -> In x l -> In y l -> f x = f y -> x = y.
Proof.
  induction l as [|a l IH]; intros Hn Hx Hy E; [destruct Hx|].
  simpl in Hn. inversion Hn as [|? ? Ha Hl]; subst.
  destruct Hx as [->|Hx], Hy as [->|Hy].
  - reflexivity.
  - exfalso. apply Ha. rewrite E. apply in_map. exact Hy.
  - exfalso. apply Ha. rewrite <- E. apply in_map. exact Hx.
  - apply IH; assumption.
Qed.

(** One call leaves the snapshots of the other connections as they are. *)
Lemma discover_and_save_frame
      (st : store) (connection_id other : Z) (introspected : result RawSchema)
      (loaded : option json) (commit : option exn) :
  NoDup (map id st) -> other <> connection_id ->
  for_connection other
    (snd (discover_and_save st connection_id introspected loaded commit))
  = for_connection other st.
Proof.
  intros Hn Hne.
  destruct (discover_and_save_store st connection_id introspected loaded commit)
    as [E | [(s & n & F & E) | (s & F & C & E)]]; rewrite E; clear E.
  - reflexivity.
  - rewrite for_connection_set_schema_json. unfold set_schema_json.
    rewrite <- (map_id (for_connection other st)) at 2.
    apply map_ext_in. intros x Hx.
    destruct (Z.eqb (id x) (id s)) eqn:Q; [|reflexivity].
    exfalso. apply Z.eqb_eq in Q.
    assert (Hs : In s (for_connection connection_id st)) by (rewrite F; left; reflexivity).
    unfold for_connection in Hx, Hs. apply filter_In in Hx, Hs.
    destruct Hx as [Hx Cx], Hs as [Hs Cs].
    assert (x = s) by (apply (NoDup_map_inj id st); assumption). subst x.
    apply Z.eqb_eq in Cx, Cs. congruence.
  - rewrite for_connection_app. unfold for_connection at 2. cbn [filter].
    rewrite C. destruct (Z.eqb connection_id other) eqn:Q.
    + apply Z.eqb_eq in Q. congruence.
    + apply app_nil_r.
Qed.

(** X26: on a table reached by discoveries from the empty table, a
    discovery for one connection changes nothing for any other connection:
    [get_schema], [get_tables] and [get_table_schema] answer for it as
    before. *)
Theorem discover_leaves_other_connections
        (calls : list Call) (c : Call) (other : Z) (table_name : str) :
  other <> call_connection_id c ->
  let st := after_calls [] calls in
  get_schema (step st c) other = get_schema st other /\
  get_tables (step st c) other = get_tables st other /\
  get_table_schema (step st c) other table_name
  = get_table_schema st other table_name.
Proof.
  intros Hne st.
  assert (F : for_connection other (step st c) = for_connection other st).
  { unfold step. apply discover_and_save_frame; [|exact Hne].
    apply after_calls_keeps_ids. constructor. }
  unfold get_schema, get_tables, get_table_schema. rewrite F. repeat split.
Qed.

Lemma discover_leaves_other_connections_witness :
  get_schema (step (after_calls [] [first_discovery]) other_discovery) 2
  = Ok (raw_json Introspection.empty_schema) /\
  get_schema (step (after_calls [] [first_discovery]) other_discovery) 1
  = Ok (raw_json orders_raw) /\
  get_tables (step (after_calls [] [first_discovery]) other_discovery) 1
  = Ok (JObj [(txt "tables", JArr [JStr (txt "orders")])]) /\
  exists t,
    get_table_schema (step (after_calls [] [first_discovery]) other_discovery) 1
                     (txt "orders") = Ok t /\
    get t (txt "name") JNull = Ok (JStr (txt "orders")).
Proof.
  destruct (discover_leaves_other_connections
              [first_discovery] other_discovery 1 (txt "orders"))
    as (A & B & C); [discriminate|].
  cbv zeta in A, B, C. rewrite A, B, C.
  split; [reflexivity|]. split; [reflexivity|]. split; [reflexivity|].
  eexists. split; reflexivity.
Defined.

(** ** The tables of a stored snapshot *)

Lemma names_nonempty_truthy (s : json) (n : json) (ns : list json) :
  names_of s = Ok (n :: ns) -> truthy s = true.
Proof.
  destruct s as [| | | | |fields]; try discriminate.
  destruct fields; [discriminate | reflexivity].
Qed.

(** The snapshot [_normalize_with_ai] returns is a non-empty dictionary
    whose table names are, as a set, those of the raw structure. *)
Lemma normalize_result_names (r : RawSchema) (loaded : option json) (s : json) :
  _normalize_with_ai (raw_json r) loaded = Ok s ->
  truthy s = true /\
  exists names,
    names_of s = Ok names /\
    same_set names (map JStr (map tbl_name (tables r))).
Proof.
  assert (R : truthy (raw_json r) = true /\
              exists names,
                names_of (raw_json r) = Ok names /\
                same_set names (map JStr (map tbl_name (tables r)))).
  { split; [reflexivity|]. eexists. split; [apply names_of_raw_json|].
    rewrite raw_names_as_texts. intros x. tauto. }
  destruct loaded as [j|].
  - unfold _normalize_with_ai. cbn [bind].
    rewrite names_of_raw_json. cbn [bind]. rewrite raw_names_as_texts.
    destruct (names_of j) as [norm_tables|e] eqn:N; [|discriminate].
    cbn [bind]. destruct norm_tables as [|n ns].
    + cbn [bind]. rewrite rebuild_raw_json. intros H. injection H as <-. exact R.
    + unfold to_set.
      destruct (forallb hashable (n :: ns)); [|discriminate].
      rewrite hashable_names. cbn [bind].
      destruct (set_eqb (n :: ns) _) eqn:E; cbn [negb].
      * intros H. injection H as <-. split.
        -- exact (names_nonempty_truthy _ _ _ N).
        -- exists (n :: ns). split; [exact N | apply set_eqb_names; exact E].
      * rewrite rebuild_raw_json. intros H. injection H as <-. exact R.
  - rewrite normalize_parse_failure. intros H. injection H as <-. exact R.
Qed.

(** X27: after a successful discovery, [get_tables] lists, as a set,
    exactly the table names the introspection found. *)
Theorem get_tables_after_discovery
        (st st' : store) (connection_id : Z) (raw : RawSchema)
        (loaded : option json) (commit : option exn) (normalized : json) :
  discover_and_save st connection_id (Ok raw) loaded commit = (Ok normalized, st') ->
  exists names,
    get_tables st' connection_id = Ok (JObj [(txt "tables", JArr names)]) /\
    same_set names (map JStr (map tbl_name (tables raw))).
Proof.
  intros H.
  destruct (discover_and_save_success _ _ _ _ _ _ _ H)
    as [[raw' [E N]] [s [F S]]].
  injection E as <-.
  destruct (normalize_result_names _ _ _ N) as [T [names [Hn Hs]]].
  exists names. split; [|exact Hs].
  unfold get_tables. rewrite F. cbn [one_or_none bind].
  unfold schema_or_empty. rewrite S, T, Hn. reflexivity.
Qed.

Lemma get_tables_after_discovery_witness :
  exists names,
    get_tables (after_calls [] [first_discovery]) 1
    = Ok (JObj [(txt "tables", JArr names)]) /\
    same_set names (map JStr (map tbl_name (tables orders_raw))).
Proof.
  apply (get_tables_after_discovery [] _ 1 orders_raw None None (raw_json orders_raw)).
  reflexivity.
Defined.

Lemma names_of_inv (s : json) (names : list json) :
  names_of s = Ok names ->
  exists ts items,
    get s (txt "tables") (JArr []) = Ok ts /\
    iter ts = Ok items /\
    mapM (fun t => get t (txt "name") JNull) (filter is_dict items) = Ok names.
Proof.
  unfold names_of. intros H.
  destruct (get s (txt "tables") (JArr [])) as [ts|e]; [|discriminate].
  cbn [bind] in H. destruct (iter ts) as [items|e] eqn:I; [|discriminate].
  cbn [bind] in H. exists ts, items.
  split; [reflexivity|]. split; [exact I | exact H].
Qed.

Lemma first_named_none (table_name : str) (items : list json) (names : list json) :
  mapM (fun t => get t (txt "name") JNull) (filter is_dict items) = Ok names ->
  ~ In (JStr table_name) names ->
  first_named table_name items = Ok None.
Proof.
  revert names. induction items as [|t items IH]; intros names H Hn; [reflexivity|].
  cbn [filter first_named] in *. destruct (is_dict t); [|apply (IH names); assumption].
  cbn [mapM] in H. destruct (get t (txt "name") JNull) as [n|e]; [|discriminate].
  cbn [bind] in *.
  destruct (mapM (fun t => get t (txt "name") JNull) (filter is_dict items))
    as [ns|e]; [|discriminate].
  cbn [bind] in H. injection H as <-.
  destruct (py_eqb n (JStr table_name)) eqn:E.
  - apply py_eqb_str_r in E. exfalso. apply Hn. left. exact E.
  - apply (IH ns); [reflexivity|]. intros Hin. apply Hn. right. exact Hin.
Qed.

Lemma first_named_some (table_name : str) (items : list json) (names : list json) :
  mapM (fun t => get t (txt "name") JNull) (filter is_dict items) = Ok names ->
  In (JStr table_name) names ->
  exists t,
    first_named table_name items = Ok (Some t) /\
    (In t items /\ is_dict t = true) /\
    get t (txt "name") JNull = Ok (JStr table_name).
Proof.
  revert names. induction items as [|t items IH]; intros names H Hn.
  - cbn in H. injection H as <-. destruct Hn.
  - cbn [filter first_named] in *. destruct (is_dict t) eqn:D.
    + cbn [mapM] in H.
      destruct (get t (txt "name") JNull) as [n|e] eqn:G; [|discriminate].
      cbn [bind] in *.
      destruct (mapM (fun t => get t (txt "name") JNull) (filter is_dict items))
        as [ns|e]; [|discriminate].
      cbn [bind] in H. injection H as <-.
      destruct (py_eqb n (JStr table_name)) eqn:E.
      * apply py_eqb_str_r in E. subst n. exists t.
        split; [reflexivity|]. split; [split; [left; reflexivity | exact D] | exact G].
      * destruct Hn as [->|Hn].
        -- simpl in E. rewrite str_eqb_refl in E. discriminate.
        -- destruct (IH ns eq_refl Hn) as [t' [F [[I D'] G']]].
           exists t'. split; [exact F|].
           split; [split; [right; exact I | exact D'] | exact G'].
    + destruct (IH names H Hn) as [t' [F [[I D'] G']]].
      exists t'. split; [exact F|].
      split; [split; [right; exact I | exact D'] | exact G'].
Qed.

(** X28: after a successful discovery the stored schema is the returned
    one, and [get_table_schema] answers from it: for a name the
    introspection found, with a table of the stored schema, a dictionary that
    carries the asked name; for any other name with the empty placeholder,
    it does not fail. *)
Theorem get_table_schema_after_discovery
        (st st' : store) (connection_id : Z) (raw : RawSchema)
        (loaded : option json) (commit : option exn) (normalized : json)
        (table_name : str) :
  discover_and_save st connection_id (Ok raw) loaded commit = (Ok normalized, st') ->
  get_schema st' connection_id = Ok normalized /\
  (In table_name (map tbl_name (tables raw)) ->
   exists t,
     get_table_schema st' connection_id table_name = Ok t /\
     In t (stored_tables normalized) /\
     is_dict t = true /\
     get t (txt "name") JNull = Ok (JStr table_name)) /\
  (~ In table_name (map tbl_name (tables raw)) ->
   get_table_schema st' connection_id table_name = Ok (no_table table_name)).
Proof.
  intros H.
  destruct (discover_and_save_success _ _ _ _ _ _ _ H)
    as [[raw' [E N]] [s [F S]]].
  injection E as <-.
  destruct (normalize_result_names _ _ _ N) as [T [names [Hn Hs]]].
  destruct (names_of_inv _ _ Hn) as [ts [items [G [I M]]]].
  assert (U : forall x : unit,
             get_table_schema st' connection_id table_name
             = bind (first_named table_name items)
                    (fun found =>
                       match found with
                       | Some t => Ok t
                       | None => Ok (no_table table_name)
                       end)).
  { intros _. unfold get_table_schema. rewrite F. cbn [one_or_none bind].
    unfold schema_or_empty. rewrite S, T, G. cbn [bind]. rewrite I. reflexivity. }
  assert (V : stored_tables normalized = items).
  { unfold stored_tables. rewrite G. cbn [bind]. rewrite I. reflexivity. }
  split; [|split; intros Hin].
  - unfold get_schema. rewrite F. cbn [one_or_none bind]. rewrite S. reflexivity.
  - assert (Hj : In (JStr table_name) names).
    { apply Hs. apply in_map. exact Hin. }
    destruct (first_named_some _ _ _ M Hj) as [t [Ft [[It Dt] Gt]]].
    exists t. rewrite (U tt), Ft, V. repeat split; assumption.
  - assert (Hj : ~ In (JStr table_name) names).
    { intros Hj. apply Hs in Hj. apply in_map_iff in Hj.
      destruct Hj as [x [Ex Hx]]. injection Ex as ->. contradiction. }
    rewrite (U tt), (first_named_none _ _ _ M Hj). reflexivity.
Qed.

Lemma get_table_schema_after_discovery_witness :
  (exists t,
      get_table_schema (after_calls [] [first_discovery]) 1 (txt "orders") = Ok t /\
      stored_tables (raw_json orders_raw) = [t] /\
      get t (txt "name") JNull = Ok (JStr (txt "orders")) /\
      t <> no_table (txt "orders")) /\
  get_table_schema (after_calls [] [first_discovery]) 1 (txt "customers")
  = Ok (no_table (txt "customers")).
Proof.
  split.
  - destruct (get_table_schema_after_discovery
                [] (after_calls [] [first_discovery]) 1 orders_raw None None
                (raw_json orders_raw) (txt "orders") eq_refl) as [_ [H _]].
    destruct H as (t & A & B & _ & D); [left; reflexivity|].
    exists t. split; [exact A|]. destruct B as [<-|[]].
    split; [reflexivity|]. split; [exact D | discriminate].
  - destruct (get_table_schema_after_discovery
                [] (after_calls [] [first_discovery]) 1 orders_raw None None
                (raw_json orders_raw) (txt "customers") eq_refl) as [_ [_ H]].
    apply H. intros [E|[]]. discriminate E.
Defined.

(** X29: without a connection string in the request and without a usable
    one in the connection store, discovery and refresh answer 400 and leave
    the snapshot table alone, whatever the target databases hold; a
    connection string in the request is used whatever the store holds. *)
Theorem discover_connection_string
        (st : store) (db : list Executor.DbConnection)
        (catalog_of : str -> Introspection.Catalog)
        (connection_id : Z) (payload : DiscoverRequest)
        (loaded : option json) (commit : option exn) :
  (connection_string payload = None \/ connection_string payload = Some []) ->
  (forall r, In r db -> Executor.id r = connection_id ->
             Executor.connection_string r = []) ->
  length (filter (fun r => Z.eqb (Executor.id r) connection_id) db) <= 1 ->
  discover_schema st db catalog_of connection_id payload loaded commit
  = (Raise no_connection_string, st) /\
  refresh_schema st db catalog_of connection_id payload loaded commit
  = (Raise no_connection_string, st).
Proof.
  intros Hp Hdb Hlen.
  assert (R : _resolve_connection_string connection_id payload db
              = Raise no_connection_string).
  { unfold _resolve_connection_string.
    assert (F : match filter (fun r => Z.eqb (Executor.id r) connection_id) db with
                | [] => True
                | [r] => Executor.connection_string r = []
                | _ => False
                end).
    { destruct (filter (fun r => Z.eqb (Executor.id r) connection_id) db)
        as [|r [|r' rest]] eqn:E; [exact I| |simpl in Hlen; lia].
      assert (Hr : In r (filter (fun r => Z.eqb (Executor.id r) connection_id) db))
        by (rewrite E; left; reflexivity).
      apply filter_In in Hr. destruct Hr as [Hr Hid].
      apply Hdb; [exact Hr | apply Z.eqb_eq; exact Hid]. }
    destruct Hp as [-> | ->];
      destruct (filter (fun r => Z.eqb (Executor.id r) connection_id) db)
        as [|r [|r' rest]]; try contradiction; cbn [one_or_none bind];
      try rewrite F; reflexivity. }
  unfold discover_schema, refresh_schema, discover_with. rewrite R. split; reflexivity.
Qed.

Lemma discover_connection_string_witness :
  discover_schema [] Executor.sample_connections
                  (fun _ => Introspection.shop_catalog) 2
                  {| connection_string := None |} None None
  = (Raise no_connection_string, []) /\
  refresh_schema [] Executor.sample_connections
                 (fun _ => Introspection.shop_catalog) 2
                 {| connection_string := None |} None None
  = (Raise no_connection_string, []).
Proof.
  apply (discover_connection_string
           [] Executor.sample_connections
           (fun _ => Introspection.shop_catalog) 2
           {| connection_string := None |} None None).
  - left. reflexivity.
  - intros r [<-|[]] E. discriminate E.
  - simpl. lia.
Defined.

(** ** The example questions *)

Lemma dedupe_invariant (examples seen deduped : list str) :
  (forall x, In x seen <-> In x deduped) ->
  NoDup deduped -> length deduped < 6 ->
  NoDup (dedupe examples seen deduped) /\
  length (dedupe examples seen deduped) <= 6 /\
  (forall q, In q (dedupe examples seen deduped) ->
             In q deduped \/ In q examples) /\
  (forall q, In q deduped -> In q (dedupe examples seen deduped)).
Proof.
  revert seen deduped. induction examples as [|q rest IH]; intros seen deduped Hs Hn Hl.
  - cbn [dedupe]. repeat split; [exact Hn | lia | tauto | tauto].
  - cbn [dedupe].
    destruct (Introspection.in_list q seen) eqn:E; cbn [negb].
    + replace (6 <=? length deduped) with false by (symmetry; apply Nat.leb_gt; exact Hl).
      destruct (IH seen deduped Hs Hn Hl) as (A & B & C & D).
      repeat split; try assumption.
      intros x Hx. destruct (C x Hx); [left | right; right]; assumption.
    + assert (Hq : ~ In q deduped).
      { intros Hq. apply Hs in Hq. apply in_list_In in Hq. congruence. }
      assert (Hn' : NoDup (deduped ++ [q])) by (apply NoDup_snoc; assumption).
      assert (Hlen : length (deduped ++ [q]) = S (length deduped))
        by (rewrite length_app; simpl; lia).
      destruct (6 <=? length (deduped ++ [q])) eqn:L.
      * repeat split.
        -- exact Hn'.
        -- lia.
        -- intros x Hx. apply in_app_or in Hx.
           destruct Hx as [Hx|[<-|[]]]; [left; exact Hx | right; left; reflexivity].
        -- intros x Hx. apply in_or_app. left. exact Hx.
      * apply Nat.leb_gt in L.
        destruct (IH (q :: seen) (deduped ++ [q])) as (A & B & C & D);
          [|exact Hn'|exact L|].
        { intros x. simpl. rewrite in_app_iff, Hs. simpl. tauto. }
        repeat split; try assumption.
        -- intros x Hx. destruct (C x Hx) as [Hx'|Hx'].
           ++ apply in_app_or in Hx'.
              destruct Hx' as [Hx'|[<-|[]]]; [left; exact Hx' | right; left; reflexivity].
           ++ right. right. exact Hx'.
        -- intros x Hx. apply D. apply in_or_app. left. exact Hx.
Qed.

(** X30: whenever [_build_dynamic_examples] returns, it returns between
    one and six questions, no two of them alike. *)
Theorem build_dynamic_examples_bounds
        (py_str : json -> str) (schema : json) (questions : list str) :
  _build_dynamic_examples py_str schema = Ok questions ->
  1 <= length questions <= 6 /\ NoDup questions.
Proof.
  unfold _build_dynamic_examples. intros H.
  destruct (get (if truthy schema then schema else JObj []) (txt "tables") (JArr []))
    as [ts|e]; [|discriminate]. cbn [bind] in H.
  destruct (iter ts) as [items|e]; [|discriminate]. cbn [bind] in H.
  destruct (mapM (table_examples py_str) (firstn 3 (filter is_dict items)))
    as [per_table|e]; [|discriminate]. cbn [bind] in H.
  injection H as <-.
  destruct (dedupe_invariant (concat per_table) [] []) as (A & B & _ & _).
  - intros x. tauto.
  - constructor.
  - simpl. lia.
  - destruct (dedupe (concat per_table) [] []) as [|q qs].
    + split; [simpl; lia|]. unfold default_examples.
      repeat constructor; simpl; intuition discriminate.
    + split; [simpl in *; lia | exact A].
Qed.

Lemma build_dynamic_examples_bounds_witness :
  exists questions,
    _build_dynamic_examples
      (fun j => match j with JStr s => s | _ => [] end)
      (raw_json orders_raw) = Ok questions /\
    1 <= length questions <= 6 /\ NoDup questions.
Proof.
  eexists. split; [reflexivity|].
  apply (build_dynamic_examples_bounds
           (fun j => match j with JStr s => s | _ => [] end)
           (raw_json orders_raw)).
  reflexivity.
Defined.

(** ** The snapshot that normalization returns *)

(** X13: whenever [_normalize_with_ai] returns, the snapshot is the model's
    reply as parsed or the raw structure, nothing in between; it is a
    dictionary, and its table names are, as a set, those of the raw
    structure. *)
Theorem normalize_snapshot_sound (r : RawSchema) (loaded : option json) (s : json) :
  _normalize_with_ai (raw_json r) loaded = Ok s ->
  (s = raw_json r \/ loaded = Some s) /\
  is_dict s = true /\
  same_set (tableNames s) (tableNames (raw_json r)).
Proof.
  intros H. split; [|split].
  - destruct (normalize_cases r loaded s H) as [E|[E _]]; [left | right]; exact E.
  - destruct (normalize_result_names r loaded s H) as [_ [names [N _]]].
    destruct s; try discriminate N. reflexivity.
  - destruct (normalize_cases r loaded s H) as [->|[_ E]]; [intros x; tauto | exact E].
Qed.

Lemma normalize_snapshot_sound_witness :
  (invented_column_reply = raw_json orders_raw \/
   Some invented_column_reply = Some invented_column_reply) /\
  is_dict invented_column_reply = true /\
  same_set (tableNames invented_column_reply) (tableNames (raw_json orders_raw)).
Proof.
  apply (normalize_snapshot_sound orders_raw (Some invented_column_reply)
           invented_column_reply).
  reflexivity.
Defined.

Lemma names_of_non_dict (j : json) :
  is_dict j = false -> names_of j = Raise AttributeError.
Proof. destruct j; try reflexivity. discriminate. Qed.

(** X17: the replies that carry nothing.  A reply that cannot be parsed,
    and a reply that is an object without the key [tables], give the raw
    structure back; a reply that parses to anything but an object is not
    caught: the [AttributeError] leaves [_normalize_with_ai]. *)
Theorem normalize_degenerate_replies
        (r : RawSchema) (j : json) (fields : list (str * json)) :
  _normalize_with_ai (raw_json r) None = Ok (raw_json r) /\
  (lookup (txt "tables") fields = None ->
   _normalize_with_ai (raw_json r) (Some (JObj fields)) = Ok (raw_json r)) /\
  (is_dict j = false ->
   _normalize_with_ai (raw_json r) (Some j) = Raise AttributeError).
Proof.
  split; [apply normalize_parse_failure|]. split; intros H.
  - unfold _normalize_with_ai. cbn [bind]. rewrite names_of_raw_json. cbn [bind].
    unfold names_of at 1. cbn [get]. rewrite H. cbn [bind iter filter mapM].
    apply rebuild_raw_json.
  - unfold _normalize_with_ai. cbn [bind]. rewrite names_of_raw_json. cbn [bind].
    rewrite (names_of_non_dict j H). reflexivity.
Qed.

Lemma normalize_degenerate_replies_witness :
  _normalize_with_ai (raw_json orders_raw) None = Ok (raw_json orders_raw) /\
  _normalize_with_ai (raw_json orders_raw)
                     (Some (JObj [(txt "note", JStr (txt "no tables here"))]))
  = Ok (raw_json orders_raw) /\
  _normalize_with_ai (raw_json orders_raw) (Some (JStr (txt "sorry")))
  = Raise AttributeError.
Proof.
  destruct (normalize_degenerate_replies
              orders_raw (JStr (txt "sorry"))
              [(txt "note", JStr (txt "no tables here"))]) as (H1 & H2 & H3).
  split; [exact H1|]. split; [apply H2; reflexivity | apply H3; reflexivity].
Defined.

End SchemaRouteFacts.

(* ================================================================== *)
(** * The snapshot table *)
(* ================================================================== *)

Section SnapshotFacts.

Import Json.
Import SchemaDiscovery.

(** C9: after any sequence of [discover_and_save] calls on an empty table,
    no connection id has more than one snapshot.  A further call that
    returns leaves exactly one snapshot for its connection, and that
    snapshot carries the schema the call returns; when the connection had
    its snapshot already, the table is the old one with that row updated
    where it stands, under the same id and name, and no row is added; the
    snapshots of the other connections are as they were.  A call for a
    connection that has its snapshot, returning or not, leaves the number of
    rows as it is. *)
Theorem C9_one_snapshot_per_connection
        (calls : list Call) (connection_id : Z) (again : Call) :
  let st := after_calls [] calls in
  length (for_connection connection_id st) <= 1 /\
  (forall normalized st',
      discover_and_save st (call_connection_id again) (call_introspected again)
                        (call_loaded again) (call_commit again)
      = (Ok normalized, st') ->
      (exists snapshot,
          for_connection (call_connection_id again) st' = [snapshot] /\
          schema_json snapshot = normalized) /\
      (forall old,
          for_connection (call_connection_id again) st = [old] ->
          st' = set_schema_json old normalized st /\
          length st' = length st /\
          for_connection (call_connection_id again) st'
          = [ {| id := id old;
                 SchemaDiscovery.connection_id := SchemaDiscovery.connection_id old;
                 name := name old;
                 schema_json := normalized |} ]) /\
      (connection_id <> call_connection_id again ->
       for_connection connection_id st' = for_connection connection_id st)) /\
  (for_connection (call_connection_id again) st <> [] ->
   length (step st again) = length st /\
   length (for_connection (call_connection_id again) (step st again)) = 1).
Proof.
  intros st.
  assert (H : at_most_one st) by (apply after_calls_at_most_one, at_most_one_empty).
  assert (Hid : NoDup (map id st)) by (apply after_calls_keeps_ids; constructor).
  split; [apply H|]. split.
  - intros normalized st' D. split; [|split].
    + destruct (discover_and_save_success _ _ _ _ _ _ _ D) as [_ S]. exact S.
    + intros old F. unfold discover_and_save in D.
      destruct (call_introspected again) as [raw|e]; [|discriminate].
      cbn [bind] in D.
      destruct (_normalize_with_ai (raw_json raw) (call_loaded again)) as [n|e];
        [|discriminate].
      cbn [bind] in D. rewrite F in D. cbn [one_or_none bind] in D.
      destruct (call_commit again) as [e|]; [discriminate|].
      injection D as <- <-. split; [reflexivity|].
      split; [apply length_set_schema_json|].
      rewrite for_connection_set_schema_json, F. cbn [set_schema_json map].
      rewrite Z.eqb_refl. reflexivity.
    + intros Hne.
      pose proof (discover_and_save_frame st (call_connection_id again) connection_id
                    (call_introspected again) (call_loaded again)
                    (call_commit again) Hid Hne) as Fr.
      rewrite D in Fr. exact Fr.
  - intros Hne. unfold step.
    pose proof (H (call_connection_id again)) as H1.
    assert (L : length (for_connection (call_connection_id again) st) = 1).
    { destruct (for_connection (call_connection_id again) st); [congruence|].
      simpl in *. lia. }
    destruct (discover_and_save_store st (call_connection_id again)
                (call_introspected again) (call_loaded again) (call_commit again))
      as [E | [(s & n & F & E) | (s & F & C & E)]]; rewrite E; clear E.
    + split; [reflexivity | exact L].
    + rewrite for_connection_set_schema_json, !length_set_schema_json.
      split; [reflexivity | exact L].
    + congruence.
Qed.

Lemma C9_one_snapshot_per_connection_witness :
  length (for_connection 1 (after_calls [] [first_discovery])) <= 1 /\
  for_connection 1 (after_calls [] [first_discovery])
  = [ {| id := 1;
         SchemaDiscovery.connection_id := 1;
         name := JStr (txt "shop");
         schema_json := raw_json orders_raw |} ] /\
  for_connection 1 (step (after_calls [] [first_discovery]) second_discovery)
  = [ {| id := 1;
         SchemaDiscovery.connection_id := 1;
         name := JStr (txt "shop");
         schema_json := invented_column_reply |} ] /\
  length (step (after_calls [] [first_discovery]) second_discovery) = 1.
Proof.
  destruct (C9_one_snapshot_per_connection [first_discovery] 1 second_discovery)
    as (A & B & C).
  split; [exact A|]. split; [reflexivity|].
  destruct (B invented_column_reply
              (step (after_calls [] [first_discovery]) second_discovery) eq_refl)
    as (_ & R & _).
  destruct (R {| id := 1;
                 SchemaDiscovery.connection_id := 1;
                 name := JStr (txt "shop");
                 schema_json := raw_json orders_raw |} eq_refl)
    as (_ & L & F).
  split; [exact F | exact L].
Defined.

End SnapshotFacts.

(** The clock arithmetic is that of floats: the readings 0.0 and 0.009 are
    nine milliseconds apart, 0.1 and 0.3 are 199, and the integer part is
    taken towards zero. *)
Example elapsed_ms_nine : elapsed_ms 0 0x1.26e978d4fdf3bp-7 = 9%Z.
Proof. reflexivity. Qed.
Example elapsed_ms_rounding :
  elapsed_ms 0x1.999999999999ap-4 0x1.3333333333333p-2 = 199%Z.
Proof. reflexivity. Qed.
Example elapsed_ms_truncates : elapsed_ms 0 0x1.89374bc6a7efap-10 = 1%Z.
Proof. reflexivity. Qed.
Example elapsed_ms_towards_zero : elapsed_ms 0x1.89374bc6a7efap-10 0 = (-1)%Z.
Proof. reflexivity. Qed.

Example validate_select_one :
  Guardrails.block_execution (Guardrails.validate_sql (txt "SELECT 1;") 1) = false.
Proof. vm_compute. reflexivity. Qed.

Example validate_delete :
  Guardrails.validate_sql (txt "DELETE FROM orders") 1
  = {| Guardrails.is_safe := false;
       Guardrails.warnings := [txt "Detected dangerous keyword: DELETE"];
       Guardrails.block_execution := true |}.
Proof. vm_compute. reflexivity. Qed.

Example rstrip_ex : rstrip_semi (txt "a;b;;") = txt "a;b".
Proof. vm_compute. reflexivity. Qed.

Example strip_ex : strip (txt "  a b  ") = txt "a b".
Proof. vm_compute. reflexivity. Qed.

Example word_ex1 : Guardrails.contains_word (txt "DROP") (txt "X DROP") = true.
Proof. vm_compute. reflexivity. Qed.
Example word_ex2 : Guardrails.contains_word (txt "DROP") (txt "DROPPED BACKDROP") = false.
Proof. vm_compute. reflexivity. Qed.

Example extract_ex1 :
  SqlChain.extract_sql (Some (txt "Here: select * from t where name = 'Bob' ; drop table x"))
  = txt "select * from t WHERE name ILIKE 'Bob';".
Proof. vm_compute. reflexivity. Qed.
Example extract_ex2 :
  SqlChain.extract_sql (Some (txt "x ``` select 1 ``` select 2; ```")) = txt "select 2;".
Proof. vm_compute. reflexivity. Qed.
Example extract_ex3 :
  SqlChain.extract_sql (Some (txt "select * from t where a='b'where c = 'd'"))
  = txt "select * from t WHERE a ILIKE 'b'WHERE c ILIKE 'd';".
Proof. vm_compute. reflexivity. Qed.
Example extract_ex4 :
  SqlChain.extract_sql (Some (txt "````a```b select 1" ++ ["010"%char])) = txt "select 1;".
Proof. vm_compute. reflexivity. Qed.
Example extract_ex5 :
  SqlChain.extract_sql (Some (txt "SeLeCt a FROM t WHERE  t.x='ABC' and y = 'q';"))
  = txt "SeLeCt a FROM t WHERE t.x ILIKE 'ABC' and y = 'q';".
Proof. vm_compute. reflexivity. Qed.
Example extract_ex6 :
  SqlChain.extract_sql (Some (txt "```sql" ++ ["010"%char] ++ txt "SELECT 1;" ++ ["010"%char] ++ txt "```extra text")) = txt "SELECT 1;".
Proof. vm_compute. reflexivity. Qed.
